(** * One-way folder backup ([backup.py]): a model of [calc_md5], [log],
    [sync] and the body of [main]'s loop, with the properties of the
    synchronisation pass.

    Modelling conventions.
    - A directory tree is a [node]: a regular file (its permission to be read
      and its bytes) or a directory (its entries in listing order).  A root
      path ([source], [dest]) refers to a [tree]: [None] when nothing exists
      at the path.  Symbolic links, write permissions and directory
      permissions are not modelled; the parent directory of a root exists.
    - [source] and [dest] are two distinct roots, neither inside the other.
    - A path is a root and the list of components joined to it; the
      component ["."] is the current directory, as [os.path.relpath]
      produces it for the top directory of a walk.
    - Exceptions are values ([exn]); a computation returns [Ok] or [Raise]
      together with the world it leaves behind.
    - A log line is an [event]; time stamps are left out. *)

From Stdlib Require Import List String Ascii ZArith Lia Bool.
From Stdlib.Strings Require Import Byte.
Import ListNotations.
Local Open Scope string_scope.
Local Open Scope list_scope.

(* ================================================================= *)
(** * [hashlib.md5] *)

Module MD5.
Local Open Scope Z_scope.

Definition mask32 : Z := 0xFFFFFFFF.
Definition add32 (a b : Z) : Z := Z.land (a + b) mask32.
Definition not32 (a : Z) : Z := Z.lxor a mask32.
Definition rotl32 (x c : Z) : Z :=
  Z.land (Z.lor (Z.shiftl x c) (Z.shiftr x (32 - c))) mask32.

Definition shifts : list Z :=
  [7; 12; 17; 22; 7; 12; 17; 22; 7; 12; 17; 22; 7; 12; 17; 22;
   5;  9; 14; 20; 5;  9; 14; 20; 5;  9; 14; 20; 5;  9; 14; 20;
   4; 11; 16; 23; 4; 11; 16; 23; 4; 11; 16; 23; 4; 11; 16; 23;
   6; 10; 15; 21; 6; 10; 15; 21; 6; 10; 15; 21; 6; 10; 15; 21].

Definition sines : list Z :=
  [0xd76aa478; 0xe8c7b756; 0x242070db; 0xc1bdceee; 0xf57c0faf; 0x4787c62a;
   0xa8304613; 0xfd469501; 0x698098d8; 0x8b44f7af; 0xffff5bb1; 0x895cd7be;
   0x6b901122; 0xfd987193; 0xa679438e; 0x49b40821; 0xf61e2562; 0xc040b340;
   0x265e5a51; 0xe9b6c7aa; 0xd62f105d; 0x02441453; 0xd8a1e681; 0xe7d3fbc8;
   0x21e1cde6; 0xc33707d6; 0xf4d50d87; 0x455a14ed; 0xa9e3e905; 0xfcefa3f8;
   0x676f02d9; 0x8d2a4c8a; 0xfffa3942; 0x8771f681; 0x6d9d6122; 0xfde5380c;
   0xa4beea44; 0x4bdecfa9; 0xf6bb4b60; 0xbebfbc70; 0x289b7ec6; 0xeaa127fa;
   0xd4ef3085; 0x04881d05; 0xd9d4d039; 0xe6db99e5; 0x1fa27cf8; 0xc4ac5665;
   0xf4292244; 0x432aff97; 0xab9423a7; 0xfc93a039; 0x655b59c3; 0x8f0ccc92;
   0xffeff47d; 0x85845dd1; 0x6fa87e4f; 0xfe2ce6e0; 0xa3014314; 0x4e0811a1;
   0xf7537e82; 0xbd3af235; 0x2ad7d2bb; 0xeb86d391].

(** The four chaining words. *)
Record regs : Type := Regs { rA : Z; rB : Z; rC : Z; rD : Z }.

Definition init_regs : regs :=
  Regs 0x67452301 0xefcdab89 0x98badcfe 0x10325476.

Definition byte_val (b : byte) : Z := Z.of_N (Byte.to_N b).

(** Little-endian value of a run of bytes. *)
Fixpoint le_word (bs : list Z) : Z :=
  match bs with
  | [] => 0
  | b :: r => b + 256 * le_word r
  end.

(** The [n] low bytes of [x], least significant first. *)
Fixpoint le_bytes (n : nat) (x : Z) : list Z :=
  match n with
  | O => []
  | S k => Z.land x 255 :: le_bytes k (Z.shiftr x 8)
  end.

(** Sixteen 32-bit words of a 64-byte block. *)
Fixpoint words_of (n : nat) (bs : list Z) : list Z :=
  match n with
  | O => []
  | S k => le_word (firstn 4 bs) :: words_of k (skipn 4 bs)
  end.

Definition round_fun (i : Z) (b c d : Z) : Z :=
  if i <? 16 then Z.lor (Z.land b c) (Z.land (not32 b) d)
  else if i <? 32 then Z.lor (Z.land d b) (Z.land (not32 d) c)
  else if i <? 48 then Z.lxor b (Z.lxor c d)
  else Z.lxor c (Z.lor b (not32 d)).

Definition word_index (i : Z) : Z :=
  if i <? 16 then i
  else if i <? 32 then (5 * i + 1) mod 16
  else if i <? 48 then (3 * i + 5) mod 16
  else (7 * i) mod 16.

Definition step (m : list Z) (r : regs) (i : Z) : regs :=
  let f := round_fun i (rB r) (rC r) (rD r) in
  let g := Z.to_nat (word_index i) in
  let f' := add32 (add32 (add32 f (rA r)) (nth (Z.to_nat i) sines 0))
                  (nth g m 0) in
  Regs (rD r)
       (add32 (rB r) (rotl32 f' (nth (Z.to_nat i) shifts 0)))
       (rB r)
       (rC r).

Definition compress (h : regs) (block : list Z) : regs :=
  let m := words_of 16 block in
  let r := fold_left (step m) (map Z.of_nat (seq 0 64)) h in
  Regs (add32 (rA h) (rA r)) (add32 (rB h) (rB r))
       (add32 (rC h) (rC r)) (add32 (rD h) (rD r)).

(** Padding: a [0x80] byte, zeros up to 56 modulo 64, the bit length on
    eight bytes. *)
Definition pad (msg : list Z) : list Z :=
  let len := Z.of_nat (List.length msg) in
  let zeros := Z.to_nat ((55 - len) mod 64) in
  msg ++ [0x80] ++ repeat 0 zeros ++ le_bytes 8 (Z.land (8 * len) 0xFFFFFFFFFFFFFFFF).

Fixpoint blocks (n : nat) (bs : list Z) (h : regs) : regs :=
  match n with
  | O => h
  | S k => blocks k (skipn 64 bs) (compress h (firstn 64 bs))
  end.

Definition digest (data : list byte) : list Z :=
  let p := pad (map byte_val data) in
  let r := blocks (Nat.div (List.length p) 64) p init_regs in
  le_bytes 4 (rA r) ++ le_bytes 4 (rB r) ++ le_bytes 4 (rC r) ++ le_bytes 4 (rD r).

Definition hex_digit (n : Z) : ascii :=
  nth (Z.to_nat n)
      ["0"; "1"; "2"; "3"; "4"; "5"; "6"; "7";
       "8"; "9"; "a"; "b"; "c"; "d"; "e"; "f"]%char "0"%char.

Fixpoint hex (bs : list Z) : string :=
  match bs with
  | [] => EmptyString
  | b :: r => String (hex_digit (Z.shiftr b 4)) (String (hex_digit (Z.land b 15)) (hex r))
  end.

(** [hashlib.md5(data).hexdigest()]. *)
Definition hexdigest (data : list byte) : string := hex (digest data).

End MD5.

Definition bytes_of_string (s : string) : list byte := list_byte_of_string s.


(* ================================================================= *)
(** * Directory trees and paths *)

Set Warnings "-register-all".

Inductive node : Type :=
| File (readable : bool) (data : list byte)
| Dir (entries : list (string * node)).

(** What a root path refers to: [None] when nothing exists there. *)
Abbreviation tree := (option node) (only parsing).

(** The two path arguments of [sync]. *)
Inductive top : Type := TopSource | TopDest.

Abbreviation relpath := (list string) (only parsing).
Abbreviation path := (top * list string)%type (only parsing).

Definition curdir : string := ".".

(** [os.path.join]. *)
Definition join_rel (p : path) (r : relpath) : path := (fst p, snd p ++ r).
Definition join (p : path) (x : string) : path := join_rel p [x].

Definition top_eqb (a b : top) : bool :=
  match a, b with
  | TopSource, TopSource | TopDest, TopDest => true
  | _, _ => false
  end.

Fixpoint assoc (x : string) (es : list (string * node)) : option node :=
  match es with
  | [] => None
  | (y, n) :: r => if String.eqb x y then Some n else assoc x r
  end.

(** Replace the entry named [x], or add it after the existing ones. *)
Fixpoint set_entry (x : string) (v : node) (es : list (string * node))
  : list (string * node) :=
  match es with
  | [] => [(x, v)]
  | (y, n) :: r => if String.eqb x y then (y, v) :: r else (y, n) :: set_entry x v r
  end.

Definition del_entry (x : string) (es : list (string * node))
  : list (string * node) :=
  filter (fun e => negb (String.eqb x (fst e))) es.

Definition bind_entry (x : string) (v : tree) (es : list (string * node))
  : list (string * node) :=
  match v with
  | Some n => set_entry x n es
  | None => del_entry x es
  end.

Definition is_dir (n : node) : bool :=
  match n with Dir _ => true | File _ _ => false end.

(** One step of path resolution. *)
Definition child (t : tree) (x : string) : tree :=
  match t with
  | Some (Dir es) => if String.eqb x curdir then t else assoc x es
  | _ => None
  end.

Fixpoint lookup (t : tree) (p : relpath) : tree :=
  match p with
  | [] => t
  | x :: q => lookup (child t x) q
  end.

(** Whether resolution of [p] stops at a component that is not a
    directory (errno ENOTDIR) rather than at a missing one (ENOENT). *)
Fixpoint stops_at_file (t : tree) (p : relpath) : bool :=
  match p with
  | [] => false
  | x :: q =>
      match t with
      | Some (File _ _) => true
      | _ => stops_at_file (child t x) q
      end
  end.

(** The path without its ["."] components. *)
Definition norm (p : relpath) : relpath :=
  filter (fun x => negb (String.eqb x curdir)) p.

(** The tree with [v] at the place the name path [p] designates; the
    directories on the way must exist. *)
Fixpoint store (p : relpath) (v : tree) (t : tree) : tree :=
  match p with
  | [] => v
  | x :: q =>
      match t with
      | Some (Dir es) => Some (Dir (bind_entry x (store q v (assoc x es)) es))
      | _ => t
      end
  end.

Definition dir_names (es : list (string * node)) : list string :=
  map fst (filter (fun e => is_dir (snd e)) es).

Definition file_names (es : list (string * node)) : list string :=
  map fst (filter (fun e => negb (is_dir (snd e))) es).

(* ================================================================= *)
(** * Exceptions, log lines, the world *)

Inductive exn : Type :=
| FileNotFoundError (p : path)
| PermissionError (p : path)
| IsADirectoryError (p : path)
| NotADirectoryError (p : path)
| FileExistsError (p : path).

(** The messages passed to [log]. *)
Inductive event : Type :=
| CreatedDirectory (d : path)
| CopiedNewFile (src dst : path)
| UpdatedFile (src dst : path)
| DeletedFile (f : path)
| DeletedDirectory (d : path)
| Error (e : exn)
| SynchronizationCompleted.

(** The source and the destination as two trees, which is what the two
    paths of [sync] are when neither lies inside the other; [Shared]
    below has both in one tree. *)
Record world : Type := World {
  source_tree : tree;
  dest_tree : tree;
  logfile : list event
}.

Definition tree_of (r : top) (w : world) : tree :=
  match r with
  | TopSource => source_tree w
  | TopDest => dest_tree w
  end.

Definition set_tree (r : top) (t : tree) (w : world) : world :=
  match r with
  | TopSource => World t (dest_tree w) (logfile w)
  | TopDest => World (source_tree w) t (logfile w)
  end.

Inductive result (A : Type) : Type :=
| Ok (a : A)
| Raise (e : exn).
Arguments Ok {A} a.
Arguments Raise {A} e.

(** A computation: the value or exception, and the world afterwards. *)
Definition M (A : Type) : Type := world -> result A * world.

Definition ret {A} (a : A) : M A := fun w => (Ok a, w).
Definition raise {A} (e : exn) : M A := fun w => (Raise e, w).
Definition bind {A B} (c : M A) (k : A -> M B) : M B :=
  fun w =>
    match c w with
    | (Ok a, w') => k a w'
    | (Raise e, w') => (Raise e, w')
    end.

Notation "x <- c ;; k" := (bind c (fun x => k))
  (at level 61, c at next level, right associativity).
Notation "c ;; k" := (bind c (fun _ => k))
  (at level 61, right associativity).

Fixpoint for_each {X} (l : list X) (body : X -> M unit) : M unit :=
  match l with
  | [] => ret tt
  | x :: r => body x ;; for_each r body
  end.

(** [try: c / except FileNotFoundError: h]. *)
Definition except_file_not_found {A} (c : M A) (h : M A) : M A :=
  fun w =>
    match c w with
    | (Raise (FileNotFoundError _), w') => h w'
    | r => r
    end.

(** [try: c / except FileExistsError: pass]. *)
Definition except_file_exists (c : M unit) : M unit :=
  fun w =>
    match c w with
    | (Raise (FileExistsError _), w') => (Ok tt, w')
    | r => r
    end.

(* ================================================================= *)
(** * The file-system calls used by [backup.py] *)

Definition lookup_path (p : path) (w : world) : tree :=
  lookup (tree_of (fst p) w) (snd p).

(** The exception of a call on a path that does not resolve. *)
Definition unresolved (p : path) (w : world) : exn :=
  if stops_at_file (tree_of (fst p) w) (snd p)
  then NotADirectoryError p
  else FileNotFoundError p.

Definition write_path (p : path) (v : tree) (w : world) : world :=
  set_tree (fst p) (store (norm (snd p)) v (tree_of (fst p) w)) w.

(** [os.path.exists]. *)
Definition os_path_exists (p : path) : M bool :=
  fun w => (Ok (match lookup_path p w with Some _ => true | None => false end), w).

(** [os.path.isdir]. *)
Definition os_path_isdir (p : path) : M bool :=
  fun w => (Ok (match lookup_path p w with Some (Dir _) => true | _ => false end), w).

(** Creating the entry [p] (by [mkdir] or by [open] for writing) when
    nothing exists at [p]: the parent must be a directory. *)
Definition create_entry (p : path) (v : node) : M unit :=
  fun w =>
    match rev (snd p) with
    | [] => (Ok tt, set_tree (fst p) (Some v) w)
    | _ :: rhead =>
        match lookup_path (fst p, rev rhead) w with
        | Some (Dir _) => (Ok tt, write_path p (Some v) w)
        | Some (File _ _) => (Raise (NotADirectoryError p), w)
        | None =>
            (Raise (if stops_at_file (tree_of (fst p) w) (rev rhead)
                    then NotADirectoryError p else FileNotFoundError p), w)
        end
    end.

(** [os.mkdir]. *)
Definition os_mkdir (p : path) : M unit :=
  fun w =>
    match lookup_path p w with
    | Some _ => (Raise (FileExistsError p), w)
    | None => create_entry p (Dir []) w
    end.

(** [os.makedirs(name)] with [exist_ok=False], on the components of
    [name] in reverse order: [tail] is the last one and [rhead] the
    head. *)
Fixpoint makedirs_rev (r : top) (rp : list string) : M unit :=
  match rp with
  | [] => os_mkdir (r, [])
  | tail :: rhead =>
      e <- os_path_exists (r, rev rhead) ;;
      if negb e then
        except_file_exists (makedirs_rev r rhead) ;;
        if String.eqb tail curdir then ret tt
        else os_mkdir (r, rev rp)
      else os_mkdir (r, rev rp)
  end.

Definition os_makedirs (p : path) : M unit :=
  makedirs_rev (fst p) (rev (snd p)).

(** [open(p, 'rb')]: the permission bit and the bytes of the file. *)
Definition open_rb (p : path) : M (bool * list byte) :=
  fun w =>
    match lookup_path p w with
    | Some (File true data) => (Ok (true, data), w)
    | Some (File false _) => (Raise (PermissionError p), w)
    | Some (Dir _) => (Raise (IsADirectoryError p), w)
    | None => (Raise (unresolved p w), w)
    end.

(** [open(p, 'wb')] followed by the writes and by [copystat]: the file
    at [p] becomes [v]. *)
Definition open_wb (p : path) (v : node) : M unit :=
  fun w =>
    match lookup_path p w with
    | Some (Dir _) => (Raise (IsADirectoryError p), w)
    | Some (File _ _) => (Ok tt, write_path p (Some v) w)
    | None => create_entry p v w
    end.

(** [os.path.basename] of a path below a root. *)
Definition basename (p : path) : string := last (snd p) curdir.

(** [shutil.copy2(src, dst)]. *)
Definition shutil_copy2 (src dst : path) : M unit :=
  d <- os_path_isdir dst ;;
  let dst := if d then join dst (basename src) else dst in
  f <- open_rb src ;;
  open_wb dst (File (fst f) (snd f)).

(** [os.remove]. *)
Definition os_remove (p : path) : M unit :=
  fun w =>
    match lookup_path p w with
    | Some (File _ _) => (Ok tt, write_path p None w)
    | Some (Dir _) => (Raise (IsADirectoryError p), w)
    | None => (Raise (unresolved p w), w)
    end.

(** [shutil.rmtree]. *)
Definition shutil_rmtree (p : path) : M unit :=
  fun w =>
    match lookup_path p w with
    | Some (Dir _) => (Ok tt, write_path p None w)
    | Some (File _ _) => (Raise (NotADirectoryError p), w)
    | None => (Raise (unresolved p w), w)
    end.

(** An item of [os.walk]: [(root, dirs, files)]. *)
Abbreviation walk_item := (top * list string * list string * list string)%type (only parsing).

(** The items of [os.walk] on the directory [n] at [root].  A directory is
    listed when the walk reaches it; the loops of [sync] change nothing
    of a directory that is still to be listed or still to be yielded
    (the first loop writes under [dest] only, the second one deletes
    entries of the directory just yielded, whose subdirectories have all
    been yielded before it), so the items are those of the tree at the
    start of the loop.  Errors of the listing are ignored, as [os.walk]
    does without [onerror]. *)
Fixpoint walk_node (topdown : bool) (root : path) (n : node) : list walk_item :=
  match n with
  | File _ _ => []
  | Dir es =>
      let here := (root, dir_names es, file_names es) in
      let below :=
        (fix go (l : list (string * node)) : list walk_item :=
           match l with
           | [] => []
           | (x, c) :: l' => walk_node topdown (join root x) c ++ go l'
           end) es in
      if topdown then here :: below else below ++ [here]
  end.

Definition walk_tree (topdown : bool) (root : path) (t : tree) : list walk_item :=
  match t with
  | Some n => walk_node topdown root n
  | None => []
  end.

(** [os.walk(top, topdown)]. *)
Definition os_walk (topdown : bool) (top : path) : M (list walk_item) :=
  fun w => (Ok (walk_tree topdown top (lookup_path top w)), w).

(** [os.path.relpath(root, start)] for a [root] yielded by the walk of
    [start]. *)
Definition os_path_relpath (root : path) : relpath :=
  match snd root with
  | [] => [curdir]
  | _ => snd root
  end.

(* ================================================================= *)
(** * [backup.py] *)

Definition chunk_size : nat := 8192.

(** The loop of [calc_md5]: [rest] is what the file object has still to
    deliver, [fed] the bytes that [hash.update] has received so far (a
    hash object digests the concatenation of what it was fed). *)
Fixpoint read_loop (fuel : nat) (rest fed : list byte) : list byte :=
  match fuel with
  | O => fed
  | S k =>
      match firstn chunk_size rest with
      | [] => fed
      | chunk => read_loop k (skipn chunk_size rest) (fed ++ chunk)
      end
  end.

(** The digest [calc_md5] returns for a file of content [data]; the loop
    runs at most once per byte and once more for the empty chunk. *)
Definition md5_of (data : list byte) : string :=
  MD5.hexdigest (read_loop (S (List.length data)) data []).

Definition calc_md5 (filepath : path) : M (option string) :=
  except_file_not_found
    (f <- open_rb filepath ;;
     ret (Some (md5_of (snd f))))
    (ret None).

Definition log (msg : event) : M unit :=
  fun w => (Ok tt, World (source_tree w) (dest_tree w) (logfile w ++ [msg])).

Definition option_string_eqb (a b : option string) : bool :=
  match a, b with
  | Some x, Some y => String.eqb x y
  | None, None => true
  | _, _ => false
  end.

(** Lines 44-46 and 51-53. *)
Definition create_directory (d : path) : M unit :=
  e <- os_path_exists d ;;
  if negb e then os_makedirs d ;; log (CreatedDirectory d)
  else ret tt.

(** Lines 57-73. *)
Definition copy_or_replace (source_file dest_file : path) : M unit :=
  source_md5 <- calc_md5 source_file ;;
  e <- os_path_exists dest_file ;;
  dest_md5 <- (if e then calc_md5 dest_file else ret None) ;;
  if negb (option_string_eqb source_md5 dest_md5) then
    shutil_copy2 source_file dest_file ;;
    match dest_md5 with
    | None => log (CopiedNewFile source_file dest_file)
    | Some _ => log (UpdatedFile source_file dest_file)
    end
  else ret tt.

(** Lines 38-73, the body of the first loop. *)
Definition add_or_update (dest : top) (item : walk_item) : M unit :=
  let '(root, dirs, files) := item in
  let rel_source := os_path_relpath root in
  let dest_root := (dest, rel_source) in
  create_directory dest_root ;;
  for_each dirs (fun d => create_directory (join dest_root d)) ;;
  for_each files (fun file => copy_or_replace (join root file) (join dest_root file)).

(** Lines 82-87 and 90-95. *)
Definition delete_file (source_root root : path) (file : string) : M unit :=
  e <- os_path_exists (join source_root file) ;;
  if negb e then os_remove (join root file) ;; log (DeletedFile (join root file))
  else ret tt.

Definition delete_directory (source_root root : path) (d : string) : M unit :=
  e <- os_path_exists (join source_root d) ;;
  if negb e then shutil_rmtree (join root d) ;; log (DeletedDirectory (join root d))
  else ret tt.

(** Lines 76-95, the body of the second loop. *)
Definition delete_extra (source : top) (item : walk_item) : M unit :=
  let '(root, dirs, files) := item in
  let rel_path := os_path_relpath root in
  let source_root := (source, rel_path) in
  for_each files (delete_file source_root root) ;;
  for_each dirs (delete_directory source_root root).

(** Lines 38-73: add or update files from source to destination. *)
Definition first_loop (source dest : top) : M unit :=
  items <- os_walk true (source, []) ;;
  for_each items (add_or_update dest).

(** Lines 76-95: delete what is in the destination and not in source. *)
Definition second_loop (source dest : top) : M unit :=
  items <- os_walk false (dest, []) ;;
  for_each items (delete_extra source).

Definition sync (source dest : top) : M unit :=
  first_loop source dest ;;
  second_loop source dest.

(** One turn of the loop of [main], without the sleep. *)
Definition main_loop_body (source dest : top) : M unit :=
  fun w =>
    match sync source dest w with
    | (Ok _, w') => log SynchronizationCompleted w'
    | (Raise e, w') => (log (Error e) ;; log SynchronizationCompleted) w'
    end.


(* ================================================================= *)
(** * Well-formed trees *)

Fixpoint nodupb (l : list string) : bool :=
  match l with
  | [] => true
  | x :: r => negb (existsb (String.eqb x) r) && nodupb r
  end.

(** The names of a directory are distinct and none is ["."], in every
    directory of the tree. *)
Fixpoint wf_node (n : node) : bool :=
  match n with
  | File _ _ => true
  | Dir es =>
      nodupb (map fst es)
      && forallb (fun x => negb (String.eqb x curdir)) (map fst es)
      && (fix all (l : list (string * node)) : bool :=
            match l with
            | [] => true
            | (_, c) :: l' => wf_node c && all l'
            end) es
  end.

Definition wf_tree (t : tree) : bool :=
  match t with
  | Some n => wf_node n
  | None => true
  end.

Definition names_ok (p : relpath) : Prop := Forall (fun x => x <> curdir) p.

(** What a walk calls [rel_source] or [rel_path] for the directory at
    [R]. *)
Definition rel (R : relpath) : relpath :=
  match R with
  | [] => [curdir]
  | _ => R
  end.

(* ================================================================= *)
(** * The two loops of [sync], directory by directory

    The same steps as [add_or_update] and [delete_extra], written on the
    node [t] that the destination has at the directory being processed:
    what they return, the node afterwards and the lines they log. *)

Abbreviation outcome := (result unit * option node * list event)%type (only parsing).

Definition and_then (o : outcome) (k : tree -> outcome) : outcome :=
  match o with
  | (Ok _, t, evs) => let '(r, t', evs') := k t in (r, t', evs ++ evs')
  | (Raise e, t, evs) => (Raise e, t, evs)
  end.

Fixpoint each_at {X} (l : list X) (body : X -> tree -> outcome) (t : tree) : outcome :=
  match l with
  | [] => (Ok tt, t, [])
  | x :: r => and_then (body x t) (each_at r body)
  end.

(** The regular files of a listing, with their permission and bytes. *)
Fixpoint file_entries (es : list (string * node)) : list (string * bool * list byte) :=
  match es with
  | [] => []
  | (x, File r data) :: l => (x, r, data) :: file_entries l
  | (_, Dir _) :: l => file_entries l
  end.

Definition create_directory_at (dest_root : path) (d : string) (t : tree) : outcome :=
  match t with
  | Some (Dir ds) =>
      match assoc d ds with
      | Some _ => (Ok tt, t, [])
      | None => (Ok tt, Some (Dir (set_entry d (Dir []) ds)),
                 [CreatedDirectory (join dest_root d)])
      end
  | _ => (Raise (NotADirectoryError (join dest_root d)), t, [])
  end.

Definition copy_or_replace_at (root dest_root : path)
    (f : string * bool * list byte) (t : tree) : outcome :=
  let '(file, readable, data) := f in
  let source_file := join root file in
  let dest_file := join dest_root file in
  if negb readable then (Raise (PermissionError source_file), t, [])
  else
    match t with
    | Some (Dir ds) =>
        match assoc file ds with
        | Some (Dir _) => (Raise (IsADirectoryError dest_file), t, [])
        | Some (File false _) => (Raise (PermissionError dest_file), t, [])
        | Some (File true old) =>
            if String.eqb (md5_of data) (md5_of old) then (Ok tt, t, [])
            else (Ok tt, Some (Dir (set_entry file (File true data) ds)),
                  [UpdatedFile source_file dest_file])
        | None => (Ok tt, Some (Dir (set_entry file (File true data) ds)),
                   [CopiedNewFile source_file dest_file])
        end
    | _ => (Raise (NotADirectoryError dest_file), t, [])
    end.

(** The first loop on the source directory [s] at [R], the destination
    having [t] at [rel R] ([None]: nothing, in an existing parent). *)
Fixpoint mirror_node (R : relpath) (s : node) (t : tree) {struct s} : outcome :=
  match s with
  | File _ _ => (Ok tt, t, [])
  | Dir es =>
      let root := (TopSource, R) in
      let dest_root := (TopDest, rel R) in
      and_then
        match t with
        | None => (Ok tt, Some (Dir []), [CreatedDirectory dest_root])
        | Some _ => (Ok tt, t, [])
        end (fun t =>
      and_then (each_at (dir_names es) (create_directory_at dest_root) t) (fun t =>
      and_then (each_at (file_entries es) (copy_or_replace_at root dest_root) t) (fun t =>
      (fix below (l : list (string * node)) (t : tree) : outcome :=
         match l with
         | [] => (Ok tt, t, [])
         | (x, c) :: l' =>
             and_then
               match c with
               | File _ _ => (Ok tt, t, [])
               | Dir _ =>
                   let '(r, c', evs) := mirror_node (R ++ [x]) c (child t x) in
                   (r, store [x] c' t, evs)
               end
               (below l')
         end) es t)))
  end.

(** The first loop from the top: [T] is what [dest] refers to, and
    ["dest/."] exists when [T] is a directory. *)
Definition mirror_top (s T : tree) : outcome :=
  match s with
  | Some (Dir es) =>
      match T with
      | Some (File _ _) => (Raise (NotADirectoryError (TopDest, [curdir])), T, [])
      | _ => mirror_node [] (Dir es) T
      end
  | _ => (Ok tt, T, [])
  end.

Definition delete_file_at (root : path) (sv : tree) (file : string) (t : tree) : outcome :=
  match child sv file with
  | Some _ => (Ok tt, t, [])
  | None =>
      match t with
      | Some (Dir ds) =>
          match assoc file ds with
          | Some (File _ _) =>
              (Ok tt, Some (Dir (del_entry file ds)), [DeletedFile (join root file)])
          | Some (Dir _) => (Raise (IsADirectoryError (join root file)), t, [])
          | None => (Raise (FileNotFoundError (join root file)), t, [])
          end
      | _ => (Raise (NotADirectoryError (join root file)), t, [])
      end
  end.

Definition delete_directory_at (root : path) (sv : tree) (d : string) (t : tree) : outcome :=
  match child sv d with
  | Some _ => (Ok tt, t, [])
  | None =>
      match t with
      | Some (Dir ds) =>
          match assoc d ds with
          | Some (Dir _) =>
              (Ok tt, Some (Dir (del_entry d ds)), [DeletedDirectory (join root d)])
          | Some (File _ _) => (Raise (NotADirectoryError (join root d)), t, [])
          | None => (Raise (FileNotFoundError (join root d)), t, [])
          end
      | _ => (Raise (NotADirectoryError (join root d)), t, [])
      end
  end.

(** The second loop on the destination directory [d] at [R], the source
    having [sv] at [rel R]. *)
Fixpoint prune_node (R : relpath) (d : node) (sv : tree) {struct d} : outcome :=
  match d with
  | File _ _ => (Ok tt, Some d, [])
  | Dir ds =>
      let root := (TopDest, R) in
      and_then
        ((fix below (l : list (string * node)) (t : tree) : outcome :=
            match l with
            | [] => (Ok tt, t, [])
            | (x, c) :: l' =>
                and_then
                  match c with
                  | File _ _ => (Ok tt, t, [])
                  | Dir _ =>
                      let '(r, c', evs) := prune_node (R ++ [x]) c (child sv x) in
                      (r, store [x] c' t, evs)
                  end
                  (below l')
            end) ds (Some d)) (fun t =>
      and_then (each_at (file_names ds) (delete_file_at root sv) t) (fun t =>
      each_at (dir_names ds) (delete_directory_at root sv) t))
  end.

Definition prune_top (s T : tree) : outcome :=
  match T with
  | Some (Dir ds) => prune_node [] (Dir ds) (lookup s [curdir])
  | _ => (Ok tt, T, [])
  end.

Definition sync_tree (s T : tree) : outcome :=
  and_then (mirror_top s T) (prune_top s).

(** The world after an [outcome] at the directory [R] of the
    destination. *)
Definition lifted (R : relpath) (o : outcome) (w : world) : result unit * world :=
  let '(r, t, evs) := o in
  (r, World (source_tree w) (store R t (dest_tree w)) (logfile w ++ evs)).

(** The items of the subdirectories among the entries [l] of [root]. *)
Fixpoint walk_below (topdown : bool) (root : path) (l : list (string * node))
  : list walk_item :=
  match l with
  | [] => []
  | (x, c) :: l' => walk_node topdown (join root x) c ++ walk_below topdown root l'
  end.

(** The first loop in the subdirectories among the entries [l] of the
    source directory at [R]. *)
Fixpoint mirror_below (R : relpath) (l : list (string * node)) (t : tree) : outcome :=
  match l with
  | [] => (Ok tt, t, [])
  | (x, c) :: l' =>
      and_then
        match c with
        | File _ _ => (Ok tt, t, [])
        | Dir _ =>
            let '(r, c', evs) := mirror_node (R ++ [x]) c (child t x) in
            (r, store [x] c' t, evs)
        end
        (mirror_below R l')
  end.

(** The second loop in the subdirectories among the entries [l] of the
    destination directory at [R]. *)
Fixpoint prune_below (R : relpath) (sv : tree) (l : list (string * node)) (t : tree)
  : outcome :=
  match l with
  | [] => (Ok tt, t, [])
  | (x, c) :: l' =>
      and_then
        match c with
        | File _ _ => (Ok tt, t, [])
        | Dir _ =>
            let '(r, c', evs) := prune_node (R ++ [x]) c (child sv x) in
            (r, store [x] c' t, evs)
        end
        (prune_below R sv l')
  end.

(* ================================================================= *)
(** * What the second loop leaves and logs *)

Definition present (sv : option node) (x : string) : bool :=
  match child sv x with
  | Some _ => true
  | None => false
  end.

(** The directory [d] of the destination once the entries without a
    counterpart in [sv] are deleted, at every depth. *)
Fixpoint pruned (sv : option node) (d : node) : node :=
  match d with
  | File _ _ => d
  | Dir ds =>
      Dir (filter (fun e => present sv (fst e))
             (map (fun e => (fst e, pruned (child sv (fst e)) (snd e))) ds))
  end.

(** The lines of the second loop on [d] at [R]: those of the
    subdirectories, then the files deleted from [d], then the directories
    deleted from [d]. *)
Fixpoint prune_events (R : list string) (sv : option node) (d : node) : list event :=
  match d with
  | File _ _ => []
  | Dir ds =>
      flat_map (fun e => prune_events (R ++ [fst e]) (child sv (fst e)) (snd e)) ds
      ++ map (fun f => DeletedFile (join (TopDest, R) f))
             (filter (fun f => negb (present sv f)) (file_names ds))
      ++ map (fun f => DeletedDirectory (join (TopDest, R) f))
             (filter (fun f => negb (present sv f)) (dir_names ds))
  end.

(** Log lines of a deletion. *)
Definition is_deletion (e : event) : bool :=
  match e with
  | DeletedFile _ | DeletedDirectory _ => true
  | _ => false
  end.

(** What the destination refers to once everything under it is deleted. *)
Definition emptied (T : option node) : option node :=
  match T with
  | Some (Dir _) => Some (Dir [])
  | _ => T
  end.

Definition is_directory (t : option node) : bool :=
  match t with
  | Some (Dir _) => true
  | _ => false
  end.

Definition top_eq_dec (a b : top) : {a = b} + {a <> b}.
Proof. decide equality. Defined.

Definition path_eq_dec (a b : top * list string) : {a = b} + {a <> b}.
Proof. decide equality; [apply (list_eq_dec string_dec)|apply top_eq_dec]. Defined.

Definition exn_eq_dec (a b : exn) : {a = b} + {a <> b}.
Proof. decide equality; apply path_eq_dec. Defined.

Definition event_eq_dec (a b : event) : {a = b} + {a <> b}.
Proof. decide equality; first [apply path_eq_dec|apply exn_eq_dec]. Defined.

(** A readable file. *)
Definition txt (s : string) : node := File true (bytes_of_string s).

(* ================================================================= *)
(** * A destination on which the first loop has nothing to do *)

(** Every file of the source directory [s] has, at the same place under
    the directory [t], a readable file with its MD5 digest, and every
    subdirectory has an entry that is settled in turn. *)
Fixpoint settled (s : node) (t : node) : Prop :=
  match s with
  | File _ _ => True
  | Dir es =>
      (fix all (l : list (string * node)) : Prop :=
         match l with
         | [] => True
         | (x, c) :: l' =>
             match t with
             | Dir ds =>
                 match c with
                 | File r data =>
                     r = true
                     /\ exists old, assoc x ds = Some (File true old)
                                    /\ md5_of data = md5_of old
                 | Dir _ => exists c0, assoc x ds = Some c0 /\ settled c c0
                 end
             | File _ _ => False
             end
             /\ all l'
         end) es
  end.

(** The entry [c] of the source under the name [x] is settled in the
    destination directory [t]. *)
Definition placed (x : string) (c : node) (t : option node) : Prop :=
  exists ds, t = Some (Dir ds)
    /\ match c with
       | File r data =>
           r = true
           /\ exists old, assoc x ds = Some (File true old)
                          /\ md5_of data = md5_of old
       | Dir _ => exists c0, assoc x ds = Some c0 /\ settled c c0
       end.

(* ================================================================= *)
(** * Two contents with one digest *)

(** Two 128-byte contents that differ in six bytes and have the same MD5
    digest, 79054025255fb1a26e4bc422aef54eb4. *)
Definition block_a : list byte :=
  [xd1; x31; xdd; x02; xc5; xe6; xee; xc4; x69; x3d; x9a; x06;
   x98; xaf; xf9; x5c; x2f; xca; xb5; x87; x12; x46; x7e; xab;
   x40; x04; x58; x3e; xb8; xfb; x7f; x89; x55; xad; x34; x06;
   x09; xf4; xb3; x02; x83; xe4; x88; x83; x25; x71; x41; x5a;
   x08; x51; x25; xe8; xf7; xcd; xc9; x9f; xd9; x1d; xbd; xf2;
   x80; x37; x3c; x5b; xd8; x82; x3e; x31; x56; x34; x8f; x5b;
   xae; x6d; xac; xd4; x36; xc9; x19; xc6; xdd; x53; xe2; xb4;
   x87; xda; x03; xfd; x02; x39; x63; x06; xd2; x48; xcd; xa0;
   xe9; x9f; x33; x42; x0f; x57; x7e; xe8; xce; x54; xb6; x70;
   x80; xa8; x0d; x1e; xc6; x98; x21; xbc; xb6; xa8; x83; x93;
   x96; xf9; x65; x2b; x6f; xf7; x2a; x70]%byte.

Definition block_b : list byte :=
  [xd1; x31; xdd; x02; xc5; xe6; xee; xc4; x69; x3d; x9a; x06;
   x98; xaf; xf9; x5c; x2f; xca; xb5; x07; x12; x46; x7e; xab;
   x40; x04; x58; x3e; xb8; xfb; x7f; x89; x55; xad; x34; x06;
   x09; xf4; xb3; x02; x83; xe4; x88; x83; x25; xf1; x41; x5a;
   x08; x51; x25; xe8; xf7; xcd; xc9; x9f; xd9; x1d; xbd; x72;
   x80; x37; x3c; x5b; xd8; x82; x3e; x31; x56; x34; x8f; x5b;
   xae; x6d; xac; xd4; x36; xc9; x19; xc6; xdd; x53; xe2; x34;
   x87; xda; x03; xfd; x02; x39; x63; x06; xd2; x48; xcd; xa0;
   xe9; x9f; x33; x42; x0f; x57; x7e; xe8; xce; x54; xb6; x70;
   x80; x28; x0d; x1e; xc6; x98; x21; xbc; xb6; xa8; x83; x93;
   x96; xf9; x65; xab; x6f; xf7; x2a; x70]%byte.

(* ================================================================= *)
(** * Predicates of the proofs *)

(** [P] is how [sync] writes the directory [R]: [R] itself, or ["."] for
    the top. *)
Definition shows (R P : relpath) : Prop := P = R \/ (R = [] /\ P = [curdir]).

(** An entry of a well-formed directory: its name is not ["."] and its
    node is well formed. *)
Definition wf_entry (e : string * node) : Prop :=
  fst e <> curdir /\ wf_node (snd e) = true.

(** The outcome leaves a node of the same kind as [t0], where every
    entry of [t0] still exists. *)
Definition extends (t0 : node) (o : outcome) : Prop :=
  exists r t1 evs, o = (r, Some t1, evs) /\ is_dir t1 = is_dir t0
    /\ forall y, child (Some t0) y <> None -> child (Some t1) y <> None.

(** The first loop over the walk of the source directory [c] at [R] is
    [mirror_node]. *)
Definition mirror_refines_at (c : node) : Prop :=
  forall R w t,
    wf_node c = true -> names_ok R ->
    lookup (source_tree w) R = Some c ->
    lookup (dest_tree w) (rel R) = t ->
    (t = None -> R = [] /\ dest_tree w = None) ->
    for_each (walk_node true (TopSource, R) c) (add_or_update TopDest) w
    = lifted R (mirror_node R c t) w.

(** The outcome leaves a directory. *)
Definition stays_dir (o : outcome) : Prop :=
  exists r ds evs, o = (r, Some (Dir ds), evs).

(** The second loop over the walk of the destination directory [d] at [R]
    is [prune_node]. *)
Definition prune_refines_at (d : node) : Prop :=
  forall R w,
    wf_node d = true -> names_ok R ->
    lookup (dest_tree w) R = Some d ->
    for_each (walk_node false (TopDest, R) d) (delete_extra TopSource) w
    = lifted R (prune_node R d (lookup (source_tree w) (rel R))) w.

(** The node of the outcome is well formed. *)
Definition keeps_wf (o : outcome) : Prop := wf_tree (snd (fst o)) = true.

(** The computation leaves the source tree as it is. *)
Definition keeps_source {A} (c : M A) : Prop :=
  forall w, source_tree (snd (c w)) = source_tree w.

(** An entry with its node pruned against its counterpart in [sv]. *)
Definition prune_entry (sv : option node) (e : string * node) : string * node :=
  (fst e, pruned (child sv (fst e)) (snd e)).

(** The second loop on [d] returns, leaves [pruned] and logs
    [prune_events]. *)
Definition prune_closed_at (d : node) : Prop :=
  forall R sv, wf_node d = true ->
    prune_node R d sv = (Ok tt, Some (pruned sv d), prune_events R sv d).

(** The outcome is an exception. *)
Definition raises (o : outcome) : Prop :=
  exists e t evs, o = (Raise e, t, evs).

(** The destination directory has the entry [c0] under the name [x]. *)
Definition has_entry (x : string) (c0 : node) (t : option node) : Prop :=
  exists ds, t = Some (Dir ds) /\ assoc x ds = Some c0.

(** A first loop that returns leaves a destination settled for [s]. *)
Definition mirror_settles_at (s : node) : Prop :=
  forall R t t1 evs, wf_node s = true ->
    mirror_node R s t = (Ok tt, Some t1, evs) -> settled s t1.

(** A file that the first loop leaves was there before, or has the bytes
    of the file of [s] at the same path. *)
Definition file_origin_at (s : node) : Prop :=
  forall R t r t' e p b old,
    wf_node s = true -> names_ok p ->
    mirror_node R s t = (r, t', e) ->
    lookup t' p = Some (File b old) ->
    lookup t p = Some (File b old)
    \/ exists rb, lookup (Some s) p = Some (File rb old).

(* ================================================================= *)
(** * Conditions on the source *)

(** Every file of the tree can be read. *)
Fixpoint readable (n : node) : bool :=
  match n with
  | File r _ => r
  | Dir es =>
      (fix all (l : list (string * node)) : bool :=
         match l with
         | [] => true
         | (_, c) :: l' => readable c && all l'
         end) es
  end.

Definition readable_tree (t : tree) : bool :=
  match t with
  | Some n => readable n
  | None => true
  end.

(** The kind of an entry is kept from [u] to [u'], at every path. *)
Definition keeps_entries (u u' : tree) : Prop :=
  forall p n, names_ok p -> lookup u p = Some n ->
    exists n', lookup u' p = Some n' /\ is_dir n' = is_dir n.

(** Log lines of a creation or of a copy. *)
Definition is_addition (e : event) : bool :=
  match e with
  | CreatedDirectory _ | CopiedNewFile _ _ | UpdatedFile _ _ => true
  | _ => false
  end.

(* ================================================================= *)
(** * When the first loop goes through *)

(** Whether the outcome is a return. *)
Definition returns (o : outcome) : bool :=
  match o with
  | (Ok _, _, _) => true
  | (Raise _, _, _) => false
  end.

(** What the destination may have at the path of a source file: nothing,
    or a regular file that can be read. *)
Definition replaceable (t : tree) : bool :=
  match t with
  | None | Some (File true _) => true
  | _ => false
  end.

(** The destination [t] lets the first loop go through the source
    directory [s]: every file of [s] can be read and has nothing or a
    readable regular file at its place in [t]; every directory of [s] has
    at its place in [t] nothing, a directory that is compatible in turn,
    or, when it is empty, a regular file. *)
Fixpoint compatible (s : node) (t : tree) : bool :=
  match s with
  | File _ _ => true
  | Dir es =>
      match t with
      | Some (File _ _) => match es with [] => true | _ :: _ => false end
      | _ =>
          (fix all (l : list (string * node)) : bool :=
             match l with
             | [] => true
             | (x, c) :: l' =>
                 match c with
                 | File r _ => r && replaceable (child t x)
                 | Dir _ => compatible c (child t x)
                 end && all l'
             end) es
      end
  end.

(** The same from the top: a destination root that is a regular file
    stops the first loop of a source directory at once. *)
Definition compatible_top (s T : tree) : bool :=
  match s with
  | Some (Dir es) =>
      match T with
      | Some (File _ _) => false
      | _ => compatible (Dir es) T
      end
  | _ => true
  end.

Definition entry_compatible (t : tree) (e : string * node) : bool :=
  match snd e with
  | File r _ => r && replaceable (child t (fst e))
  | Dir _ => compatible (snd e) (child t (fst e))
  end.

Definition file_compatible (ds : list (string * node))
    (f : string * bool * list byte) : bool :=
  snd (fst f) && replaceable (assoc (fst (fst f)) ds).

Definition dir_compatible (ds : list (string * node)) (e : string * node) : bool :=
  match snd e with
  | File _ _ => true
  | Dir _ => compatible (snd e) (assoc (fst e) ds)
  end.

(** The entry, or the empty directory that the first loop creates where
    there is none. *)
Definition or_empty_dir (c : tree) : tree :=
  match c with
  | Some _ => c
  | None => Some (Dir [])
  end.

(* ================================================================= *)
(** * [main] *)

(** Lines 111-113: create the destination if it does not exist. *)
Definition ensure_dest (dest : top) : M unit :=
  e <- os_path_exists (dest, []) ;;
  if negb e then os_makedirs (dest, []) else ret tt.

(** The first [n] turns of the loop of lines 120-126; the sleep changes
    nothing of the world. *)
Fixpoint main_loop (n : nat) (source dest : top) : M unit :=
  match n with
  | O => ret tt
  | S k => main_loop_body source dest ;; main_loop k source dest
  end.

(** Log lines of an exception. *)
Definition is_error (e : event) : bool :=
  match e with
  | Error _ => true
  | _ => false
  end.

(* ================================================================= *)
(** * What the first loop logs when it returns *)

(** The line of the step of the source file [f], the destination
    directory being [t]. *)
Definition file_event (root dest_root : path) (t : tree)
    (f : string * bool * list byte) : list event :=
  match child t (fst (fst f)) with
  | None => [CopiedNewFile (join root (fst (fst f))) (join dest_root (fst (fst f)))]
  | Some (File true old) =>
      if String.eqb (md5_of (snd f)) (md5_of old) then []
      else [UpdatedFile (join root (fst (fst f))) (join dest_root (fst (fst f)))]
  | _ => []
  end.

(** The lines of a first loop that returns, on the source directory [s]
    at [R] with [t] at its place in the destination: the creation of the
    directory itself when the destination has nothing there, of the
    subdirectories that the destination lacks, the lines of the files,
    then the lines of the subdirectories, each of which exists by then. *)
Fixpoint mirror_events (R : relpath) (s : node) (t : tree) : list event :=
  match s with
  | File _ _ => []
  | Dir es =>
      match t with
      | None => [CreatedDirectory (TopDest, rel R)]
      | Some _ => []
      end
      ++ map (fun d => CreatedDirectory (join (TopDest, rel R) d))
             (filter (fun d => negb (present t d)) (dir_names es))
      ++ flat_map (file_event (TopSource, R) (TopDest, rel R) t) (file_entries es)
      ++ flat_map (fun e => mirror_events (R ++ [fst e]) (snd e)
                              (or_empty_dir (child t (fst e)))) es
  end.

Definition mirror_top_events (s T : tree) : list event :=
  match s with
  | Some (Dir es) => mirror_events [] (Dir es) T
  | _ => []
  end.

(* ================================================================= *)
(** * The source and the destination in one file system *)

(** [p] is [q] or an ancestor of [q]. *)
Definition prefix (p q : list string) : Prop := exists r, q = p ++ r.

(** Neither of the two paths is the other or lies inside it. *)
Definition separate (p q : list string) : Prop := ~ prefix p q /\ ~ prefix q p.

(** The path [p], without its ["."] components, is neither [S], nor above
    it, nor inside it. *)
Definition apart (S p : list string) : Prop :=
  ~ prefix (norm p) S /\ ~ prefix S (norm p).

(** In [world] the source and the destination are two trees, which is
    what two paths are when neither lies inside the other.  Here the two
    arguments of [sync] are paths of one tree, the one of the working
    directory, so that either may be the other or lie inside it.  A path
    is the list of its components; what [sync] writes under one path is
    seen under the other, and a walk lists a directory at the moment it
    reaches it, as [os.walk] does, so that it meets what the body of the
    loop has written by then.  The tree holds regular files and
    directories, no links; the log is kept outside of it. *)
Module Shared.

Inductive exn : Type :=
| FileNotFoundError (p : list string)
| PermissionError (p : list string)
| IsADirectoryError (p : list string)
| NotADirectoryError (p : list string)
| FileExistsError (p : list string).

(** The messages [sync] passes to [log]. *)
Inductive event : Type :=
| CreatedDirectory (d : list string)
| CopiedNewFile (src dst : list string)
| UpdatedFile (src dst : list string)
| DeletedFile (f : list string)
| DeletedDirectory (d : list string).

Record world : Type := World {
  fs : tree;
  logfile : list event
}.

(** [Unfinished]: a walk went deeper than its bound. *)
Inductive result (A : Type) : Type :=
| Ok (a : A)
| Raise (e : exn)
| Unfinished.
Arguments Ok {A} a.
Arguments Raise {A} e.
Arguments Unfinished {A}.

Definition M (A : Type) : Type := world -> result A * world.

Definition ret {A} (a : A) : M A := fun w => (Ok a, w).
Definition bind {A B} (c : M A) (k : A -> M B) : M B :=
  fun w =>
    match c w with
    | (Ok a, w') => k a w'
    | (Raise e, w') => (Raise e, w')
    | (Unfinished, w') => (Unfinished, w')
    end.

Declare Scope shared_scope.
Notation "x <- c ;; k" := (bind c (fun x => k))
  (at level 61, c at next level, right associativity) : shared_scope.
Notation "c ;; k" := (bind c (fun _ => k))
  (at level 61, right associativity) : shared_scope.
Local Open Scope shared_scope.

Fixpoint for_each {X} (l : list X) (body : X -> M unit) : M unit :=
  match l with
  | [] => ret tt
  | x :: r => body x ;; for_each r body
  end.

(** [try: c / except FileNotFoundError: h]. *)
Definition except_file_not_found {A} (c : M A) (h : M A) : M A :=
  fun w =>
    match c w with
    | (Raise (FileNotFoundError _), w') => h w'
    | r => r
    end.

(** [try: c / except FileExistsError: pass]. *)
Definition except_file_exists (c : M unit) : M unit :=
  fun w =>
    match c w with
    | (Raise (FileExistsError _), w') => (Ok tt, w')
    | r => r
    end.

(** [os.path.join]. *)
Definition join_rel (p r : list string) : list string := p ++ r.
Definition join (p : list string) (x : string) : list string := join_rel p [x].

(** What the path [p] refers to; the empty list is the empty string,
    which refers to nothing. *)
Definition lookup_path (p : list string) (w : world) : tree :=
  match p with
  | [] => None
  | _ :: _ => lookup (fs w) p
  end.

(** The exception of a call on a path that does not resolve. *)
Definition unresolved (p : list string) (w : world) : exn :=
  if stops_at_file (fs w) p then NotADirectoryError p else FileNotFoundError p.

Definition write_path (p : list string) (v : tree) (w : world) : world :=
  World (store (norm p) v (fs w)) (logfile w).

(** [os.path.exists]. *)
Definition os_path_exists (p : list string) : M bool :=
  fun w => (Ok (match lookup_path p w with Some _ => true | None => false end), w).

(** [os.path.isdir]. *)
Definition os_path_isdir (p : list string) : M bool :=
  fun w => (Ok (match lookup_path p w with Some (Dir _) => true | _ => false end), w).

(** Creating the entry [p] (by [mkdir] or by [open] for writing) when
    nothing exists at [p]: the parent, which is the working directory
    for a path of one component, must be a directory. *)
Definition create_entry (p : list string) (v : node) : M unit :=
  fun w =>
    match rev p with
    | [] => (Raise (FileNotFoundError p), w)
    | _ :: rhead =>
        match lookup (fs w) (rev rhead) with
        | Some (Dir _) => (Ok tt, write_path p (Some v) w)
        | Some (File _ _) => (Raise (NotADirectoryError p), w)
        | None =>
            (Raise (if stops_at_file (fs w) (rev rhead)
                    then NotADirectoryError p else FileNotFoundError p), w)
        end
    end.

(** [os.mkdir]. *)
Definition os_mkdir (p : list string) : M unit :=
  fun w =>
    match lookup_path p w with
    | Some _ => (Raise (FileExistsError p), w)
    | None => create_entry p (Dir []) w
    end.

(** [os.makedirs(name)] with [exist_ok=False], on the components of
    [name] in reverse order: [tail] is the last one and [rhead] the
    head, which is created first when it is not empty and does not
    exist. *)
Fixpoint makedirs_rev (rp : list string) : M unit :=
  match rp with
  | [] => os_mkdir []
  | tail :: rhead =>
      match rhead with
      | [] => os_mkdir (rev rp)
      | _ :: _ =>
          e <- os_path_exists (rev rhead) ;;
          if negb e then
            except_file_exists (makedirs_rev rhead) ;;
            if String.eqb tail curdir then ret tt
            else os_mkdir (rev rp)
          else os_mkdir (rev rp)
      end
  end.

Definition os_makedirs (p : list string) : M unit := makedirs_rev (rev p).

(** [open(p, 'rb')]: the permission bit and the bytes of the file. *)
Definition open_rb (p : list string) : M (bool * list byte) :=
  fun w =>
    match lookup_path p w with
    | Some (File true data) => (Ok (true, data), w)
    | Some (File false _) => (Raise (PermissionError p), w)
    | Some (Dir _) => (Raise (IsADirectoryError p), w)
    | None => (Raise (unresolved p w), w)
    end.

(** [open(p, 'wb')] followed by the writes and by [copystat]: the file
    at [p] becomes [v]. *)
Definition open_wb (p : list string) (v : node) : M unit :=
  fun w =>
    match lookup_path p w with
    | Some (Dir _) => (Raise (IsADirectoryError p), w)
    | Some (File _ _) => (Ok tt, write_path p (Some v) w)
    | None => create_entry p v w
    end.

(** [os.path.basename]. *)
Definition basename (p : list string) : string := last p curdir.

(** [shutil.copy2(src, dst)]. *)
Definition shutil_copy2 (src dst : list string) : M unit :=
  d <- os_path_isdir dst ;;
  let dst := if d then join dst (basename src) else dst in
  f <- open_rb src ;;
  open_wb dst (File (fst f) (snd f)).

(** [os.remove]. *)
Definition os_remove (p : list string) : M unit :=
  fun w =>
    match lookup_path p w with
    | Some (File _ _) => (Ok tt, write_path p None w)
    | Some (Dir _) => (Raise (IsADirectoryError p), w)
    | None => (Raise (unresolved p w), w)
    end.

(** [shutil.rmtree]. *)
Definition shutil_rmtree (p : list string) : M unit :=
  fun w =>
    match lookup_path p w with
    | Some (Dir _) => (Ok tt, write_path p None w)
    | Some (File _ _) => (Raise (NotADirectoryError p), w)
    | None => (Raise (unresolved p w), w)
    end.

(** [for root, dirs, files in os.walk(top, topdown): body].  The walk
    lists [top] when it reaches it, in the world of that moment, and
    ignores what it cannot list; top-down it yields the item, the body
    runs, and the walk goes on into the subdirectories it has listed;
    bottom-up the subdirectories come first.  [fuel] bounds the depth. *)
Fixpoint walk (fuel : nat) (topdown : bool) (top : list string)
    (body : list string * list string * list string -> M unit) : M unit :=
  match fuel with
  | O => fun w => (Unfinished, w)
  | S k =>
      fun w =>
        match lookup_path top w with
        | Some (Dir es) =>
            let dirs := dir_names es in
            let files := file_names es in
            let below := for_each dirs (fun d => walk k topdown (join top d) body) in
            if topdown then (body (top, dirs, files) ;; below) w
            else (below ;; body (top, dirs, files)) w
        | _ => (Ok tt, w)
        end
  end.

(** [os.path.relpath(root, start)] for a [root] yielded by the walk of
    [start]: what [root] has after [start], ["."] when that is
    nothing. *)
Definition os_path_relpath (root start : list string) : list string :=
  match skipn (List.length start) root with
  | [] => [curdir]
  | r => r
  end.

Definition calc_md5 (filepath : list string) : M (option string) :=
  except_file_not_found
    (f <- open_rb filepath ;;
     ret (Some (md5_of (snd f))))
    (ret None).

Definition log (msg : event) : M unit :=
  fun w => (Ok tt, World (fs w) (logfile w ++ [msg])).

(** Lines 44-46 and 51-53. *)
Definition create_directory (d : list string) : M unit :=
  e <- os_path_exists d ;;
  if negb e then os_makedirs d ;; log (CreatedDirectory d)
  else ret tt.

(** Lines 57-73. *)
Definition copy_or_replace (source_file dest_file : list string) : M unit :=
  source_md5 <- calc_md5 source_file ;;
  e <- os_path_exists dest_file ;;
  dest_md5 <- (if e then calc_md5 dest_file else ret None) ;;
  if negb (option_string_eqb source_md5 dest_md5) then
    shutil_copy2 source_file dest_file ;;
    match dest_md5 with
    | None => log (CopiedNewFile source_file dest_file)
    | Some _ => log (UpdatedFile source_file dest_file)
    end
  else ret tt.

(** Lines 39-73, the body of the first loop. *)
Definition add_or_update (source dest : list string)
    (item : list string * list string * list string) : M unit :=
  let '(root, dirs, files) := item in
  let rel_source := os_path_relpath root source in
  let dest_root := join_rel dest rel_source in
  create_directory dest_root ;;
  for_each dirs (fun d => create_directory (join dest_root d)) ;;
  for_each files (fun file => copy_or_replace (join root file) (join dest_root file)).

(** Lines 82-87 and 90-95. *)
Definition delete_file (source_root root : list string) (file : string) : M unit :=
  e <- os_path_exists (join source_root file) ;;
  if negb e then os_remove (join root file) ;; log (DeletedFile (join root file))
  else ret tt.

Definition delete_directory (source_root root : list string) (d : string) : M unit :=
  e <- os_path_exists (join source_root d) ;;
  if negb e then shutil_rmtree (join root d) ;; log (DeletedDirectory (join root d))
  else ret tt.

(** Lines 77-95, the body of the second loop. *)
Definition delete_extra (source dest : list string)
    (item : list string * list string * list string) : M unit :=
  let '(root, dirs, files) := item in
  let rel_path := os_path_relpath root dest in
  let source_root := join_rel source rel_path in
  for_each files (delete_file source_root root) ;;
  for_each dirs (delete_directory source_root root).

(** Lines 38-73: add or update files from source to destination. *)
Definition first_loop (fuel : nat) (source dest : list string) : M unit :=
  walk fuel true source (add_or_update source dest).

(** Lines 76-95: delete what is in the destination and not in source. *)
Definition second_loop (fuel : nat) (source dest : list string) : M unit :=
  walk fuel false dest (delete_extra source dest).

Definition sync (fuel : nat) (source dest : list string) : M unit :=
  first_loop fuel source dest ;;
  second_loop fuel source dest.

(** The computation leaves what the path [S] refers to as it is. *)
Definition keeps {A} (S : list string) (c : M A) : Prop :=
  forall w, lookup (fs (snd (c w))) S = lookup (fs w) S.

End Shared.
(* ================================================================= *)
(** * Entries of a directory *)

Section Entries.

Implicit Types (x y : string) (es : list (string * node)).

Lemma assoc_set_entry_same x v es : assoc x (set_entry x v es) = Some v.
Proof.
  induction es as [|[y n] r IH]; simpl.
  - now rewrite String.eqb_refl.
  - destruct (String.eqb_spec x y) as [->|Hne]; simpl.
    + now rewrite String.eqb_refl.
    + destruct (String.eqb_spec x y); [contradiction|exact IH].
Qed.

Lemma assoc_set_entry_other x y v es :
  x <> y -> assoc y (set_entry x v es) = assoc y es.
Proof.
  intros Hxy; induction es as [|[z n] r IH]; simpl.
  - destruct (String.eqb_spec y x); [congruence|reflexivity].
  - destruct (String.eqb_spec x z) as [->|Hne]; simpl.
    + destruct (String.eqb_spec y z); [congruence|reflexivity].
    + destruct (String.eqb_spec y z); [reflexivity|exact IH].
Qed.

Lemma assoc_del_entry_same x es : assoc x (del_entry x es) = None.
Proof.
  induction es as [|[y n] r IH]; simpl; [reflexivity|].
  destruct (String.eqb_spec x y) as [->|Hne]; simpl; [exact IH|].
  destruct (String.eqb_spec x y); [contradiction|exact IH].
Qed.

Lemma assoc_del_entry_other x y es :
  x <> y -> assoc y (del_entry x es) = assoc y es.
Proof.
  intros Hxy; induction es as [|[z n] r IH]; simpl; [reflexivity|].
  destruct (String.eqb_spec x z) as [->|Hne]; simpl.
  - destruct (String.eqb_spec y z); [congruence|exact IH].
  - destruct (String.eqb_spec y z); [reflexivity|exact IH].
Qed.

Lemma del_entry_absent x es : assoc x es = None -> del_entry x es = es.
Proof.
  induction es as [|[y n] r IH]; simpl; [reflexivity|].
  destruct (String.eqb_spec x y) as [->|Hne]; simpl; [discriminate|].
  intros H; now rewrite (IH H).
Qed.

Lemma set_entry_twice x v1 v2 es :
  set_entry x v2 (set_entry x v1 es) = set_entry x v2 es.
Proof.
  induction es as [|[y n] r IH]; simpl.
  - now rewrite String.eqb_refl.
  - destruct (String.eqb_spec x y) as [->|Hne]; simpl.
    + now rewrite String.eqb_refl.
    + destruct (String.eqb_spec x y); [contradiction|now rewrite IH].
Qed.

Lemma del_entry_set_entry x v es :
  del_entry x (set_entry x v es) = del_entry x es.
Proof.
  induction es as [|[y n] r IH]; simpl.
  - now rewrite String.eqb_refl.
  - destruct (String.eqb_spec x y) as [->|Hne]; simpl.
    + now rewrite String.eqb_refl.
    + destruct (String.eqb_spec x y); [contradiction|simpl; now rewrite IH].
Qed.

Lemma del_entry_twice x es : del_entry x (del_entry x es) = del_entry x es.
Proof.
  apply del_entry_absent, assoc_del_entry_same.
Qed.

Lemma bind_entry_set_entry x n v es :
  bind_entry x v (set_entry x n es) = bind_entry x v es.
Proof.
  destruct v; simpl; [apply set_entry_twice|apply del_entry_set_entry].
Qed.

Lemma assoc_bind_entry_same x v es : assoc x (bind_entry x v es) = v.
Proof.
  destruct v; simpl; [apply assoc_set_entry_same|apply assoc_del_entry_same].
Qed.

Lemma assoc_bind_entry_other x y v es :
  x <> y -> assoc y (bind_entry x v es) = assoc y es.
Proof.
  destruct v; simpl; [apply assoc_set_entry_other|apply assoc_del_entry_other].
Qed.

End Entries.

(* ================================================================= *)
(** * Resolution and update of paths *)

Lemma lookup_None p : lookup None p = None.
Proof. induction p; simpl; auto. Qed.

Lemma lookup_app t p q : lookup t (p ++ q) = lookup (lookup t p) q.
Proof. revert t; induction p; simpl; auto. Qed.

Lemma lookup_File r data p : p <> [] -> lookup (Some (File r data)) p = None.
Proof. destruct p; [congruence|intros _; simpl; apply lookup_None]. Qed.

Lemma child_name es x : x <> curdir -> child (Some (Dir es)) x = assoc x es.
Proof.
  intros H; simpl. destruct (String.eqb_spec x curdir); [contradiction|reflexivity].
Qed.

Lemma names_ok_norm p : names_ok p -> norm p = p.
Proof.
  induction 1 as [|x r Hx _ IH]; simpl; [reflexivity|].
  destruct (String.eqb_spec x curdir); [contradiction|simpl; now rewrite IH].
Qed.

Lemma names_ok_app p q : names_ok p -> names_ok q -> names_ok (p ++ q).
Proof. intros; apply Forall_app; auto. Qed.

Lemma norm_app p q : norm (p ++ q) = norm p ++ norm q.
Proof. apply filter_app. Qed.

(** Storing at a name path and reading it back. *)
Lemma lookup_store_same p v t :
  names_ok p -> lookup t p <> None -> lookup (store p v t) p = v.
Proof.
  intros Hp; revert t; induction Hp as [|x q Hx Hq IH]; intros t Hl; simpl; [reflexivity|].
  destruct t as [[r d|es]|]; simpl in Hl.
  - now rewrite lookup_None in Hl.
  - destruct (String.eqb_spec x curdir); [contradiction|].
    simpl. destruct (String.eqb_spec x curdir); [contradiction|].
    rewrite assoc_bind_entry_same. apply IH, Hl.
  - now rewrite lookup_None in Hl.
Qed.

Lemma store_twice p v1 v2 t :
  store p v2 (store p (Some v1) t) = store p v2 t.
Proof.
  revert t; induction p as [|x q IH]; intros t; simpl; [reflexivity|].
  destruct t as [[r d|es]|]; simpl; try reflexivity.
  rewrite assoc_bind_entry_same.
  destruct (store q (Some v1) (assoc x es)) as [a|] eqn:E.
  - simpl. rewrite <- E, IH. now rewrite bind_entry_set_entry.
  - destruct q as [|y q']; [discriminate|].
    destruct (assoc x es) as [[r d|es']|] eqn:Ea; simpl in E; try discriminate.
    simpl. now rewrite del_entry_twice.
Qed.

(** Storing one level below a directory. *)
Lemma store_snoc p x v t ds :
  names_ok p -> lookup t p = Some (Dir ds) ->
  store (p ++ [x]) v t = store p (Some (Dir (bind_entry x v ds))) t.
Proof.
  intros Hp; revert t; induction Hp as [|y q Hy Hq IH]; intros t Hl; simpl in *.
  - subst t. reflexivity.
  - destruct t as [[r d|es]|]; simpl in Hl.
    + now rewrite lookup_None in Hl.
    + destruct (String.eqb_spec y curdir); [contradiction|].
      now rewrite (IH _ Hl).
    + now rewrite lookup_None in Hl.
Qed.


Lemma os_path_relpath_rel r R : os_path_relpath (r, R) = rel R.
Proof. reflexivity. Qed.

Lemma norm_rel R : names_ok R -> norm (rel R) = R.
Proof.
  destruct R; [reflexivity|]. intros H; simpl rel. now apply names_ok_norm.
Qed.

Lemma lookup_rel_dir t R ds :
  lookup t (rel R) = Some (Dir ds) -> lookup t R = Some (Dir ds).
Proof.
  destruct R; simpl; [|auto].
  destruct t as [[r d|es]|]; simpl; congruence.
Qed.

Lemma lookup_dir_rel t R ds :
  lookup t R = Some (Dir ds) -> lookup t (rel R) = Some (Dir ds).
Proof.
  destruct R; simpl; [|auto]. intros ->. reflexivity.
Qed.

Lemma lookup_rel_child t R ds x :
  x <> curdir -> lookup t (rel R) = Some (Dir ds) ->
  lookup t (rel R ++ [x]) = assoc x ds.
Proof.
  intros Hx H. rewrite lookup_app, H. simpl.
  destruct (String.eqb_spec x curdir); [contradiction|reflexivity].
Qed.

Lemma lookup_child t R ds x :
  x <> curdir -> lookup t R = Some (Dir ds) ->
  lookup t (R ++ [x]) = assoc x ds.
Proof.
  intros Hx H. rewrite lookup_app, H. simpl.
  destruct (String.eqb_spec x curdir); [contradiction|reflexivity].
Qed.

Lemma lookup_store_rel t R ds ds' :
  names_ok R -> lookup t (rel R) = Some (Dir ds) ->
  lookup (store R (Some (Dir ds')) t) (rel R) = Some (Dir ds').
Proof.
  intros HR H. apply lookup_dir_rel. apply lookup_store_same; [exact HR|].
  rewrite (lookup_rel_dir _ _ _ H). discriminate.
Qed.

Lemma set_entry_assoc x n es : assoc x es = Some n -> set_entry x n es = es.
Proof.
  induction es as [|[y m] r IH]; simpl; [discriminate|].
  destruct (String.eqb_spec x y) as [->|Hne]; [congruence|].
  intros H; now rewrite (IH H).
Qed.

Lemma store_lookup_id R t0 t :
  names_ok R -> lookup t R = Some t0 -> store R (Some t0) t = t.
Proof.
  intros HR; revert t; induction HR as [|x q Hx Hq IH]; intros t Hl; simpl in *;
    [congruence|].
  destruct t as [[r d|es]|]; simpl in Hl; try reflexivity.
  destruct (String.eqb_spec x curdir); [contradiction|].
  destruct (assoc x es) as [c|] eqn:E; [|now rewrite lookup_None in Hl].
  rewrite (IH _ Hl). simpl. now rewrite (set_entry_assoc _ _ _ E).
Qed.

Lemma stops_at_file_snoc t p ds x :
  lookup t p = Some (Dir ds) -> stops_at_file t (p ++ [x]) = false.
Proof.
  revert t; induction p as [|y q IH]; intros t Hl; simpl in *.
  - subst t. reflexivity.
  - destruct t as [[r d|es]|]; simpl in Hl.
    + now rewrite lookup_None in Hl.
    + now apply IH.
    + now rewrite lookup_None in Hl.
Qed.


Lemma shows_refl R : shows R R.
Proof. now left. Qed.

Lemma shows_rel R : shows R (rel R).
Proof. destruct R; [right|left]; auto. Qed.

Lemma shown_norm R P : names_ok R -> shows R P -> norm P = R.
Proof.
  intros HR [->|[-> ->]]; [now apply names_ok_norm|reflexivity].
Qed.

Lemma shown_lookup R P T t0 :
  shows R P -> lookup T P = Some t0 -> lookup T R = Some t0.
Proof.
  intros [->|[-> ->]] HT; [exact HT|].
  simpl in *. destruct T as [[r d|es]|]; simpl in HT; congruence.
Qed.

Lemma shown_store_id R P T t0 :
  names_ok R -> shows R P -> lookup T P = Some t0 -> store R (Some t0) T = T.
Proof.
  intros HR HP HT. apply store_lookup_id; [exact HR|exact (shown_lookup _ _ _ _ HP HT)].
Qed.

Lemma shown_store_lookup R P T t0 t1 :
  names_ok R -> shows R P -> lookup T P = Some t0 ->
  is_dir t1 = is_dir t0 -> lookup (store R (Some t1) T) P = Some t1.
Proof.
  intros HR [->|[-> ->]] HT Hk.
  - apply lookup_store_same; [exact HR|]. rewrite HT; discriminate.
  - simpl in *. destruct T as [[r d|es]|]; simpl in HT; try discriminate.
    injection HT as <-. destruct t1; [discriminate|reflexivity].
Qed.

(* ================================================================= *)
(** * The monad *)

Lemma bind_ok {A B} (c : M A) (k : A -> M B) w a w' :
  c w = (Ok a, w') -> bind c k w = k a w'.
Proof. unfold bind; now intros ->. Qed.

Lemma bind_raise {A B} (c : M A) (k : A -> M B) w e w' :
  c w = (Raise e, w') -> bind c k w = (Raise e, w').
Proof. unfold bind; now intros ->. Qed.

Lemma for_each_app {X} (l1 l2 : list X) body w :
  for_each (l1 ++ l2) body w = (for_each l1 body ;; for_each l2 body) w.
Proof.
  revert w; induction l1 as [|x r IH]; intros w; simpl.
  - reflexivity.
  - unfold bind. destruct (body x w) as [[[]|e] w1]; [|reflexivity].
    specialize (IH w1). unfold bind in IH. exact IH.
Qed.

(* ================================================================= *)
(** * [calc_md5] reads the whole file *)

Lemma chunk_size_pos : exists k, chunk_size = S k.
Proof. exists (Nat.pred chunk_size). vm_compute. reflexivity. Qed.

Lemma read_loop_all fuel rest fed :
  List.length rest < fuel -> read_loop fuel rest fed = fed ++ rest.
Proof.
  destruct chunk_size_pos as [k Hk].
  revert rest fed; induction fuel as [|n IH]; intros rest fed Hlt; [lia|].
  cbn [read_loop]. destruct (firstn chunk_size rest) as [|c cs] eqn:E.
  - destruct rest as [|b rest']; [now rewrite app_nil_r|].
    rewrite Hk in E. discriminate.
  - rewrite <- E, IH.
    + now rewrite <- app_assoc, firstn_skipn.
    + rewrite length_skipn. destruct rest as [|b rest'].
      * rewrite firstn_nil in E. discriminate.
      * rewrite Hk. cbn [List.length] in *. lia.
Qed.

Lemma md5_of_hexdigest data : md5_of data = MD5.hexdigest data.
Proof. unfold md5_of. now rewrite read_loop_all by lia. Qed.

(* ================================================================= *)
(** * The calls of [sync] on an entry of a directory of the destination *)

Arguments md5_of : simpl never.
Arguments lifted : simpl never.
Opaque md5_of.

Lemma norm_snoc P x : x <> curdir -> norm (P ++ [x]) = norm P ++ [x].
Proof.
  intros Hx. rewrite norm_app. simpl.
  destruct (String.eqb_spec x curdir); [contradiction|reflexivity].
Qed.

Lemma lifted_id R P w t0 r :
  names_ok R -> shows R P -> lookup (dest_tree w) P = Some t0 ->
  lifted R (r, Some t0, []) w = (r, w).
Proof.
  intros HR HP HT. unfold lifted.
  rewrite (shown_store_id _ _ _ _ HR HP HT), app_nil_r. now destruct w.
Qed.

Section Focus.

Variables (w : world) (R P : relpath) (ds : list (string * node)) (x : string).
Hypothesis HR : names_ok R.
Hypothesis HP : shows R P.
Hypothesis Hd : lookup (dest_tree w) P = Some (Dir ds).
Hypothesis Hx : x <> curdir.

Lemma focus_lookup : lookup_path (TopDest, P ++ [x]) w = assoc x ds.
Proof using Hd Hx.
  unfold lookup_path; simpl. now apply lookup_child.
Qed.

Lemma focus_write v :
  write_path (TopDest, P ++ [x]) v w
  = World (source_tree w) (store R (Some (Dir (bind_entry x v ds))) (dest_tree w))
          (logfile w).
Proof using HR HP Hd Hx.
  unfold write_path; simpl.
  rewrite (norm_snoc _ _ Hx), (shown_norm _ _ HR HP).
  now rewrite (store_snoc R x v _ ds HR (shown_lookup _ _ _ _ HP Hd)).
Qed.

Lemma focus_create v :
  create_entry (TopDest, P ++ [x]) v w
  = (Ok tt, write_path (TopDest, P ++ [x]) (Some v) w).
Proof using Hd.
  unfold create_entry; simpl. rewrite rev_unit.
  unfold lookup_path; simpl. now rewrite rev_involutive, Hd.
Qed.

Lemma focus_unresolved :
  unresolved (TopDest, P ++ [x]) w = FileNotFoundError (TopDest, P ++ [x]).
Proof using Hd.
  unfold unresolved; simpl. now rewrite (stops_at_file_snoc _ _ _ _ Hd).
Qed.

End Focus.

Section UnderFile.

Variables (w : world) (P : relpath) (r : bool) (data : list byte) (x : string).
Hypothesis Hd : lookup (dest_tree w) P = Some (File r data).

Lemma under_file_lookup : lookup_path (TopDest, P ++ [x]) w = None.
Proof using Hd.
  unfold lookup_path; simpl. now rewrite lookup_app, Hd.
Qed.

Lemma under_file_create v :
  create_entry (TopDest, P ++ [x]) v w
  = (Raise (NotADirectoryError (TopDest, P ++ [x])), w).
Proof using Hd.
  unfold create_entry; simpl. rewrite rev_unit.
  unfold lookup_path; simpl. now rewrite rev_involutive, Hd.
Qed.

End UnderFile.

(** [os.makedirs] of an entry whose parent exists is [os.mkdir]. *)
Lemma os_makedirs_child P x w t0 :
  lookup (dest_tree w) P = Some t0 ->
  os_makedirs (TopDest, P ++ [x]) w = os_mkdir (TopDest, P ++ [x]) w.
Proof.
  intros H. unfold os_makedirs; simpl. rewrite rev_unit. cbn [makedirs_rev].
  unfold bind, os_path_exists, lookup_path; simpl.
  now rewrite rev_involutive, H.
Qed.

Lemma create_directory_refines R P w t0 d :
  names_ok R -> shows R P -> d <> curdir ->
  lookup (dest_tree w) P = Some t0 ->
  create_directory (join (TopDest, P) d) w
  = lifted R (create_directory_at (TopDest, P) d (Some t0)) w.
Proof.
  intros HR HP Hd HT. unfold create_directory, join, join_rel; simpl.
  destruct t0 as [r data|ds]; simpl.
  - rewrite (lifted_id R P w _ _ HR HP HT).
    unfold bind at 1. unfold os_path_exists.
    rewrite (under_file_lookup w P r data d HT). simpl.
    unfold bind. rewrite (os_makedirs_child _ _ _ _ HT).
    unfold os_mkdir. rewrite (under_file_lookup w P r data d HT).
    now rewrite (under_file_create w P r data d HT).
  - unfold bind at 1. unfold os_path_exists.
    rewrite (focus_lookup w P ds d HT Hd).
    destruct (assoc d ds) as [n|] eqn:E; simpl.
    + now rewrite (lifted_id R P w _ _ HR HP HT).
    + unfold bind. rewrite (os_makedirs_child _ _ _ _ HT).
      unfold os_mkdir. rewrite (focus_lookup w P ds d HT Hd), E.
      rewrite (focus_create w P ds d HT), (focus_write w R P ds d HR HP HT Hd).
      reflexivity.
Qed.

(** Files of a well-formed source directory. *)
Lemma calc_md5_file p w r data :
  lookup_path p w = Some (File r data) ->
  calc_md5 p w = if r then (Ok (Some (md5_of data)), w) else (Raise (PermissionError p), w).
Proof.
  intros H. unfold calc_md5, except_file_not_found, bind, open_rb. rewrite H.
  destruct r; reflexivity.
Qed.

Lemma calc_md5_dir p w ds :
  lookup_path p w = Some (Dir ds) ->
  calc_md5 p w = (Raise (IsADirectoryError p), w).
Proof.
  intros H. unfold calc_md5, except_file_not_found, bind, open_rb. now rewrite H.
Qed.

Lemma copy_or_replace_refines R P w t0 es file r data :
  names_ok R -> shows R P -> file <> curdir ->
  lookup (source_tree w) R = Some (Dir es) ->
  assoc file es = Some (File r data) ->
  lookup (dest_tree w) P = Some t0 ->
  copy_or_replace (join (TopSource, R) file) (join (TopDest, P) file) w
  = lifted R (copy_or_replace_at (TopSource, R) (TopDest, P) (file, r, data) (Some t0)) w.
Proof.
  intros HR HP Hf Hs Ha HT.
  assert (Hsrc : lookup_path (TopSource, R ++ [file]) w = Some (File r data)).
  { unfold lookup_path; simpl. now rewrite (lookup_child _ _ _ _ Hf Hs). }
  unfold copy_or_replace, join, join_rel; cbn [fst snd copy_or_replace_at].
  unfold bind at 1. rewrite (calc_md5_file _ _ _ _ Hsrc).
  destruct r; cbn [negb].
  2:{ now rewrite (lifted_id R P w _ _ HR HP HT). }
  unfold bind at 1. unfold os_path_exists at 1.
  destruct t0 as [r0 data0|ds].
  - rewrite (under_file_lookup w P r0 data0 file HT).
    rewrite (lifted_id R P w _ _ HR HP HT).
    unfold bind at 1. unfold ret at 1. cbn [option_string_eqb negb].
    unfold bind at 1. unfold shutil_copy2. unfold bind at 1.
    unfold os_path_isdir. rewrite (under_file_lookup w P r0 data0 file HT).
    unfold bind at 1. unfold open_rb. rewrite Hsrc. cbn [fst snd].
    unfold open_wb. rewrite (under_file_lookup w P r0 data0 file HT).
    now rewrite (under_file_create w P r0 data0 file HT).
  - rewrite (focus_lookup w P ds file HT Hf).
    destruct (assoc file ds) as [[r1 old|ds1]|] eqn:E.
    + unfold bind at 1.
      rewrite (calc_md5_file (TopDest, P ++ [file]) w r1 old)
        by (now rewrite (focus_lookup w P ds file HT Hf)).
      destruct r1.
      2:{ now rewrite (lifted_id R P w _ _ HR HP HT). }
      cbn [option_string_eqb].
      destruct (String.eqb (md5_of data) (md5_of old)); cbn [negb].
      * now rewrite (lifted_id R P w _ _ HR HP HT).
      * unfold bind at 1. unfold shutil_copy2. unfold bind at 1.
        unfold os_path_isdir. rewrite (focus_lookup w P ds file HT Hf), E.
        unfold bind at 1. unfold open_rb. rewrite Hsrc. cbn [fst snd].
        unfold open_wb. rewrite (focus_lookup w P ds file HT Hf), E.
        rewrite (focus_write w R P ds file HR HP HT Hf). reflexivity.
    + unfold bind at 1.
      rewrite (calc_md5_dir (TopDest, P ++ [file]) w ds1)
        by (now rewrite (focus_lookup w P ds file HT Hf)).
      now rewrite (lifted_id R P w _ _ HR HP HT).
    + unfold bind at 1. unfold ret at 1. cbn [option_string_eqb negb].
      unfold bind at 1. unfold shutil_copy2. unfold bind at 1.
      unfold os_path_isdir. rewrite (focus_lookup w P ds file HT Hf), E.
      unfold bind at 1. unfold open_rb. rewrite Hsrc. cbn [fst snd].
      unfold open_wb. rewrite (focus_lookup w P ds file HT Hf), E.
      rewrite (focus_create w P ds file HT).
      rewrite (focus_write w R P ds file HR HP HT Hf). reflexivity.
Qed.

Lemma source_exists R x w :
  os_path_exists (join (TopSource, rel R) x) w
  = (Ok (match child (lookup (source_tree w) (rel R)) x with
         | Some _ => true | None => false end), w).
Proof.
  unfold os_path_exists, lookup_path, join, join_rel; simpl.
  now rewrite lookup_app.
Qed.

Lemma delete_file_refines R w ds file :
  names_ok R -> file <> curdir ->
  lookup (dest_tree w) R = Some (Dir ds) ->
  delete_file (TopSource, rel R) (TopDest, R) file w
  = lifted R (delete_file_at (TopDest, R) (lookup (source_tree w) (rel R)) file
                (Some (Dir ds))) w.
Proof.
  intros HR Hf HT. pose proof (shows_refl R) as HP.
  unfold delete_file, delete_file_at. unfold bind at 1. rewrite source_exists.
  destruct (child (lookup (source_tree w) (rel R)) file) as [n|]; cbn [negb].
  - now rewrite (lifted_id R R w _ _ HR HP HT).
  - unfold bind, os_remove, join, join_rel; cbn [fst snd].
    rewrite (focus_lookup w R ds file HT Hf).
    destruct (assoc file ds) as [[r data|ds1]|] eqn:E.
    + rewrite (focus_write w R R ds file HR HP HT Hf). reflexivity.
    + now rewrite (lifted_id R R w _ _ HR HP HT).
    + rewrite (focus_unresolved w R ds file HT).
      now rewrite (lifted_id R R w _ _ HR HP HT).
Qed.

Lemma delete_directory_refines R w ds d :
  names_ok R -> d <> curdir ->
  lookup (dest_tree w) R = Some (Dir ds) ->
  delete_directory (TopSource, rel R) (TopDest, R) d w
  = lifted R (delete_directory_at (TopDest, R) (lookup (source_tree w) (rel R)) d
                (Some (Dir ds))) w.
Proof.
  intros HR Hf HT. pose proof (shows_refl R) as HP.
  unfold delete_directory, delete_directory_at. unfold bind at 1. rewrite source_exists.
  destruct (child (lookup (source_tree w) (rel R)) d) as [n|]; cbn [negb].
  - now rewrite (lifted_id R R w _ _ HR HP HT).
  - unfold bind, shutil_rmtree, join, join_rel; cbn [fst snd].
    rewrite (focus_lookup w R ds d HT Hf).
    destruct (assoc d ds) as [[r data|ds1]|] eqn:E.
    + now rewrite (lifted_id R R w _ _ HR HP HT).
    + rewrite (focus_write w R R ds d HR HP HT Hf). reflexivity.
    + rewrite (focus_unresolved w R ds d HT).
      now rewrite (lifted_id R R w _ _ HR HP HT).
Qed.

(* ================================================================= *)
(** * Loops *)

Lemma lifted_seq R a t1 evs k w :
  lifted R (and_then (Ok a, Some t1, evs) k) w
  = lifted R (k (Some t1))
      (World (source_tree w) (store R (Some t1) (dest_tree w)) (logfile w ++ evs)).
Proof.
  unfold lifted, and_then. destruct (k (Some t1)) as [[r t'] evs']. simpl.
  now rewrite store_twice, app_assoc.
Qed.

Lemma for_each_map {X Y} (g : X -> Y) (l : list X) body w :
  for_each (map g l) body w = for_each l (fun x => body (g x)) w.
Proof.
  revert w; induction l as [|x r IH]; intros w; simpl; [reflexivity|].
  unfold bind. destruct (body (g x) w) as [[[]|e] w1]; [apply IH|reflexivity].
Qed.

Lemma for_each_lifted {X} (R P : relpath) (S : tree) (ok : node -> Prop)
    (l : list X) (body : X -> M unit) (lbody : X -> tree -> outcome) :
  names_ok R -> shows R P ->
  (forall x w t0, In x l -> source_tree w = S ->
     lookup (dest_tree w) P = Some t0 -> ok t0 ->
     body x w = lifted R (lbody x (Some t0)) w) ->
  (forall x t0, In x l -> ok t0 ->
     exists r t1 evs, lbody x (Some t0) = (r, Some t1, evs)
                      /\ is_dir t1 = is_dir t0 /\ ok t1) ->
  forall w t0, source_tree w = S -> lookup (dest_tree w) P = Some t0 -> ok t0 ->
    for_each l body w = lifted R (each_at l lbody (Some t0)) w.
Proof.
  intros HR HP. induction l as [|x r IH]; intros Hb Hk w t0 HS HT Hok.
  - simpl. now rewrite (lifted_id R P w _ _ HR HP HT).
  - cbn [for_each each_at]. unfold bind.
    rewrite (Hb x w t0 (or_introl eq_refl) HS HT Hok).
    destruct (Hk x t0 (or_introl eq_refl) Hok) as (res & t1 & evs & E & Hd & Hok1).
    rewrite E. destruct res as [[]|e].
    + rewrite lifted_seq. cbn [lifted].
      apply IH.
      * intros; apply Hb; auto. now right.
      * intros; apply Hk; auto. now right.
      * exact HS.
      * cbn. now apply (shown_store_lookup R P _ t0).
      * exact Hok1.
    + reflexivity.
Qed.

(* ================================================================= *)
(** * Induction on trees; well-formed directories *)

Lemma node_ind' (P : node -> Prop) :
  (forall r data, P (File r data)) ->
  (forall es, Forall (fun e => P (snd e)) es -> P (Dir es)) ->
  forall n, P n.
Proof.
  intros HF HD. fix IH 1. intros [r data|es]; [apply HF|].
  apply HD. induction es as [|[x c] l IHl]; constructor; [apply IH|exact IHl].
Qed.

Lemma and_then_ext o k k' : (forall t, k t = k' t) -> and_then o k = and_then o k'.
Proof.
  intros H. destruct o as [[[a|e] t] evs]; simpl; [now rewrite H|reflexivity].
Qed.

Lemma walk_node_Dir topdown root es :
  walk_node topdown root (Dir es)
  = if topdown
    then (root, dir_names es, file_names es) :: walk_below topdown root es
    else walk_below topdown root es ++ [(root, dir_names es, file_names es)].
Proof.
  cbn [walk_node].
  enough (H : forall l,
    (fix go (l : list (string * node)) : list walk_item :=
       match l with
       | [] => []
       | (x, c) :: l' => walk_node topdown (join root x) c ++ go l'
       end) l = walk_below topdown root l) by (now rewrite H).
  induction l as [|[x c] l IH]; [reflexivity|]. cbn [walk_below]. now rewrite <- IH.
Qed.

Lemma mirror_node_Dir R es t :
  mirror_node R (Dir es) t
  = and_then
      match t with
      | None => (Ok tt, Some (Dir []), [CreatedDirectory (TopDest, rel R)])
      | Some _ => (Ok tt, t, [])
      end (fun t =>
    and_then (each_at (dir_names es) (create_directory_at (TopDest, rel R)) t) (fun t =>
    and_then (each_at (file_entries es)
                (copy_or_replace_at (TopSource, R) (TopDest, rel R)) t)
             (mirror_below R es))).
Proof.
  cbn [mirror_node].
  enough (H : forall l t,
    (fix below (l : list (string * node)) (t : tree) : outcome :=
       match l with
       | [] => (Ok tt, t, [])
       | (x, c) :: l' =>
           and_then
             match c with
             | File _ _ => (Ok tt, t, [])
             | Dir _ =>
                 let '(r, c', evs) := mirror_node (R ++ [x]) c (child t x) in
                 (r, store [x] c' t, evs)
             end
             (below l')
       end) l t = mirror_below R l t).
  { apply and_then_ext; intros t1. apply and_then_ext; intros t2.
    apply and_then_ext; intros t3. apply H. }
  induction l as [|[x c] l IH]; intros t'; [reflexivity|].
  cbn [mirror_below]. apply and_then_ext, IH.
Qed.

Lemma prune_node_Dir R ds sv :
  prune_node R (Dir ds) sv
  = and_then (prune_below R sv ds (Some (Dir ds))) (fun t =>
    and_then (each_at (file_names ds) (delete_file_at (TopDest, R) sv) t) (fun t =>
    each_at (dir_names ds) (delete_directory_at (TopDest, R) sv) t)).
Proof.
  cbn [prune_node].
  enough (H : forall l t,
    (fix below (l : list (string * node)) (t : tree) : outcome :=
       match l with
       | [] => (Ok tt, t, [])
       | (x, c) :: l' =>
           and_then
             match c with
             | File _ _ => (Ok tt, t, [])
             | Dir _ =>
                 let '(r, c', evs) := prune_node (R ++ [x]) c (child sv x) in
                 (r, store [x] c' t, evs)
             end
             (below l')
       end) l t = prune_below R sv l t) by (now rewrite H).
  induction l as [|[x c] l IH]; intros t'; [reflexivity|].
  cbn [prune_below]. apply and_then_ext, IH.
Qed.
Lemma nodupb_NoDup l : nodupb l = true -> NoDup l.
Proof.
  induction l as [|x r IH]; simpl; [constructor|].
  intros H. apply andb_prop in H as [H1 H2]. constructor; [|now apply IH].
  intros Hin. apply negb_true_iff in H1.
  assert (existsb (String.eqb x) r = true); [|congruence].
  apply existsb_exists. exists x. split; [exact Hin|apply String.eqb_refl].
Qed.


Lemma wf_dir es :
  wf_node (Dir es) = true -> NoDup (map fst es) /\ Forall wf_entry es.
Proof.
  cbn [wf_node]. intros H.
  apply andb_prop in H as [H H3]. apply andb_prop in H as [H1 H2].
  split; [now apply nodupb_NoDup|].
  clear H1. induction es as [|[x c] l IH]; [constructor|].
  cbn [map fst forallb] in H2. apply andb_prop in H2 as [Hx H2].
  apply andb_prop in H3 as [Hc H3]. constructor; [|now apply IH].
  split; [|exact Hc]. simpl. apply negb_true_iff in Hx.
  now apply String.eqb_neq.
Qed.

Lemma assoc_In x c es : NoDup (map fst es) -> In (x, c) es -> assoc x es = Some c.
Proof.
  induction es as [|[y n] l IH]; simpl; [contradiction|].
  intros Hnd [Heq|Hin].
  - injection Heq as -> ->. now rewrite String.eqb_refl.
  - inversion Hnd as [|? ? Hni Hnd']; subst.
    destruct (String.eqb_spec x y) as [->|Hne]; [|now apply IH].
    exfalso. apply Hni. apply in_map_iff. now exists (y, c).
Qed.

Lemma assoc_Some_In x c es : assoc x es = Some c -> In (x, c) es.
Proof.
  induction es as [|[y n] l IH]; simpl; [discriminate|].
  destruct (String.eqb_spec x y) as [->|Hne].
  - intros [= ->]. now left.
  - intros H. right. now apply IH.
Qed.

Lemma in_dir_names x es : In x (dir_names es) <-> exists ds, In (x, Dir ds) es.
Proof.
  unfold dir_names. rewrite in_map_iff. split.
  - intros ([y [r d|ds]] & <- & Hin); apply filter_In in Hin as [Hin Hd];
      simpl in *; [discriminate|]. now exists ds.
  - intros (ds & Hin). exists (x, Dir ds). split; [reflexivity|].
    apply filter_In. now split.
Qed.

Lemma in_file_names x es : In x (file_names es) <-> exists r data, In (x, File r data) es.
Proof.
  unfold file_names. rewrite in_map_iff. split.
  - intros ([y [r d|ds]] & <- & Hin); apply filter_In in Hin as [Hin Hd];
      simpl in *; [|discriminate]. now exists r, d.
  - intros (r & d & Hin). exists (x, File r d). split; [reflexivity|].
    apply filter_In. now split.
Qed.

Lemma in_file_entries x r data es :
  In (x, r, data) (file_entries es) <-> In (x, File r data) es.
Proof.
  induction es as [|[y [r' d'|ds]] l IH]; simpl; [tauto| |].
  - rewrite IH. split; intros [H|H]; auto; left; congruence.
  - rewrite IH. split; [auto|]. intros [H|H]; [discriminate|exact H].
Qed.

Lemma file_names_entries es :
  file_names es = map (fun f => fst (fst f)) (file_entries es).
Proof.
  unfold file_names. induction es as [|[y [r' d'|ds]] l IH]; simpl; [reflexivity| |].
  - now rewrite IH.
  - exact IH.
Qed.

Lemma wf_entry_in es e : Forall wf_entry es -> In e es -> wf_entry e.
Proof. intros H; now apply Forall_forall. Qed.

(* ================================================================= *)
(** * What the first loop keeps of a directory of the destination *)


Lemma extends_same t0 r evs : extends t0 (r, Some t0, evs).
Proof. exists r, t0, evs; auto. Qed.

Lemma and_then_ok o k a t1 evs :
  and_then o k = (Ok a, t1, evs) ->
  exists a' t' e1 e2, o = (Ok a', t', e1) /\ k t' = (Ok a, t1, e2) /\ evs = e1 ++ e2.
Proof.
  destruct o as [[[a'|e] t'] e1]; simpl; [|discriminate].
  destruct (k t') as [[r t2] e2] eqn:E. intros [= -> -> <-].
  now exists a', t', e1, e2.
Qed.

Lemma extends_and_then t0 o k :
  extends t0 o -> (forall t1, extends t1 (k (Some t1))) -> extends t0 (and_then o k).
Proof.
  intros (r & t1 & evs & -> & Hk & Hc) Hnext. destruct r as [a|e]; simpl.
  - destruct (Hnext t1) as (r' & t2 & evs' & -> & Hk' & Hc').
    exists r', t2, (evs ++ evs'). repeat split; [congruence|auto].
  - exists (Raise e), t1, evs. auto.
Qed.

Lemma each_at_extends {X} (l : list X) body :
  (forall x t1, In x l -> extends t1 (body x (Some t1))) ->
  forall t0, extends t0 (each_at l body (Some t0)).
Proof.
  induction l as [|x r IH]; intros Hb t0; cbn [each_at]; [apply extends_same|].
  apply extends_and_then; [apply Hb; now left|].
  intros t1. apply IH. intros; apply Hb; now right.
Qed.

Lemma child_set_entry ds x v y :
  child (Some (Dir ds)) y <> None -> child (Some (Dir (set_entry x v ds))) y <> None.
Proof.
  simpl. destruct (String.eqb y curdir); [discriminate|].
  destruct (String.eqb_spec x y) as [->|Hne].
  - now rewrite assoc_set_entry_same.
  - now rewrite assoc_set_entry_other.
Qed.

Lemma extends_set_entry ds x v r evs :
  extends (Dir ds) (r, Some (Dir (set_entry x v ds)), evs).
Proof.
  exists r, (Dir (set_entry x v ds)), evs. repeat split. apply child_set_entry.
Qed.

Lemma create_directory_at_extends dr d t0 :
  extends t0 (create_directory_at dr d (Some t0)).
Proof.
  destruct t0 as [r data|ds]; simpl; [apply extends_same|].
  destruct (assoc d ds); [apply extends_same|apply extends_set_entry].
Qed.

Lemma copy_or_replace_at_extends root dr f t0 :
  extends t0 (copy_or_replace_at root dr f (Some t0)).
Proof.
  destruct f as [[file r] data]. unfold copy_or_replace_at.
  destruct r; cbn [negb]; [|apply extends_same].
  destruct t0 as [r0 data0|ds]; [apply extends_same|].
  destruct (assoc file ds) as [[[|] old|ds1]|]; try apply extends_same.
  - destruct (String.eqb _ _); [apply extends_same|apply extends_set_entry].
  - apply extends_set_entry.
Qed.

Lemma extends_store_child t1 x c1 r evs :
  extends t1 (r, store [x] (Some c1) (Some t1), evs).
Proof.
  destruct t1 as [r0 d0|ds]; simpl; [apply extends_same|apply extends_set_entry].
Qed.

Lemma and_then_unit t evs k :
  and_then (Ok tt, t, evs) k = let '(r, t', evs') := k t in (r, t', evs ++ evs').
Proof. reflexivity. Qed.

Lemma mirror_node_None R es :
  mirror_node R (Dir es) None
  = let '(r, t', evs) := mirror_node R (Dir es) (Some (Dir [])) in
    (r, t', CreatedDirectory (TopDest, rel R) :: evs).
Proof.
  rewrite !mirror_node_Dir, !and_then_unit.
  destruct (and_then _ _) as [[r t'] evs]. reflexivity.
Qed.

Lemma mirror_below_extends R l :
  Forall (fun e => forall R t0, extends t0 (mirror_node R (snd e) (Some t0))) l ->
  forall t1, extends t1 (mirror_below R l (Some t1)).
Proof.
  induction 1 as [|[x c] l Hc _ IH]; intros t1; cbn [mirror_below];
    [apply extends_same|].
  apply extends_and_then; [|exact IH].
  destruct c as [r d|cs]; [apply extends_same|]. cbn [snd] in Hc.
  destruct (child (Some t1) x) as [c0|] eqn:E.
  - destruct (Hc (R ++ [x]) c0) as (r & c1 & evs & -> & _ & _).
    apply extends_store_child.
  - rewrite mirror_node_None.
    destruct (Hc (R ++ [x]) (Dir [])) as (r & c1 & evs & -> & _ & _).
    apply extends_store_child.
Qed.

Lemma mirror_node_extends s : forall R t0, extends t0 (mirror_node R s (Some t0)).
Proof.
  induction s as [r data|es IH] using node_ind'; intros R t0.
  - apply extends_same.
  - rewrite mirror_node_Dir.
    apply extends_and_then; [apply extends_same|]. intros t1.
    apply extends_and_then.
    { apply each_at_extends. intros; apply create_directory_at_extends. }
    intros t2. apply extends_and_then.
    { apply each_at_extends. intros; apply copy_or_replace_at_extends. }
    intros t3. now apply mirror_below_extends.
Qed.

Lemma dirs_created dr dirs : forall t0 t1 evs,
  each_at dirs (create_directory_at dr) (Some t0) = (Ok tt, t1, evs) ->
  forall d, In d dirs -> child t1 d <> None.
Proof.
  induction dirs as [|d r IH]; intros t0 t1 evs H d' Hin; [destruct Hin|].
  cbn [each_at] in H. apply and_then_ok in H as (a' & t' & e1 & e2 & H1 & H2 & _).
  destruct (create_directory_at_extends dr d t0) as (r0 & t0' & ev0 & E & _ & _).
  rewrite E in H1. injection H1 as -> <- <-.
  destruct Hin as [<-|Hin]; [|exact (IH _ _ _ H2 _ Hin)].
  destruct (each_at_extends r (create_directory_at dr)
              (fun x t _ => create_directory_at_extends dr x t) t0')
    as (r1 & t1' & ev1 & E1 & _ & Hc).
  rewrite E1 in H2. injection H2 as -> <- <-. apply Hc.
  destruct t0 as [r0 d0|ds]; simpl in E; [discriminate|].
  destruct (assoc d ds) eqn:Ea; injection E as <- <- <-; simpl;
    destruct (String.eqb d curdir); try discriminate.
  - now rewrite Ea.
  - now rewrite assoc_set_entry_same.
Qed.

(* ================================================================= *)
(** * The first loop is [mirror_node] *)

Lemma bind_assoc {A B C} (c : M A) (k : A -> M B) (k' : B -> M C) w :
  bind (bind c k) k' w = bind c (fun a => bind (k a) k') w.
Proof.
  unfold bind. destruct (c w) as [[a|e] w1]; reflexivity.
Qed.

Lemma bind_lifted (c : M unit) (k : unit -> M unit) R o kt w :
  c w = lifted R o w ->
  (exists r t1 evs, o = (r, Some t1, evs)) ->
  (forall t1 evs, o = (Ok tt, Some t1, evs) ->
     let w1 := World (source_tree w) (store R (Some t1) (dest_tree w))
                     (logfile w ++ evs) in
     k tt w1 = lifted R (kt (Some t1)) w1) ->
  bind c k w = lifted R (and_then o kt) w.
Proof.
  intros Hc (r & t1 & evs & ->) Hk. unfold bind. rewrite Hc.
  destruct r as [[]|e]; [|reflexivity].
  rewrite lifted_seq. cbn [lifted]. now apply Hk.
Qed.

Lemma extends_some t0 o : extends t0 o -> exists r t1 evs, o = (r, Some t1, evs).
Proof. intros (r & t1 & evs & -> & _). now exists r, t1, evs. Qed.


Lemma mirror_below_refines R S l :
  names_ok R ->
  NoDup (map fst l) ->
  Forall wf_entry l ->
  Forall (fun e => mirror_refines_at (snd e)) l ->
  Forall (fun e => lookup S (R ++ [fst e]) = Some (snd e)) l ->
  forall w t0,
    source_tree w = S ->
    lookup (dest_tree w) (rel R) = Some t0 ->
    Forall (fun e => is_dir (snd e) = true -> child (Some t0) (fst e) <> None) l ->
    for_each (walk_below true (TopSource, R) l) (add_or_update TopDest) w
    = lifted R (mirror_below R l (Some t0)) w.
Proof.
  intros HR. pose proof (shows_rel R) as HP.
  induction l as [|[x c] l IH]; intros Hnd Hwf Href Hsrc w t0 HS HT Hex.
  - simpl. now rewrite (lifted_id R (rel R) w _ _ HR HP HT).
  - cbn [walk_below mirror_below]. rewrite for_each_app.
    inversion Hnd as [|? ? Hni Hnd']; subst.
    inversion Hwf as [|? ? [Hx Hwc] Hwf']; subst.
    inversion Href as [|? ? Hrc Href']; subst.
    inversion Hsrc as [|? ? Hsc Hsrc']; subst.
    inversion Hex as [|? ? Hxc Hex']; subst.
    cbn [fst snd] in *.
    assert (Hnext : forall t1 evs,
      is_dir t1 = is_dir t0 ->
      (forall y, child (Some t0) y <> None -> child (Some t1) y <> None) ->
      let w1 := World (source_tree w) (store R (Some t1) (dest_tree w))
                      (logfile w ++ evs) in
      for_each (walk_below true (TopSource, R) l) (add_or_update TopDest) w1
      = lifted R (mirror_below R l (Some t1)) w1).
    { intros t1 evs Hk Hc w1. apply IH; auto.
      - cbn. now apply (shown_store_lookup R (rel R) _ t0).
      - eapply Forall_impl; [|exact Hex']. intros e He Hd. now apply Hc, He. }
    destruct c as [r d|cs].
    + apply bind_lifted.
      * simpl. now rewrite (lifted_id R (rel R) w _ _ HR HP HT).
      * now exists (Ok tt), t0, [].
      * intros t1 evs [= <- <-]. now apply Hnext.
    + specialize (Hxc eq_refl).
      destruct (child (Some t0) x) as [c0|] eqn:Ec; [|congruence].
      destruct t0 as [r0 d0|ds]; [discriminate|].
      rewrite (child_name ds x Hx) in Ec.
      pose proof (shown_lookup _ _ _ _ HP HT) as HTR.
      assert (HR' : names_ok (R ++ [x])).
      { apply names_ok_app; [exact HR|]. now constructor. }
      assert (Hrel : rel (R ++ [x]) = R ++ [x]) by (now destruct R).
      destruct (mirror_node_extends (Dir cs) (R ++ [x]) c0)
        as (r & c1 & evs & Em & _ & _).
      apply bind_lifted.
      * unfold join, join_rel; cbn [fst snd].
        etransitivity; [apply (Hrc (R ++ [x]) w (Some c0) Hwc HR' Hsc)|].
        -- rewrite Hrel. now rewrite (lookup_child _ _ _ _ Hx HTR).
        -- discriminate.
        -- rewrite Em. unfold lifted. cbn [store].
           now rewrite (store_snoc R x (Some c1) _ ds HR HTR).
      * rewrite Em. now exists r, (Dir (bind_entry x (Some c1) ds)), evs.
      * rewrite Em. cbn [store bind_entry]. intros t1 evs' [= -> <- <-].
        apply Hnext; [reflexivity|apply child_set_entry].
Qed.

Lemma create_directory_existing p w n :
  lookup_path p w = Some n -> create_directory p w = (Ok tt, w).
Proof.
  intros H. unfold create_directory, bind, os_path_exists. now rewrite H.
Qed.

Lemma create_directory_top w :
  dest_tree w = None ->
  create_directory (TopDest, [curdir]) w
  = (Ok tt, World (source_tree w) (Some (Dir []))
               (logfile w ++ [CreatedDirectory (TopDest, [curdir])])).
Proof.
  intros H. destruct w as [S T L]; simpl in H; subst T. reflexivity.
Qed.

Lemma mirror_refines c : mirror_refines_at c.
Proof.
  induction c as [r data|es IH] using node_ind'; intros R w t Hwf HR Hs Ht Hnone.
  - simpl. unfold lifted. destruct t as [t0|].
    + rewrite (shown_store_id R (rel R) _ _ HR (shows_rel R) Ht), app_nil_r.
      now destruct w.
    + destruct (Hnone eq_refl) as [-> Hd]. simpl. rewrite app_nil_r.
      destruct w; simpl in *; now subst.
  - apply wf_dir in Hwf as [Hnd Hwf].
    rewrite walk_node_Dir, mirror_node_Dir. cbn [for_each add_or_update].
    rewrite os_path_relpath_rel.
    rewrite bind_assoc.
    pose proof (shows_rel R) as HP.
    (* the directory itself *)
    apply bind_lifted.
    { destruct t as [t0|].
      - rewrite (create_directory_existing (TopDest, rel R) w t0 Ht).
        now rewrite (lifted_id R (rel R) w _ _ HR HP Ht).
      - destruct (Hnone eq_refl) as [-> Hd]. cbn [rel].
        rewrite (create_directory_top w Hd). unfold lifted. reflexivity. }
    { destruct t as [t0|]; [now exists (Ok tt), t0, []|].
      now exists (Ok tt), (Dir []), [CreatedDirectory (TopDest, rel R)]. }
    intros t0 evs0 E0 w0.
    assert (HT0 : lookup (dest_tree w0) (rel R) = Some t0).
    { destruct t as [t'|].
      - injection E0 as <- <-. cbn. now apply (shown_store_lookup R (rel R) _ t').
      - injection E0 as <- <-. destruct (Hnone eq_refl) as [-> Hd]. reflexivity. }
    assert (HS0 : lookup (source_tree w0) R = Some (Dir es)) by exact Hs.
    clearbody w0. clear E0 Ht Hnone Hs t w evs0.
    (* the subdirectories of the listing *)
    rewrite bind_assoc.
    destruct (each_at_extends (dir_names es) (create_directory_at (TopDest, rel R))
                (fun x t _ => create_directory_at_extends _ x t) t0)
      as (r1 & t1 & e1 & E1 & Hk1 & Hc1).
    apply bind_lifted.
    { apply (for_each_lifted R (rel R) (source_tree w0) (fun _ => True)); auto.
      - intros d w t' Hin _ HT _.
        apply create_directory_refines; auto.
        apply in_dir_names in Hin as [ds Hin].
        exact (proj1 (wf_entry_in _ _ Hwf Hin)).
      - intros d t' _ _.
        destruct (create_directory_at_extends (TopDest, rel R) d t')
          as (r & t2 & evs & -> & Hk & _).
        now exists r, t2, evs. }
    { rewrite E1. now exists r1, t1, e1. }
    rewrite E1. intros t1' e1' [= -> <- <-] w1.
    assert (HT1 : lookup (dest_tree w1) (rel R) = Some t1).
    { cbn. now apply (shown_store_lookup R (rel R) _ t0). }
    assert (HS1 : lookup (source_tree w1) R = Some (Dir es)) by exact HS0.
    clearbody w1.
    (* the files of the listing *)
    destruct (each_at_extends (file_entries es)
                (copy_or_replace_at (TopSource, R) (TopDest, rel R))
                (fun x t _ => copy_or_replace_at_extends _ _ x t) t1)
      as (r2 & t2 & e2 & E2 & Hk2 & Hc2).
    apply bind_lifted.
    { rewrite file_names_entries, for_each_map.
      apply (for_each_lifted R (rel R) (source_tree w1) (fun _ => True)); auto.
      - intros [[file r] data] w t' Hin HSw HT _. cbn [fst].
        apply in_file_entries in Hin.
        apply (copy_or_replace_refines R (rel R) w t' es); auto.
        + exact (proj1 (wf_entry_in _ _ Hwf Hin)).
        + now rewrite HSw.
        + now apply assoc_In.
      - intros f t' _ _.
        destruct (copy_or_replace_at_extends (TopSource, R) (TopDest, rel R) f t')
          as (r & t3 & evs & -> & Hk & _).
        now exists r, t3, evs. }
    { rewrite E2. now exists r2, t2, e2. }
    rewrite E2. intros t2' e2' [= -> <- <-] w2.
    (* the walk below *)
    apply (mirror_below_refines R (source_tree w1)); auto.
    + apply Forall_forall. intros [x c] Hin. cbn [fst snd].
      rewrite (lookup_child _ R es x (proj1 (wf_entry_in _ _ Hwf Hin)) HS1).
      now apply assoc_In.
    + cbn. now apply (shown_store_lookup R (rel R) _ t1).
    + apply Forall_forall. intros [x c] Hin Hd. cbn [fst snd] in *.
      apply Hc2. destruct c as [r d|cs]; [discriminate|].
      apply (dirs_created _ _ _ _ _ E1). apply in_dir_names. now exists cs.
Qed.

(* ================================================================= *)
(** * The second loop is [prune_node] *)

Lemma lookup_rel_snoc S R x : lookup S (R ++ [x]) = child (lookup S (rel R)) x.
Proof.
  destruct R as [|y R']; [|now rewrite lookup_app].
  simpl. destruct S as [[r d|es]|]; reflexivity.
Qed.

Lemma bind_ret_r (c : M unit) w : bind c (fun _ => ret tt) w = c w.
Proof.
  unfold bind, ret. destruct (c w) as [[[]|e] w1]; reflexivity.
Qed.


Lemma stays_dir_and_then o k :
  stays_dir o -> (forall ds, stays_dir (k (Some (Dir ds)))) -> stays_dir (and_then o k).
Proof.
  intros (r & ds & evs & ->) Hk. destruct r as [a|e]; simpl.
  - destruct (Hk ds) as (r' & ds' & evs' & ->). now exists r', ds', (evs ++ evs').
  - now exists (Raise e), ds, evs.
Qed.

Lemma each_at_stays_dir {X} (l : list X) body :
  (forall x ds, stays_dir (body x (Some (Dir ds)))) ->
  forall ds, stays_dir (each_at l body (Some (Dir ds))).
Proof.
  intros Hb. induction l as [|x r IH]; intros ds; cbn [each_at].
  - now exists (Ok tt), ds, [].
  - apply stays_dir_and_then; [apply Hb|exact IH].
Qed.

Lemma delete_file_at_stays_dir root sv f ds :
  stays_dir (delete_file_at root sv f (Some (Dir ds))).
Proof.
  unfold delete_file_at. destruct (child sv f); [now exists (Ok tt), ds, []|].
  destruct (assoc f ds) as [[r d|ds1]|]; eexists _, _, _; reflexivity.
Qed.

Lemma delete_directory_at_stays_dir root sv f ds :
  stays_dir (delete_directory_at root sv f (Some (Dir ds))).
Proof.
  unfold delete_directory_at. destruct (child sv f); [now exists (Ok tt), ds, []|].
  destruct (assoc f ds) as [[r d|ds1]|]; eexists _, _, _; reflexivity.
Qed.

Lemma prune_below_stays_dir R sv l :
  Forall (fun e => forall R sv cs, snd e = Dir cs ->
                   stays_dir (prune_node R (Dir cs) sv)) l ->
  forall ds, stays_dir (prune_below R sv l (Some (Dir ds))).
Proof.
  induction 1 as [|[x c] l Hc _ IH]; intros ds; cbn [prune_below].
  - now exists (Ok tt), ds, [].
  - apply stays_dir_and_then; [|exact IH].
    destruct c as [r d|cs]; [now exists (Ok tt), ds, []|].
    destruct (Hc (R ++ [x]) (child sv x) cs eq_refl) as (r & ds' & evs & ->).
    simpl. eexists _, _, _; reflexivity.
Qed.

Lemma prune_node_stays_dir d : forall R sv cs,
  d = Dir cs -> stays_dir (prune_node R (Dir cs) sv).
Proof.
  induction d as [r data|es IH] using node_ind'; intros R sv cs E; [discriminate|].
  injection E as <-. rewrite prune_node_Dir.
  apply stays_dir_and_then; [now apply prune_below_stays_dir|]. intros ds1.
  apply stays_dir_and_then.
  - apply each_at_stays_dir. intros; apply delete_file_at_stays_dir.
  - intros ds2. apply each_at_stays_dir. intros; apply delete_directory_at_stays_dir.
Qed.


Lemma prune_below_refines R S l :
  names_ok R ->
  NoDup (map fst l) ->
  Forall wf_entry l ->
  Forall (fun e => prune_refines_at (snd e)) l ->
  forall w ds,
    source_tree w = S ->
    lookup (dest_tree w) R = Some (Dir ds) ->
    Forall (fun e => assoc (fst e) ds = Some (snd e)) l ->
    for_each (walk_below false (TopDest, R) l) (delete_extra TopSource) w
    = lifted R (prune_below R (lookup S (rel R)) l (Some (Dir ds))) w.
Proof.
  intros HR. pose proof (shows_refl R) as HP.
  induction l as [|[x c] l IH]; intros Hnd Hwf Href w ds HS HT Hch.
  - simpl. now rewrite (lifted_id R R w _ _ HR HP HT).
  - cbn [walk_below prune_below]. rewrite for_each_app.
    inversion Hnd as [|? ? Hni Hnd']; subst.
    inversion Hwf as [|? ? [Hx Hwc] Hwf']; subst.
    inversion Href as [|? ? Hrc Href']; subst.
    inversion Hch as [|? ? Hxc Hch']; subst.
    cbn [fst snd] in *.
    destruct c as [r d|cs].
    + apply bind_lifted.
      * simpl. now rewrite (lifted_id R R w _ _ HR HP HT).
      * now exists (Ok tt), (Dir ds), [].
      * intros t1 evs [= <- <-] w1. apply IH; auto.
        cbn. now apply (shown_store_lookup R R _ (Dir ds)).
    + assert (HR' : names_ok (R ++ [x])).
      { apply names_ok_app; [exact HR|]. now constructor. }
      assert (Hrel : rel (R ++ [x]) = R ++ [x]) by (now destruct R).
      destruct (prune_node_stays_dir (Dir cs) (R ++ [x])
                  (child (lookup (source_tree w) (rel R)) x) cs eq_refl)
        as (r & cs1 & evs & Em).
      apply bind_lifted.
      * unfold join, join_rel; cbn [fst snd].
        etransitivity; [apply (Hrc (R ++ [x]) w Hwc HR')|].
        -- now rewrite (lookup_child _ _ _ _ Hx HT).
        -- rewrite Hrel, lookup_rel_snoc, Em. unfold lifted. cbn [store].
           now rewrite (store_snoc R x (Some (Dir cs1)) _ ds HR HT).
      * rewrite Em. now exists r, (Dir (bind_entry x (Some (Dir cs1)) ds)), evs.
      * rewrite Em. cbn [store bind_entry]. intros t1 evs' [= -> <- <-].
        apply IH; auto.
        -- cbn. now apply (shown_store_lookup R R _ (Dir ds)).
        -- apply Forall_forall. intros [y c'] Hin. cbn [fst snd].
           rewrite Forall_forall in Hch'.
           rewrite assoc_set_entry_other; [exact (Hch' _ Hin)|].
           intros ->. apply Hni. apply in_map_iff. now exists (y, c').
Qed.

Lemma prune_refines d : prune_refines_at d.
Proof.
  induction d as [r data|ds IH] using node_ind'; intros R w Hwf HR HT.
  - simpl. now rewrite (lifted_id R R w _ _ HR (shows_refl R) HT).
  - pose proof (shows_refl R) as HP.
    apply wf_dir in Hwf as [Hnd Hwf].
    rewrite walk_node_Dir, prune_node_Dir, for_each_app.
    destruct (prune_below_stays_dir R (lookup (source_tree w) (rel R)) ds
                (Forall_impl _ (fun e _ => prune_node_stays_dir (snd e)) IH) ds)
      as (r0 & ds0 & e0 & E0).
    apply bind_lifted.
    { apply (prune_below_refines R (source_tree w)); auto.
      apply Forall_forall. intros [x c] Hin. now apply assoc_In. }
    { rewrite E0. now exists r0, (Dir ds0), e0. }
    rewrite E0. intros t1 evs1 [= -> <- <-] w1.
    assert (HT1 : lookup (dest_tree w1) R = Some (Dir ds0)).
    { cbn. now apply (shown_store_lookup R R _ (Dir ds)). }
    assert (HS1 : source_tree w1 = source_tree w) by reflexivity.
    clearbody w1. rewrite <- HS1.
    cbn [for_each]. rewrite bind_ret_r. cbn [delete_extra].
    rewrite os_path_relpath_rel.
    destruct (each_at_stays_dir (file_names ds)
                (delete_file_at (TopDest, R) (lookup (source_tree w1) (rel R)))
                (delete_file_at_stays_dir _ _) ds0)
      as (r2 & ds2 & e2 & E2).
    apply bind_lifted.
    { apply (for_each_lifted R R (source_tree w1) (fun t => is_dir t = true)); auto.
      - intros f w' t' Hin HSw HTw Hd. destruct t' as [|ds']; [discriminate|].
        rewrite <- HSw. apply delete_file_refines; auto.
        apply in_file_names in Hin as (r & data & Hin).
        exact (proj1 (wf_entry_in _ _ Hwf Hin)).
      - intros f t' _ Hd. destruct t' as [|ds']; [discriminate|].
        destruct (delete_file_at_stays_dir (TopDest, R)
                    (lookup (source_tree w1) (rel R)) f ds') as (r & ds3 & evs & ->).
        now exists r, (Dir ds3), evs. }
    { rewrite E2. now exists r2, (Dir ds2), e2. }
    rewrite E2. intros t2 evs2 [= -> <- <-] w2.
    apply (for_each_lifted R R (source_tree w1) (fun t => is_dir t = true)); auto.
    + intros f w' t' Hin HSw HTw Hd. destruct t' as [|ds']; [discriminate|].
      rewrite <- HSw. apply delete_directory_refines; auto.
      apply in_dir_names in Hin as (cs & Hin).
      exact (proj1 (wf_entry_in _ _ Hwf Hin)).
    + intros f t' _ Hd. destruct t' as [|ds']; [discriminate|].
      destruct (delete_directory_at_stays_dir (TopDest, R)
                  (lookup (source_tree w1) (rel R)) f ds') as (r & ds3 & evs & ->).
      now exists r, (Dir ds3), evs.
    + cbn. now apply (shown_store_lookup R R _ (Dir ds0)).
Qed.

(* ================================================================= *)
(** * Both loops leave well-formed trees *)

Lemma NoDup_nodupb l : NoDup l -> nodupb l = true.
Proof.
  induction 1 as [|x r Hni _ IH]; simpl; [reflexivity|].
  rewrite IH, andb_true_r. apply negb_true_iff.
  destruct (existsb (String.eqb x) r) eqn:E; [|reflexivity].
  apply existsb_exists in E as (y & Hin & Heq).
  apply String.eqb_eq in Heq. now subst.
Qed.

Lemma wf_dir_intro es :
  NoDup (map fst es) -> Forall wf_entry es -> wf_node (Dir es) = true.
Proof.
  intros Hnd Hwf. cbn [wf_node]. rewrite (NoDup_nodupb _ Hnd). simpl.
  apply andb_true_intro. split.
  - clear Hnd. induction Hwf as [|[x c] l [Hx _] _ IH]; simpl; [reflexivity|].
    rewrite IH, andb_true_r. apply negb_true_iff. now apply String.eqb_neq.
  - clear Hnd. induction Hwf as [|[x c] l [_ Hc] _ IH]; [reflexivity|].
    simpl in Hc. now rewrite Hc, IH.
Qed.

Lemma assoc_None_not_in x es : assoc x es = None -> ~ In x (map fst es).
Proof.
  induction es as [|[y n] l IH]; simpl; [tauto|].
  destruct (String.eqb_spec x y) as [->|Hne]; [discriminate|].
  intros H [Heq|Hin]; [congruence|now apply IH].
Qed.

Lemma map_fst_set_entry x v es :
  map fst (set_entry x v es)
  = match assoc x es with Some _ => map fst es | None => map fst es ++ [x] end.
Proof.
  induction es as [|[y n] l IH]; simpl; [reflexivity|].
  destruct (String.eqb_spec x y) as [->|Hne]; simpl; [reflexivity|].
  rewrite IH. now destruct (assoc x l).
Qed.

Lemma wf_set_entry x v es :
  x <> curdir -> wf_node v = true ->
  wf_node (Dir es) = true -> wf_node (Dir (set_entry x v es)) = true.
Proof.
  intros Hx Hv Hwf. apply wf_dir in Hwf as [Hnd Hwf]. apply wf_dir_intro.
  - rewrite map_fst_set_entry. destruct (assoc x es) eqn:E; [exact Hnd|].
    apply NoDup_app; [exact Hnd|repeat constructor; auto|].
    intros y Hy [<-|[]]. now apply (assoc_None_not_in _ _ E).
  - clear Hnd. induction Hwf as [|[y n] l Hy Hl IH]; simpl.
    + repeat constructor; auto.
    + destruct (String.eqb_spec x y) as [->|Hne].
      * constructor; [split; [exact Hx|exact Hv]|exact Hl].
      * constructor; [exact Hy|exact IH].
Qed.

Lemma wf_del_entry x es :
  wf_node (Dir es) = true -> wf_node (Dir (del_entry x es)) = true.
Proof.
  intros Hwf. apply wf_dir in Hwf as [Hnd Hwf]. apply wf_dir_intro.
  - unfold del_entry. clear Hwf.
    induction es as [|[y n] l IH]; simpl; [constructor|].
    inversion Hnd as [|? ? Hni Hnd']; subst.
    destruct (String.eqb x y); simpl; [now apply IH|].
    constructor; [|now apply IH].
    intros Hin. apply Hni. apply in_map_iff in Hin as (e & <- & He).
    apply filter_In in He as [He _]. apply in_map_iff. now exists e.
  - unfold del_entry. apply Forall_forall. intros e He.
    apply filter_In in He as [He _]. exact (wf_entry_in _ _ Hwf He).
Qed.

Lemma wf_bind_entry x v es :
  x <> curdir -> wf_tree v = true ->
  wf_node (Dir es) = true -> wf_node (Dir (bind_entry x v es)) = true.
Proof.
  destruct v; simpl; intros; [now apply wf_set_entry|now apply wf_del_entry].
Qed.


Lemma keeps_wf_and_then o k :
  keeps_wf o -> (forall t, wf_tree t = true -> keeps_wf (k t)) ->
  keeps_wf (and_then o k).
Proof.
  destruct o as [[[a|e] t] evs]; unfold keeps_wf; simpl; [|auto].
  intros Ht Hk. specialize (Hk t Ht). now destruct (k t) as [[r t'] evs'].
Qed.

Lemma each_at_wf {X} (l : list X) body :
  (forall x t, In x l -> wf_tree t = true -> keeps_wf (body x t)) ->
  forall t, wf_tree t = true -> keeps_wf (each_at l body t).
Proof.
  induction l as [|x r IH]; intros Hb t Ht; cbn [each_at]; [exact Ht|].
  apply keeps_wf_and_then; [apply Hb; auto; now left|].
  intros t' Ht'. apply IH; auto. intros; apply Hb; auto; now right.
Qed.

Lemma keeps_wf_store_child x c' t r evs :
  x <> curdir -> wf_tree c' = true -> wf_tree t = true ->
  keeps_wf (r, store [x] c' t, evs).
Proof.
  intros Hx Hc Ht. unfold keeps_wf. cbn [fst snd store].
  destruct t as [[r0 d0|ds]|]; auto. simpl. now apply wf_bind_entry.
Qed.

Lemma create_directory_at_wf dr d t :
  d <> curdir -> wf_tree t = true -> keeps_wf (create_directory_at dr d t).
Proof.
  intros Hd Ht. unfold keeps_wf, create_directory_at.
  destruct t as [[r0 d0|ds]|]; auto.
  destruct (assoc d ds); auto. simpl. now apply wf_set_entry.
Qed.

Lemma copy_or_replace_at_wf root dr f t :
  fst (fst f) <> curdir -> wf_tree t = true ->
  keeps_wf (copy_or_replace_at root dr f t).
Proof.
  destruct f as [[file r] data]. cbn [fst]. intros Hf Ht.
  unfold keeps_wf, copy_or_replace_at. destruct r; cbn [negb]; auto.
  destruct t as [[r0 d0|ds]|]; auto.
  destruct (assoc file ds) as [[[|] old|ds1]|]; auto.
  - destruct (String.eqb _ _); auto. simpl. now apply wf_set_entry.
  - simpl. now apply wf_set_entry.
Qed.

Lemma delete_file_at_wf root sv f t :
  wf_tree t = true -> keeps_wf (delete_file_at root sv f t).
Proof.
  intros Ht. unfold keeps_wf, delete_file_at. destruct (child sv f); auto.
  destruct t as [[r0 d0|ds]|]; auto.
  destruct (assoc f ds) as [[r d|ds1]|]; auto. simpl. now apply wf_del_entry.
Qed.

Lemma delete_directory_at_wf root sv f t :
  wf_tree t = true -> keeps_wf (delete_directory_at root sv f t).
Proof.
  intros Ht. unfold keeps_wf, delete_directory_at. destruct (child sv f); auto.
  destruct t as [[r0 d0|ds]|]; auto.
  destruct (assoc f ds) as [[r d|ds1]|]; auto. simpl. now apply wf_del_entry.
Qed.

Lemma mirror_node_wf s : forall R t,
  wf_node s = true -> wf_tree t = true -> keeps_wf (mirror_node R s t).
Proof.
  induction s as [r data|es IH] using node_ind'; intros R t Hs Ht; [exact Ht|].
  apply wf_dir in Hs as [Hnd Hwf]. rewrite mirror_node_Dir.
  apply keeps_wf_and_then; [now destruct t|]. intros t1 Ht1.
  apply keeps_wf_and_then.
  { apply each_at_wf; auto. intros d t' Hin Ht'. apply create_directory_at_wf; auto.
    apply in_dir_names in Hin as [ds Hin].
    exact (proj1 (wf_entry_in _ _ Hwf Hin)). }
  intros t2 Ht2. apply keeps_wf_and_then.
  { apply each_at_wf; auto. intros [[f r] data] t' Hin Ht'.
    apply copy_or_replace_at_wf; auto. apply in_file_entries in Hin.
    exact (proj1 (wf_entry_in _ _ Hwf Hin)). }
  clear Ht Ht1 Ht2 t t1 t2 Hnd.
  induction es as [|[x c] l IHl]; intros t Ht; cbn [mirror_below]; [exact Ht|].
  inversion IH as [|? ? Hc IH']; subst. inversion Hwf as [|? ? [Hx Hwc] Hwf']; subst.
  cbn [fst snd] in *.
  apply keeps_wf_and_then; [|intros; now apply IHl].
  destruct c as [r d|cs]; [exact Ht|].
  assert (Hc' : keeps_wf (mirror_node (R ++ [x]) (Dir cs) (child t x))).
  { apply Hc; auto. destruct t as [[r0 d0|ds]|]; auto. simpl.
    destruct (String.eqb x curdir); auto.
    destruct (assoc x ds) as [c0|] eqn:E; auto.
    apply assoc_Some_In in E. apply wf_dir in Ht as [_ Ht].
    exact (proj2 (wf_entry_in _ _ Ht E)). }
  destruct (mirror_node _ _ _) as [[r c'] evs]. now apply keeps_wf_store_child.
Qed.

Lemma prune_node_wf d : forall R sv,
  wf_node d = true -> keeps_wf (prune_node R d sv).
Proof.
  induction d as [r data|ds IH] using node_ind'; intros R sv Hd; [exact Hd|].
  rewrite prune_node_Dir.
  apply keeps_wf_and_then.
  2:{ intros t1 Ht1. apply keeps_wf_and_then.
      - apply each_at_wf; auto. intros; now apply delete_file_at_wf.
      - intros t2 Ht2. apply each_at_wf; auto.
        intros; now apply delete_directory_at_wf. }
  assert (Ht : wf_tree (Some (Dir ds)) = true) by exact Hd.
  apply wf_dir in Hd as [_ Hwf].
  generalize dependent (Some (Dir ds)).
  induction ds as [|[x c] l IHl]; intros t Ht; cbn [prune_below]; [exact Ht|].
  inversion IH as [|? ? Hc IH']; subst. inversion Hwf as [|? ? [Hx Hwc] Hwf']; subst.
  cbn [fst snd] in *.
  apply keeps_wf_and_then; [|intros; now apply IHl].
  destruct c as [r d|cs]; [exact Ht|].
  specialize (Hc (R ++ [x]) (child sv x) Hwc).
  destruct (prune_node _ _ _) as [[r c'] evs]. now apply keeps_wf_store_child.
Qed.

(* ================================================================= *)
(** * [sync] is [sync_tree] *)

Lemma mirror_top_wf s T :
  wf_tree s = true -> wf_tree T = true -> keeps_wf (mirror_top s T).
Proof.
  intros Hs HT. unfold mirror_top. destruct s as [[r d|es]|]; auto.
  destruct T as [[r d|ds]|]; auto; now apply mirror_node_wf.
Qed.

Lemma first_loop_refines s T L :
  wf_tree s = true ->
  first_loop TopSource TopDest (World s T L) = lifted [] (mirror_top s T) (World s T L).
Proof.
  intros Hs. unfold first_loop, bind, os_walk, lookup_path.
  cbn [fst snd tree_of lookup source_tree].
  destruct s as [[r d|es]|]; try (simpl; unfold lifted; simpl;
    now rewrite app_nil_r).
  cbn [walk_tree mirror_top]. destruct T as [[r d|ds]|].
  - rewrite walk_node_Dir. unfold lifted. cbn. now rewrite app_nil_r.
  - apply (mirror_refines (Dir es) [] (World (Some (Dir es)) (Some (Dir ds)) L));
      [exact Hs|constructor|reflexivity|reflexivity|discriminate].
  - apply (mirror_refines (Dir es) [] (World (Some (Dir es)) None L));
      [exact Hs|constructor|reflexivity|reflexivity|intros _; split; reflexivity].
Qed.

Lemma second_loop_refines s T L :
  wf_tree T = true ->
  second_loop TopSource TopDest (World s T L) = lifted [] (prune_top s T) (World s T L).
Proof.
  intros HT. unfold second_loop, bind, os_walk, lookup_path.
  cbn [fst snd tree_of lookup dest_tree].
  destruct T as [[r d|ds]|]; try (simpl; unfold lifted; simpl;
    now rewrite app_nil_r).
  cbn [walk_tree prune_top].
  apply (prune_refines (Dir ds) [] (World s (Some (Dir ds)) L));
    [exact HT|constructor|reflexivity].
Qed.

(** The pass, as a function of the two trees. *)
Theorem sync_refines s T L :
  wf_tree s = true -> wf_tree T = true ->
  sync TopSource TopDest (World s T L) = lifted [] (sync_tree s T) (World s T L).
Proof.
  intros Hs HT. unfold sync, sync_tree.
  unfold bind at 1. rewrite (first_loop_refines s T L Hs).
  pose proof (mirror_top_wf s T Hs HT) as Hwf1.
  destruct (mirror_top s T) as [[[[]|e] T1] e1]; unfold keeps_wf in Hwf1;
    cbn [fst snd] in Hwf1; [|reflexivity].
  unfold lifted at 1. cbn [store source_tree dest_tree logfile].
  rewrite (second_loop_refines s T1 (L ++ e1) Hwf1).
  unfold lifted, and_then. destruct (prune_top s T1) as [[r2 T2] e2].
  cbn [store source_tree dest_tree logfile]. now rewrite app_assoc.
Qed.

(* ================================================================= *)
(** * Nothing is written under the source *)


Lemma keeps_source_ret {A} (a : A) : keeps_source (ret a).
Proof. intros w; reflexivity. Qed.

Lemma keeps_source_bind {A B} (c : M A) (k : A -> M B) :
  keeps_source c -> (forall a, keeps_source (k a)) -> keeps_source (bind c k).
Proof.
  intros Hc Hk w. unfold bind. specialize (Hc w).
  destruct (c w) as [[a|e] w1]; simpl in *; [|exact Hc].
  now rewrite Hk.
Qed.

Lemma keeps_source_for_each {X} (l : list X) body :
  (forall x, In x l -> keeps_source (body x)) -> keeps_source (for_each l body).
Proof.
  induction l as [|x r IH]; intros Hb; simpl; [apply keeps_source_ret|].
  apply keeps_source_bind; [apply Hb; now left|].
  intros _. apply IH. intros; apply Hb; now right.
Qed.

Lemma keeps_source_except_file_exists c :
  keeps_source c -> keeps_source (except_file_exists c).
Proof.
  intros Hc w. unfold except_file_exists. specialize (Hc w).
  destruct (c w) as [[a|[]] w1]; exact Hc.
Qed.

Lemma keeps_source_except_file_not_found {A} (c h : M A) :
  keeps_source c -> keeps_source h -> keeps_source (except_file_not_found c h).
Proof.
  intros Hc Hh w. unfold except_file_not_found. specialize (Hc w).
  destruct (c w) as [[a|[]] w1]; try exact Hc. simpl in Hc. now rewrite Hh.
Qed.

Lemma keeps_source_exists p : keeps_source (os_path_exists p).
Proof. intros w; reflexivity. Qed.

Lemma keeps_source_isdir p : keeps_source (os_path_isdir p).
Proof. intros w; reflexivity. Qed.

Lemma keeps_source_log e : keeps_source (log e).
Proof. intros w; reflexivity. Qed.

Lemma keeps_source_open_rb p : keeps_source (open_rb p).
Proof.
  intros w. unfold open_rb. destruct (lookup_path p w) as [[[|] d|ds]|]; reflexivity.
Qed.

Lemma keeps_source_calc_md5 p : keeps_source (calc_md5 p).
Proof.
  apply keeps_source_except_file_not_found; [|apply keeps_source_ret].
  apply keeps_source_bind; [apply keeps_source_open_rb|intros; apply keeps_source_ret].
Qed.

Lemma source_tree_write p v w : source_tree (write_path (TopDest, p) v w) = source_tree w.
Proof. reflexivity. Qed.

Lemma keeps_source_create_entry p v : keeps_source (create_entry (TopDest, p) v).
Proof.
  intros w. unfold create_entry. cbn [fst snd].
  destruct (rev p); [reflexivity|].
  destruct (lookup_path _ w) as [[r d|ds]|]; reflexivity.
Qed.

Lemma keeps_source_mkdir p : keeps_source (os_mkdir (TopDest, p)).
Proof.
  intros w. unfold os_mkdir. destruct (lookup_path _ w); [reflexivity|].
  apply keeps_source_create_entry.
Qed.

Lemma keeps_source_makedirs_rev rp : keeps_source (makedirs_rev TopDest rp).
Proof.
  induction rp as [|tail rhead IH]; cbn [makedirs_rev]; [apply keeps_source_mkdir|].
  apply keeps_source_bind; [apply keeps_source_exists|]. intros e.
  destruct (negb e); [|apply keeps_source_mkdir].
  apply keeps_source_bind; [now apply keeps_source_except_file_exists|]. intros _.
  destruct (String.eqb tail curdir); [apply keeps_source_ret|apply keeps_source_mkdir].
Qed.

Lemma keeps_source_open_wb p v : keeps_source (open_wb (TopDest, p) v).
Proof.
  intros w. unfold open_wb. destruct (lookup_path _ w) as [[r d|ds]|]; try reflexivity.
  apply keeps_source_create_entry.
Qed.

Lemma keeps_source_copy2 src p : keeps_source (shutil_copy2 src (TopDest, p)).
Proof.
  unfold shutil_copy2. apply keeps_source_bind; [apply keeps_source_isdir|]. intros d.
  apply keeps_source_bind; [apply keeps_source_open_rb|]. intros f.
  destruct d; apply keeps_source_open_wb.
Qed.

Lemma keeps_source_remove p : keeps_source (os_remove (TopDest, p)).
Proof.
  intros w. unfold os_remove. destruct (lookup_path _ w) as [[r d|ds]|]; reflexivity.
Qed.

Lemma keeps_source_rmtree p : keeps_source (shutil_rmtree (TopDest, p)).
Proof.
  intros w. unfold shutil_rmtree. destruct (lookup_path _ w) as [[r d|ds]|]; reflexivity.
Qed.

Lemma keeps_source_create_directory p : keeps_source (create_directory (TopDest, p)).
Proof.
  unfold create_directory. apply keeps_source_bind; [apply keeps_source_exists|].
  intros e. destruct (negb e); [|apply keeps_source_ret].
  apply keeps_source_bind; [apply keeps_source_makedirs_rev|].
  intros _. apply keeps_source_log.
Qed.

Lemma keeps_source_copy_or_replace src p :
  keeps_source (copy_or_replace src (TopDest, p)).
Proof.
  unfold copy_or_replace.
  apply keeps_source_bind; [apply keeps_source_calc_md5|]. intros m.
  apply keeps_source_bind; [apply keeps_source_exists|]. intros e.
  apply keeps_source_bind.
  { destruct e; [apply keeps_source_calc_md5|apply keeps_source_ret]. }
  intros m'. destruct (negb _); [|apply keeps_source_ret].
  apply keeps_source_bind; [apply keeps_source_copy2|].
  intros _. destruct m'; apply keeps_source_log.
Qed.

Lemma keeps_source_add_or_update item : keeps_source (add_or_update TopDest item).
Proof.
  destruct item as [[root dirs] files]. cbn [add_or_update].
  apply keeps_source_bind; [apply keeps_source_create_directory|]. intros _.
  apply keeps_source_bind.
  - apply keeps_source_for_each. intros d _. apply keeps_source_create_directory.
  - intros _. apply keeps_source_for_each. intros f _.
    apply keeps_source_copy_or_replace.
Qed.

Lemma keeps_source_delete_extra R dirs files :
  keeps_source (delete_extra TopSource ((TopDest, R), dirs, files)).
Proof.
  cbn [delete_extra]. apply keeps_source_bind.
  - apply keeps_source_for_each. intros f _. unfold delete_file.
    apply keeps_source_bind; [apply keeps_source_exists|]. intros e.
    destruct (negb e); [|apply keeps_source_ret].
    apply keeps_source_bind; [apply keeps_source_remove|intros; apply keeps_source_log].
  - intros _. apply keeps_source_for_each. intros f _. unfold delete_directory.
    apply keeps_source_bind; [apply keeps_source_exists|]. intros e.
    destruct (negb e); [|apply keeps_source_ret].
    apply keeps_source_bind; [apply keeps_source_rmtree|intros; apply keeps_source_log].
Qed.

Lemma walk_node_top topdown n : forall r R item,
  In item (walk_node topdown (r, R) n) -> fst (fst (fst item)) = r.
Proof.
  induction n as [b d|es IH] using node_ind'; intros r R item Hin; [destruct Hin|].
  rewrite walk_node_Dir in Hin.
  assert (Hb : In item (walk_below topdown (r, R) es) -> fst (fst (fst item)) = r).
  { clear Hin. induction es as [|[x c] l IHl]; [intros []|].
    inversion IH as [|? ? Hc IH']; subst. cbn [walk_below]. rewrite in_app_iff.
    intros [H|H]; [exact (Hc r (R ++ [x]) item H)|now apply IHl]. }
  destruct topdown.
  - destruct Hin as [<-|Hin]; [reflexivity|now apply Hb].
  - apply in_app_iff in Hin as [Hin|[<-|[]]]; [now apply Hb|reflexivity].
Qed.

Lemma keeps_source_first_loop : keeps_source (first_loop TopSource TopDest).
Proof.
  unfold first_loop. apply keeps_source_bind; [intros w; reflexivity|].
  intros items. apply keeps_source_for_each. intros item _.
  apply keeps_source_add_or_update.
Qed.

Lemma keeps_source_second_loop : keeps_source (second_loop TopSource TopDest).
Proof.
  intros w. unfold second_loop, bind, os_walk. cbn [fst snd].
  apply keeps_source_for_each. intros [[[r R] dirs] files] Hin.
  unfold walk_tree in Hin. destruct (lookup_path (TopDest, []) w) as [n|]; [|destruct Hin].
  apply walk_node_top in Hin. cbn [fst] in Hin. subst r.
  apply keeps_source_delete_extra.
Qed.


(* ================================================================= *)
(** * The second loop in closed form *)

Lemma not_in_assoc_None x es : ~ In x (map fst es) -> assoc x es = None.
Proof.
  induction es as [|[y n] l IH]; simpl; [reflexivity|].
  intros H. destruct (String.eqb_spec x y) as [->|Hne]; [tauto|].
  apply IH. tauto.
Qed.

Lemma assoc_middle pre x c l :
  ~ In x (map fst pre) -> assoc x (pre ++ (x, c) :: l) = Some c.
Proof.
  induction pre as [|[y n] p IH]; simpl; intros H.
  - now rewrite String.eqb_refl.
  - destruct (String.eqb_spec x y) as [->|Hne]; [tauto|]. apply IH. tauto.
Qed.

Lemma set_entry_middle pre x c c' l :
  ~ In x (map fst pre) -> set_entry x c' (pre ++ (x, c) :: l) = pre ++ (x, c') :: l.
Proof.
  induction pre as [|[y n] p IH]; simpl; intros H.
  - now rewrite String.eqb_refl.
  - destruct (String.eqb_spec x y) as [->|Hne]; [tauto|]. rewrite IH; tauto.
Qed.

Lemma del_entry_middle pre x c l :
  ~ In x (map fst pre) -> ~ In x (map fst l) ->
  del_entry x (pre ++ (x, c) :: l) = pre ++ l.
Proof.
  intros H1 H2. unfold del_entry. rewrite filter_app. cbn [filter fst].
  rewrite String.eqb_refl. cbn [negb].
  fold (del_entry x pre). fold (del_entry x l).
  now rewrite !del_entry_absent by (now apply not_in_assoc_None).
Qed.

Lemma NoDup_middle {A} (pre : list (string * A)) x c l :
  NoDup (map fst (pre ++ (x, c) :: l)) ->
  ~ In x (map fst pre) /\ ~ In x (map fst l).
Proof.
  rewrite map_app. cbn [map fst]. intros H.
  apply NoDup_remove_2 in H. rewrite in_app_iff in H. tauto.
Qed.

Lemma app_cons_assoc {A} (pre : list A) a l : pre ++ a :: l = (pre ++ [a]) ++ l.
Proof. now rewrite <- app_assoc. Qed.



Lemma prune_below_closed R sv l :
  Forall (fun e => prune_closed_at (snd e)) l ->
  Forall wf_entry l ->
  forall pre,
    NoDup (map fst (pre ++ l)) ->
    prune_below R sv l (Some (Dir (pre ++ l)))
    = (Ok tt, Some (Dir (pre ++ map (prune_entry sv) l)),
       flat_map (fun e => prune_events (R ++ [fst e]) (child sv (fst e)) (snd e)) l).
Proof.
  induction l as [|[x c] l IH]; intros Hc Hwf pre Hnd; [reflexivity|].
  inversion Hc as [|? ? Hcx Hc']; subst. inversion Hwf as [|? ? [Hx Hwc] Hwf']; subst.
  cbn [fst snd] in *. cbn [prune_below map flat_map].
  destruct (NoDup_middle pre x c l Hnd) as [Hpre Hl].
  assert (Hnd' : forall c', NoDup (map fst ((pre ++ [(x, c')]) ++ l))).
  { intros c'. rewrite <- app_cons_assoc.
    rewrite map_app in *. exact Hnd. }
  destruct c as [r d|cs].
  - rewrite and_then_unit, (app_cons_assoc pre), (IH Hc' Hwf' _ (Hnd' _)).
    now rewrite <- !app_cons_assoc.
  - rewrite (Hcx (R ++ [x]) (child sv x) Hwc). cbn [fst snd store bind_entry].
    rewrite (set_entry_middle pre x _ _ l Hpre).
    rewrite and_then_unit, (app_cons_assoc pre), (IH Hc' Hwf' _ (Hnd' _)).
    now rewrite <- !app_cons_assoc.
Qed.

Lemma delete_files_closed root sv l :
  forall pre,
    NoDup (map fst (pre ++ l)) ->
    each_at (file_names l) (delete_file_at root sv) (Some (Dir (pre ++ l)))
    = (Ok tt,
       Some (Dir (pre ++ filter (fun e => is_dir (snd e) || present sv (fst e)) l)),
       map (fun f => DeletedFile (join root f))
           (filter (fun f => negb (present sv f)) (file_names l))).
Proof.
  unfold file_names.
  induction l as [|[x c] l IH]; intros pre Hnd; [reflexivity|].
  destruct (NoDup_middle pre x c l Hnd) as [Hpre Hl].
  assert (Hnd' : NoDup (map fst ((pre ++ [(x, c)]) ++ l))).
  { now rewrite <- app_cons_assoc. }
  cbn [filter fst snd]. destruct c as [r d|cs]; cbn [is_dir negb orb map filter fst].
  - cbn [each_at]. unfold delete_file_at at 1.
    destruct (child sv x) as [n|] eqn:E.
    + assert (Hp : present sv x = true) by (unfold present; now rewrite E).
      rewrite Hp. cbn [negb].
      rewrite and_then_unit, (app_cons_assoc pre), (IH _ Hnd').
      now rewrite <- !app_cons_assoc.
    + assert (Hp : present sv x = false) by (unfold present; now rewrite E).
      rewrite Hp. cbn [negb map].
      rewrite (assoc_middle pre x _ l Hpre), (del_entry_middle pre x _ l Hpre Hl).
      rewrite and_then_unit.
      assert (Hnd2 : NoDup (map fst (pre ++ l))).
      { rewrite map_app in *. cbn [map fst] in Hnd. now apply NoDup_remove_1 in Hnd. }
      now rewrite (IH _ Hnd2).
  - rewrite (app_cons_assoc pre), (IH _ Hnd'). now rewrite <- !app_cons_assoc.
Qed.

Lemma delete_directories_closed root sv l :
  forall pre,
    NoDup (map fst (pre ++ l)) ->
    each_at (dir_names l) (delete_directory_at root sv) (Some (Dir (pre ++ l)))
    = (Ok tt,
       Some (Dir (pre ++ filter (fun e => negb (is_dir (snd e)) || present sv (fst e)) l)),
       map (fun f => DeletedDirectory (join root f))
           (filter (fun f => negb (present sv f)) (dir_names l))).
Proof.
  unfold dir_names.
  induction l as [|[x c] l IH]; intros pre Hnd; [reflexivity|].
  destruct (NoDup_middle pre x c l Hnd) as [Hpre Hl].
  assert (Hnd' : NoDup (map fst ((pre ++ [(x, c)]) ++ l))).
  { now rewrite <- app_cons_assoc. }
  cbn [filter fst snd]. destruct c as [r d|cs]; cbn [is_dir negb orb map filter fst].
  - rewrite (app_cons_assoc pre), (IH _ Hnd'). now rewrite <- !app_cons_assoc.
  - cbn [each_at]. unfold delete_directory_at at 1.
    destruct (child sv x) as [n|] eqn:E.
    + assert (Hp : present sv x = true) by (unfold present; now rewrite E).
      rewrite Hp. cbn [negb].
      rewrite and_then_unit, (app_cons_assoc pre), (IH _ Hnd').
      now rewrite <- !app_cons_assoc.
    + assert (Hp : present sv x = false) by (unfold present; now rewrite E).
      rewrite Hp. cbn [negb map].
      rewrite (assoc_middle pre x _ l Hpre), (del_entry_middle pre x _ l Hpre Hl).
      rewrite and_then_unit.
      assert (Hnd2 : NoDup (map fst (pre ++ l))).
      { rewrite map_app in *. cbn [map fst] in Hnd. now apply NoDup_remove_1 in Hnd. }
      now rewrite (IH _ Hnd2).
Qed.

Lemma is_dir_pruned sv n : is_dir (pruned sv n) = is_dir n.
Proof. now destruct n. Qed.

Lemma map_fst_prune_entry sv l : map fst (map (prune_entry sv) l) = map fst l.
Proof. rewrite map_map. now apply map_ext. Qed.

Lemma file_names_prune_entry sv l : file_names (map (prune_entry sv) l) = file_names l.
Proof.
  unfold file_names. induction l as [|[x c] l IH]; [reflexivity|].
  cbn [map filter prune_entry fst snd]. rewrite is_dir_pruned.
  destruct (is_dir c); cbn [negb map fst]; now rewrite IH.
Qed.

Lemma dir_names_prune_entry sv l : dir_names (map (prune_entry sv) l) = dir_names l.
Proof.
  unfold dir_names. induction l as [|[x c] l IH]; [reflexivity|].
  cbn [map filter prune_entry fst snd]. rewrite is_dir_pruned.
  destruct (is_dir c); cbn [negb map fst]; now rewrite IH.
Qed.

Lemma dir_names_filter_keep (p : string * node -> bool) l :
  dir_names (filter (fun e => is_dir (snd e) || p e) l) = dir_names l.
Proof.
  unfold dir_names. induction l as [|[x c] l IH]; [reflexivity|].
  cbn [filter fst snd]. destruct (is_dir c) eqn:E; cbn [orb].
  - cbn [filter snd]. rewrite E. cbn [map]. now rewrite IH.
  - destruct (p (x, c)); [cbn [filter snd]; rewrite E|]; exact IH.
Qed.

Lemma NoDup_map_fst_filter {A} (p : string * A -> bool) l :
  NoDup (map fst l) -> NoDup (map fst (filter p l)).
Proof.
  induction l as [|[x c] l IH]; simpl; intros H; [constructor|].
  inversion H as [|? ? Hni Hnd]; subst.
  destruct (p (x, c)); [|now apply IH]. simpl. constructor; [|now apply IH].
  intros Hin. apply Hni. apply in_map_iff in Hin as (e & <- & He).
  apply filter_In in He as [He _]. apply in_map_iff. now exists e.
Qed.

Lemma filter_both_kinds (p : string * node -> bool) l :
  filter (fun e => negb (is_dir (snd e)) || p e)
         (filter (fun e => is_dir (snd e) || p e) l)
  = filter p l.
Proof.
  induction l as [|e l IH]; [reflexivity|]. cbn [filter].
  destruct (is_dir (snd e)) eqn:E, (p e) eqn:Ep; cbn [orb negb filter];
    rewrite ?E, ?Ep; cbn [orb negb]; now rewrite IH.
Qed.

(** On a well-formed directory the second loop raises nothing; it leaves
    [pruned] and logs [prune_events]. *)
Lemma prune_closed d : prune_closed_at d.
Proof.
  induction d as [r data|ds IH] using node_ind'; intros R sv Hwf; [reflexivity|].
  apply wf_dir in Hwf as [Hnd Hwf].
  rewrite prune_node_Dir.
  pose proof (prune_below_closed R sv ds IH Hwf [] Hnd) as Q1. cbn [app] in Q1.
  rewrite Q1, and_then_unit, <- (file_names_prune_entry sv ds).
  assert (Hnd1 : NoDup (map fst (map (prune_entry sv) ds)))
    by (now rewrite map_fst_prune_entry).
  pose proof (delete_files_closed (TopDest, R) sv (map (prune_entry sv) ds) [] Hnd1)
    as Q2. cbn [app] in Q2.
  rewrite Q2, and_then_unit.
  rewrite <- (dir_names_prune_entry sv ds).
  rewrite <- (dir_names_filter_keep (fun e => present sv (fst e))
                (map (prune_entry sv) ds)).
  pose proof (delete_directories_closed (TopDest, R) sv _ []
                (NoDup_map_fst_filter (fun e => is_dir (snd e) || present sv (fst e))
                   _ Hnd1)) as Q3.
  cbn [app] in Q3. rewrite Q3.
  rewrite (filter_both_kinds (fun e => present sv (fst e))).
  rewrite (dir_names_filter_keep (fun e => present sv (fst e))).
  rewrite file_names_prune_entry, dir_names_prune_entry.
  reflexivity.
Qed.

(* ================================================================= *)
(** * The second loop when the source has no directory at its root *)

Lemma prune_top_closed s T :
  wf_tree T = true ->
  prune_top s T
  = match T with
    | Some (Dir ds) =>
        (Ok tt, Some (pruned (lookup s [curdir]) (Dir ds)),
         prune_events [] (lookup s [curdir]) (Dir ds))
    | _ => (Ok tt, T, [])
    end.
Proof.
  intros HT. destruct T as [[r d|ds]|]; try reflexivity.
  unfold prune_top. now apply prune_closed.
Qed.

Lemma pruned_nothing ds : pruned None (Dir ds) = Dir [].
Proof.
  cbn [pruned]. f_equal. induction ds as [|e l IH]; [reflexivity|exact IH].
Qed.

Lemma prune_events_deletions d : forall R sv,
  Forall (fun e => is_deletion e = true) (prune_events R sv d).
Proof.
  induction d as [r data|ds IH] using node_ind'; intros R sv; [constructor|].
  cbn [prune_events]. apply Forall_app; split; [|apply Forall_app; split].
  - apply Forall_flat_map. eapply Forall_impl; [|exact IH].
    intros e He. apply He.
  - apply Forall_map. now apply Forall_forall.
  - apply Forall_map. now apply Forall_forall.
Qed.

Lemma sync_tree_without_source_directory s T :
  is_directory s = false -> wf_tree T = true ->
  exists evs,
    sync_tree s T = (Ok tt, emptied T, evs)
    /\ Forall (fun e => is_deletion e = true) evs.
Proof.
  intros Hs HT. unfold sync_tree.
  assert (Hm : mirror_top s T = (Ok tt, T, [])).
  { destruct s as [[r d|es]|]; [reflexivity|discriminate|reflexivity]. }
  assert (Hl : lookup s [curdir] = None).
  { destruct s as [[r d|es]|]; [reflexivity|discriminate|reflexivity]. }
  rewrite Hm, and_then_unit, (prune_top_closed s T HT), Hl.
  destruct T as [[r d|ds]|]; cbn [emptied app].
  - exists []. split; [reflexivity|constructor].
  - exists (prune_events [] None (Dir ds)). rewrite pruned_nothing.
    split; [reflexivity|apply prune_events_deletions].
  - exists []. split; [reflexivity|constructor].
Qed.

Lemma first_loop_without_source_directory s T L :
  is_directory s = false ->
  first_loop TopSource TopDest (World s T L) = (Ok tt, World s T L).
Proof.
  intros Hs. destruct s as [[r d|es]|]; [reflexivity|discriminate|reflexivity].
Qed.

Lemma sync_without_source_directory s T L :
  is_directory s = false -> wf_tree T = true ->
  first_loop TopSource TopDest (World s T L) = (Ok tt, World s T L)
  /\ exists evs,
       sync TopSource TopDest (World s T L) = (Ok tt, World s (emptied T) (L ++ evs))
       /\ Forall (fun e => is_deletion e = true) evs.
Proof.
  intros Hs HT. split; [now apply first_loop_without_source_directory|].
  destruct (sync_tree_without_source_directory s T Hs HT) as (evs & E & Hd).
  exists evs. split; [|exact Hd].
  rewrite sync_refines; [|now destruct s as [[r d|es]|]|exact HT].
  now rewrite E.
Qed.

(* ================================================================= *)
(** * The lines of the second loop *)

Lemma lookup_top s p : p <> [] -> lookup (lookup s [curdir]) p = lookup s p.
Proof.
  destruct p as [|x q]; [congruence|intros _].
  destruct s as [[r d|es]|]; reflexivity.
Qed.

Lemma assoc_pruned sv x ds :
  assoc x (filter (fun e => present sv (fst e)) (map (prune_entry sv) ds))
  = if present sv x
    then option_map (pruned (child sv x)) (assoc x ds)
    else None.
Proof.
  induction ds as [|[y c] l IH]; cbn [map].
  - now destruct (present sv x).
  - change (prune_entry sv (y, c)) with (y, pruned (child sv y) c).
    cbn [filter fst snd assoc]. destruct (String.eqb_spec x y) as [->|Hne].
    + destruct (present sv y) eqn:Ey; cbn [assoc].
      * now rewrite String.eqb_refl.
      * exact IH.
    + destruct (present sv y) eqn:Ey; cbn [assoc]; [|exact IH].
      destruct (String.eqb_spec x y); [contradiction|exact IH].
Qed.

Lemma child_pruned sv x ds :
  x <> curdir ->
  child (Some (pruned sv (Dir ds))) x
  = if present sv x
    then option_map (pruned (child sv x)) (assoc x ds)
    else None.
Proof.
  intros Hx. cbn [pruned]. rewrite child_name by exact Hx. apply assoc_pruned.
Qed.

Lemma lookup_pruned_absent q : forall d sv,
  names_ok q -> q <> [] -> lookup sv q = None ->
  lookup (Some (pruned sv d)) q = None.
Proof.
  induction q as [|x q IH]; intros d sv Hq Hne Hs; [congruence|].
  inversion Hq as [|? ? Hx Hq']; subst. cbn [lookup] in *.
  destruct d as [r data|ds]; [apply lookup_None|].
  rewrite (child_pruned sv x ds Hx). unfold present.
  destruct (child sv x) as [n|] eqn:E; [|apply lookup_None].
  destruct (assoc x ds) as [c|]; [|apply lookup_None]. cbn [option_map].
  destruct q as [|y q2]; [discriminate|]. apply IH; [exact Hq'|discriminate|exact Hs].
Qed.

Lemma prune_events_paths d : forall R sv e,
  In e (prune_events R sv d) ->
  exists q, q <> []
    /\ (e = DeletedFile (TopDest, R ++ q) \/ e = DeletedDirectory (TopDest, R ++ q)).
Proof.
  induction d as [r data|ds IH] using node_ind'; intros R sv e Hin; [destruct Hin|].
  cbn [prune_events] in Hin. rewrite !in_app_iff in Hin.
  destruct Hin as [Hin|[Hin|Hin]].
  - apply in_flat_map in Hin as (c & Hc & Hin).
    rewrite Forall_forall in IH.
    destruct (IH c Hc _ _ _ Hin) as (q & Hq & He).
    exists (fst c :: q). split; [discriminate|].
    rewrite <- app_assoc in He. exact He.
  - apply in_map_iff in Hin as (f & <- & _). exists [f]. split; [discriminate|now left].
  - apply in_map_iff in Hin as (f & <- & _). exists [f]. split; [discriminate|now right].
Qed.

Lemma deleted_file_logged q : forall d R sv r data,
  wf_node d = true -> names_ok q ->
  lookup (Some d) q = Some (File r data) -> lookup sv q = None -> q <> [] ->
  In (DeletedFile (TopDest, R ++ q)) (prune_events R sv d).
Proof.
  induction q as [|x q IH]; intros d R sv r data Hwf Hq Hd Hs Hne; [congruence|].
  inversion Hq as [|? ? Hx Hq']; subst. cbn [lookup] in *.
  destruct d as [r0 d0|ds]; [now rewrite lookup_None in Hd|].
  rewrite (child_name ds x Hx) in Hd.
  destruct (assoc x ds) as [c|] eqn:Ea; [|now rewrite lookup_None in Hd].
  apply assoc_Some_In in Ea. apply wf_dir in Hwf as [Hnd Hwf].
  cbn [prune_events]. rewrite !in_app_iff.
  destruct q as [|y q2].
  - right; left. cbn [lookup] in *. injection Hd as ->.
    apply in_map_iff. exists x. split; [reflexivity|].
    apply filter_In. split.
    + apply in_file_names. now exists r, data.
    + unfold present. now rewrite Hs.
  - left. apply in_flat_map. exists (x, c). split; [exact Ea|]. cbn [fst snd].
    rewrite (app_cons_assoc R x (y :: q2)).
    apply (IH c (R ++ [x]) (child sv x) r data); auto; try discriminate.
    exact (proj2 (wf_entry_in _ _ Hwf Ea)).
Qed.

Lemma count_occ_zero {A} (dec : forall a b : A, {a = b} + {a <> b}) l x :
  ~ In x l -> count_occ dec l x = 0.
Proof. apply count_occ_not_In. Qed.

Lemma count_occ_flat_map_zero {A B} (dec : forall a b : B, {a = b} + {a <> b})
    (f : A -> list B) l x :
  (forall a, In a l -> ~ In x (f a)) -> count_occ dec (flat_map f l) x = 0.
Proof.
  intros H. apply count_occ_not_In. intros Hin.
  apply in_flat_map in Hin as (a & Ha & Hx). exact (H a Ha Hx).
Qed.

Lemma snoc_path_neq (R : list string) x y q q' :
  x <> y -> R ++ x :: q <> R ++ y :: q'.
Proof. intros Hxy H. apply app_inv_head in H. congruence. Qed.

Lemma child_events_elsewhere R x q y c sv :
  x <> y ->
  ~ In (DeletedDirectory (TopDest, R ++ x :: q)) (prune_events (R ++ [y]) sv c).
Proof.
  intros Hxy Hin. apply prune_events_paths in Hin as (q' & _ & [He|He]);
    [discriminate|].
  injection He as He. rewrite <- app_assoc in He. cbn [app] in He.
  exact (snoc_path_neq R x y q q' Hxy He).
Qed.

Lemma deleted_directory_logged_once q : forall d R sv cs,
  wf_node d = true -> names_ok q -> q <> [] ->
  lookup (Some d) q = Some (Dir cs) -> lookup sv q = None ->
  count_occ event_eq_dec (prune_events R sv d) (DeletedDirectory (TopDest, R ++ q)) = 1.
Proof.
  induction q as [|x q IH]; intros d R sv cs Hwf Hq Hne Hd Hs; [congruence|].
  inversion Hq as [|? ? Hx Hq']; subst. cbn [lookup] in *.
  destruct d as [r0 d0|ds]; [now rewrite lookup_None in Hd|].
  rewrite (child_name ds x Hx) in Hd.
  destruct (assoc x ds) as [c|] eqn:Ea; [|now rewrite lookup_None in Hd].
  apply assoc_Some_In in Ea. apply wf_dir in Hwf as [Hnd Hwf].
  pose proof (wf_entry_in _ _ Hwf Ea) as [_ Hwc]. cbn [snd] in Hwc.
  cbn [prune_events]. rewrite !count_occ_app.
  (* the deleted files *)
  rewrite (count_occ_zero event_eq_dec (map _ (filter _ (file_names ds)))).
  2:{ intros Hin. apply in_map_iff in Hin as (f & Hf & _). discriminate. }
  destruct (in_split _ _ Ea) as (l1 & l2 & ->).
  destruct (NoDup_middle l1 x c l2 Hnd) as [Hl1 Hl2].
  assert (Hother : forall l, ~ In x (map fst l) ->
    count_occ event_eq_dec
      (flat_map (fun e => prune_events (R ++ [fst e]) (child sv (fst e)) (snd e)) l)
      (DeletedDirectory (TopDest, R ++ x :: q)) = 0).
  { intros l Hl. apply count_occ_flat_map_zero. intros [y c'] Hy. cbn [fst snd].
    apply child_events_elsewhere. intros ->. apply Hl. apply in_map_iff.
    now exists (y, c'). }
  rewrite flat_map_app. cbn [flat_map fst snd]. rewrite !count_occ_app.
  rewrite (Hother l1 Hl1), (Hother l2 Hl2).
  destruct q as [|y q2].
  - (* the directory is an entry of [d] *)
    cbn [lookup] in *. injection Hd as ->.
    rewrite (count_occ_zero event_eq_dec (prune_events _ _ _)).
    2:{ intros Hin. apply prune_events_paths in Hin as (q' & Hq'' & [He|He]);
          [discriminate|].
        injection He as He. rewrite <- app_assoc in He. apply app_inv_head in He.
        destruct q'; [congruence|discriminate]. }
    cbn [Nat.add].
    assert (Hinj : forall a b,
      DeletedDirectory (join (TopDest, R) a) = DeletedDirectory (join (TopDest, R) b)
      -> a = b).
    { intros a b H. injection H as H. apply app_inv_head in H. congruence. }
    pose proof (count_occ_map (fun f => DeletedDirectory (join (TopDest, R) f))
                  string_dec event_eq_dec Hinj x
                  (filter (fun f => negb (present sv f))
                     (dir_names (l1 ++ (x, Dir cs) :: l2)))) as Hc.
    cbn beta in Hc. unfold join, join_rel in *. cbn [fst snd] in *. rewrite <- Hc.
    apply NoDup_count_occ'.
    + apply NoDup_filter. unfold dir_names. now apply NoDup_map_fst_filter.
    + apply filter_In. split.
      * apply in_dir_names. exists cs. apply in_or_app. right. now left.
      * unfold present. now rewrite Hs.
  - (* the directory is deeper *)
    rewrite (app_cons_assoc R x (y :: q2)).
    rewrite (IH c (R ++ [x]) (child sv x) cs Hwc Hq'); auto; try discriminate.
    rewrite (count_occ_zero event_eq_dec (map _ (filter _ (dir_names _)))).
    2:{ intros Hin. apply in_map_iff in Hin as (f & Hf & _).
        injection Hf as Hf. rewrite <- app_assoc in Hf. apply app_inv_head in Hf.
        discriminate. }
    reflexivity.
Qed.

Lemma main_loop_body_ok w w' :
  sync TopSource TopDest w = (Ok tt, w') ->
  main_loop_body TopSource TopDest w
  = (Ok tt, World (source_tree w') (dest_tree w')
              (logfile w' ++ [SynchronizationCompleted])).
Proof. intros H. unfold main_loop_body. now rewrite H. Qed.

Lemma main_loop_body_raise w e w' :
  sync TopSource TopDest w = (Raise e, w') ->
  main_loop_body TopSource TopDest w
  = (Ok tt, World (source_tree w') (dest_tree w')
              (logfile w' ++ [Error e; SynchronizationCompleted])).
Proof.
  intros H. unfold main_loop_body. rewrite H. unfold bind, log. cbn.
  now rewrite <- app_assoc.
Qed.

(* ================================================================= *)
(** * Invariants of the loops *)


Lemma raises_and_then_first o k : raises o -> raises (and_then o k).
Proof. intros (e & t & evs & ->). now exists e, t, evs. Qed.

Lemma raises_and_then o k : (forall t, raises (k t)) -> raises (and_then o k).
Proof.
  intros Hk. destruct o as [[[a|e] t] evs]; [|now exists e, t, evs].
  destruct (Hk t) as (e & t' & evs' & E). simpl. rewrite E.
  now exists e, t', (evs ++ evs').
Qed.

(** An invariant of the node that every step of a loop keeps. *)
Lemma each_at_keeps {X} (I : option node -> Prop) (l : list X) body :
  (forall x t r t' e, In x l -> I t -> body x t = (r, t', e) -> I t') ->
  forall t r t' e, I t -> each_at l body t = (r, t', e) -> I t'.
Proof.
  induction l as [|x l IH]; intros Hb t r t' e Ht; cbn [each_at].
  - now intros [= _ <- _].
  - destruct (body x t) as [[[a|ex] t1] e1] eqn:E; simpl.
    + destruct (each_at l body t1) as [[r2 t2] e2] eqn:E2. intros [= _ <- _].
      eapply IH; [|eapply Hb; [now left|exact Ht|exact E]|exact E2].
      intros; eapply Hb; eauto. now right.
    + intros [= _ <- _]. eapply Hb; [now left|exact Ht|exact E].
Qed.

(** A loop raises when one of its steps does, whatever the node. *)
Lemma each_at_raises {X} (I : option node -> Prop) (l : list X) body x :
  In x l ->
  (forall y t r t' e, In y l -> I t -> body y t = (r, t', e) -> I t') ->
  (forall t, I t -> raises (body x t)) ->
  forall t, I t -> raises (each_at l body t).
Proof.
  induction l as [|y l IH]; intros Hin Hk Hx t Ht; [destruct Hin|].
  cbn [each_at]. destruct Hin as [->|Hin].
  - apply raises_and_then_first. now apply Hx.
  - destruct (body y t) as [[[a|ex] t1] e1] eqn:E; [|now exists ex, t1, e1].
    simpl. assert (Ht1 : I t1) by (eapply Hk; [now left|exact Ht|exact E]).
    destruct (IH Hin (fun y' t0 r t' e H => Hk y' t0 r t' e (or_intror H)) Hx t1 Ht1)
      as (e & t' & evs & ->).
    now exists e, t', (e1 ++ evs).
Qed.

(** A loop whose steps do nothing does nothing. *)
Lemma each_at_nothing {X} (l : list X) body t :
  (forall x, In x l -> body x t = (Ok tt, t, [])) ->
  each_at l body t = (Ok tt, t, []).
Proof.
  induction l as [|x l IH]; intros Hb; [reflexivity|].
  cbn [each_at]. rewrite (Hb x (or_introl eq_refl)), and_then_unit.
  rewrite IH; [reflexivity|]. intros; apply Hb; now right.
Qed.

(** An invariant kept by the steps that return, in a loop that returns. *)
Lemma each_at_keeps_ok {X} (I : option node -> Prop) (l : list X) body :
  (forall x t t' e, In x l -> I t -> body x t = (Ok tt, t', e) -> I t') ->
  forall t t' e, I t -> each_at l body t = (Ok tt, t', e) -> I t'.
Proof.
  induction l as [|x l IH]; intros Hb t t' e Ht; cbn [each_at].
  - now intros [= <- _].
  - intros H. apply and_then_ok in H as ([] & t1 & e1 & e2 & H1 & H2 & _).
    eapply IH; [|eapply Hb; [now left|exact Ht|exact H1]|exact H2].
    intros; eapply Hb; eauto. now right.
Qed.

(** What the steps that return establish, each for its own element,
    when the other steps keep it. *)
Lemma each_at_establishes {X} (key : X -> string) (Q : X -> option node -> Prop)
    (l : list X) body :
  NoDup (map key l) ->
  (forall x t t' e, In x l -> body x t = (Ok tt, t', e) -> Q x t') ->
  (forall x y t t' e, In x l -> In y l -> key x <> key y ->
     Q x t -> body y t = (Ok tt, t', e) -> Q x t') ->
  forall t t' e, each_at l body t = (Ok tt, t', e) -> forall x, In x l -> Q x t'.
Proof.
  induction l as [|y l IH]; intros Hnd Hq Hk t t' e H x Hin; [destruct Hin|].
  cbn [each_at] in H. apply and_then_ok in H as ([] & t1 & e1 & e2 & H1 & H2 & _).
  inversion Hnd as [|? ? Hni Hnd']; subst.
  destruct Hin as [->|Hin].
  - assert (Hx : Q x t1) by (eapply Hq; [now left|exact H1]).
    revert Hx H2.
    apply (each_at_keeps_ok (fun t => Q x t) l body).
    intros z t0 t0' e0 Hz Ht0 Ez.
    eapply (Hk x z); eauto; [now left|now right|].
    intros Heq. apply Hni. rewrite Heq. now apply in_map.
  - eapply IH; eauto.
    + intros; eapply Hq; eauto. now right.
    + intros x0 y0 ? ? ? Hx0 Hy0. apply Hk; now right.
Qed.

(* ================================================================= *)
(** * When the first loop raises *)

Lemma mirror_below_raises (I : option node -> Prop) R l x cs :
  NoDup (map fst l) ->
  In (x, Dir cs) l ->
  (forall t, I t -> raises (mirror_node (R ++ [x]) (Dir cs) (child t x))) ->
  (forall y c' t, y <> x -> I t -> I (store [y] c' t)) ->
  forall t, I t -> raises (mirror_below R l t).
Proof.
  induction l as [|[y c] l IH]; intros Hnd Hin Hx Hk t Ht; [destruct Hin|].
  inversion Hnd as [|? ? Hni Hnd']; subst. cbn [mirror_below].
  destruct Hin as [[= -> ->]|Hin].
  - apply raises_and_then_first.
    destruct (Hx t Ht) as (e & t' & evs & ->). now eexists _, _, _.
  - assert (Hyx : y <> x).
    { intros ->. apply Hni. apply in_map_iff. now exists (x, Dir cs). }
    destruct c as [r d|cs'].
    + rewrite and_then_unit.
      destruct (IH Hnd' Hin Hx Hk t Ht) as (e & t' & evs & ->). now eexists _, _, _.
    + destruct (mirror_node (R ++ [y]) (Dir cs') (child t y)) as [[[[]|ex] c'] e1].
      * rewrite and_then_unit.
        destruct (IH Hnd' Hin Hx Hk _ (Hk y c' t Hyx Ht)) as (e & t' & evs & ->).
        now eexists _, _, _.
      * now eexists _, _, _.
Qed.

Lemma lookup_dir_cons es x q n :
  x <> curdir -> lookup (Some (Dir es)) (x :: q) = Some n ->
  exists c, assoc x es = Some c /\ lookup (Some c) q = Some n.
Proof.
  intros Hx H. cbn [lookup] in H. rewrite (child_name es x Hx) in H.
  destruct (assoc x es) as [c|]; [now exists c|now rewrite lookup_None in H].
Qed.

Lemma lookup_cons_some t x q n :
  lookup t (x :: q) = Some n -> exists es, t = Some (Dir es).
Proof.
  destruct t as [[r d|es]|]; cbn [lookup child]; intros H;
    [now rewrite lookup_None in H|now exists es|now rewrite lookup_None in H].
Qed.

(** An unreadable file anywhere under the source makes the first loop
    raise, whatever the destination. *)
Lemma mirror_unreadable_raises q : forall s R t data,
  wf_node s = true -> names_ok q -> q <> [] ->
  lookup (Some s) q = Some (File false data) ->
  raises (mirror_node R s t).
Proof.
  induction q as [|x q IH]; intros s R t data Hwf Hq Hne Hs; [congruence|].
  inversion Hq as [|? ? Hx Hq']; subst.
  destruct (lookup_cons_some _ _ _ _ Hs) as (es & [= ->]).
  destruct (lookup_dir_cons es x q _ Hx Hs) as (c & Ha & Hc).
  apply wf_dir in Hwf as [Hnd Hwf]. apply assoc_Some_In in Ha.
  rewrite mirror_node_Dir.
  apply raises_and_then; intros t1. apply raises_and_then; intros t2.
  destruct q as [|y q2].
  - cbn [lookup] in Hc. injection Hc as ->.
    apply raises_and_then_first.
    apply (each_at_raises (fun _ => True) _ _ (x, false, data)); auto.
    + now apply in_file_entries.
    + intros t3 _. now eexists _, _, _.
  - apply raises_and_then; intros t3.
    destruct (lookup_cons_some _ _ _ _ Hc) as (cs & [= ->]).
    apply (mirror_below_raises (fun _ => True) R es x cs); auto.
    intros t4 _. apply (IH (Dir cs) _ _ data); auto; try discriminate.
    exact (proj2 (wf_entry_in _ _ Hwf Ha)).
Qed.

Lemma raises_and_then_if (I : option node -> Prop) o k :
  (forall a t e, o = (Ok a, t, e) -> I t) ->
  (forall t, I t -> raises (k t)) ->
  raises (and_then o k).
Proof.
  intros Ho Hk. destruct o as [[[a|e] t] evs]; [|now exists e, t, evs].
  destruct (Hk t (Ho a t evs eq_refl)) as (e & t' & evs' & E). simpl. rewrite E.
  now exists e, t', (evs ++ evs').
Qed.


Lemma create_directory_at_keeps_entry dr d x c0 t r t' e :
  has_entry x c0 t -> create_directory_at dr d t = (r, t', e) -> has_entry x c0 t'.
Proof.
  intros (ds & -> & Ha). unfold create_directory_at.
  destruct (assoc d ds) eqn:Ed; intros [= _ <- _]; [now exists ds|].
  eexists; split; [reflexivity|]. rewrite assoc_set_entry_other; [exact Ha|].
  intros ->. congruence.
Qed.

Lemma copy_or_replace_at_keeps_dir root dr f x c0 t r t' e :
  is_dir c0 = true ->
  has_entry x c0 t -> copy_or_replace_at root dr f t = (r, t', e) -> has_entry x c0 t'.
Proof.
  intros Hd (ds & -> & Ha). destruct f as [[file b] data]. unfold copy_or_replace_at.
  destruct b; cbn [negb]; [|intros [= _ <- _]; now exists ds].
  assert (Hset : forall v, assoc file ds <> Some c0 ->
                 has_entry x c0 (Some (Dir (set_entry file v ds)))).
  { intros v Hne. eexists; split; [reflexivity|].
    rewrite assoc_set_entry_other; [exact Ha|]. intros ->. congruence. }
  destruct (assoc file ds) as [[[|] old|ds1]|] eqn:Ef.
  - destruct (String.eqb _ _); intros [= _ <- _]; [now exists ds|].
    apply Hset. intros [= <-]. discriminate.
  - intros [= _ <- _]. now exists ds.
  - intros [= _ <- _]. now exists ds.
  - intros [= _ <- _]. apply Hset. discriminate.
Qed.

Lemma has_entry_store y c' x c0 t :
  y <> x -> has_entry x c0 t -> has_entry x c0 (store [y] c' t).
Proof.
  intros Hyx (ds & -> & Ha). cbn [store]. eexists; split; [reflexivity|].
  now rewrite assoc_bind_entry_other.
Qed.

Lemma has_entry_child x c0 t : x <> curdir -> has_entry x c0 t -> child t x = Some c0.
Proof. intros Hx (ds & -> & Ha). now rewrite child_name. Qed.

(** A directory of the destination where the source has a regular file
    makes the first loop raise. *)
Lemma mirror_conflict_raises q : forall s t0 R r data cs,
  wf_node s = true -> names_ok q -> q <> [] ->
  lookup (Some s) q = Some (File r data) ->
  lookup (Some t0) q = Some (Dir cs) ->
  raises (mirror_node R s (Some t0)).
Proof.
  induction q as [|x q IH]; intros s t0 R r data cs Hwf Hq Hne Hs Ht; [congruence|].
  inversion Hq as [|? ? Hx Hq']; subst.
  destruct (lookup_cons_some _ _ _ _ Hs) as (es & [= ->]).
  destruct (lookup_dir_cons es x q _ Hx Hs) as (c & Ha & Hc).
  destruct (lookup_cons_some _ _ _ _ Ht) as (ds & [= ->]).
  destruct (lookup_dir_cons ds x q _ Hx Ht) as (c0 & Ha0 & Hc0).
  assert (Hd0 : is_dir c0 = true).
  { destruct q; [cbn in Hc0; now injection Hc0 as ->|].
    now destruct (lookup_cons_some _ _ _ _ Hc0) as (? & [= ->]). }
  apply wf_dir in Hwf as [Hnd Hwf]. apply assoc_Some_In in Ha.
  rewrite mirror_node_Dir, and_then_unit.
  assert (H0 : has_entry x c0 (Some (Dir ds))) by (now exists ds).
  assert (raises
    (and_then (each_at (dir_names es) (create_directory_at (TopDest, rel R))
                 (Some (Dir ds)))
       (fun t => and_then
          (each_at (file_entries es)
             (copy_or_replace_at (TopSource, R) (TopDest, rel R)) t)
          (mirror_below R es)))) as (e & t' & evs & E).
  2:{ rewrite E. now eexists _, _, _. }
  apply (raises_and_then_if (has_entry x c0)).
  { intros a t e. apply (each_at_keeps (has_entry x c0)); auto.
    intros d t1 r1 t1' e1 _. apply create_directory_at_keeps_entry. }
  intros t1 H1.
  assert (Hkeep : forall f t r0 t'0 e0,
    In f (file_entries es) -> has_entry x c0 t ->
    copy_or_replace_at (TopSource, R) (TopDest, rel R) f t = (r0, t'0, e0) ->
    has_entry x c0 t'0).
  { intros f t r0 t'0 e0 _. now apply copy_or_replace_at_keeps_dir. }
  destruct q as [|y q2].
  - cbn [lookup] in Hc, Hc0. injection Hc as ->. injection Hc0 as ->.
    apply raises_and_then_first.
    apply (each_at_raises (has_entry x (Dir cs)) _ _ (x, r, data)); auto.
    + now apply in_file_entries.
    + intros t2 (ds2 & -> & Ha2). unfold copy_or_replace_at.
      destruct r; cbn [negb]; [rewrite Ha2|]; now eexists _, _, _.
  - apply (raises_and_then_if (has_entry x c0)).
    { intros a t e. now apply (each_at_keeps (has_entry x c0)). }
    intros t2 H2.
    destruct (lookup_cons_some _ _ _ _ Hc) as (cs1 & [= ->]).
    apply (mirror_below_raises (has_entry x c0) R es x cs1); auto.
    + intros t3 H3. rewrite (has_entry_child x c0 t3 Hx H3).
      apply (IH (Dir cs1) c0 _ r data cs); auto; try discriminate.
      exact (proj2 (wf_entry_in _ _ Hwf Ha)).
    + intros y' c' t3 Hy'. now apply has_entry_store.
Qed.

(* ================================================================= *)
(** * What the first loop leaves alone *)

Lemma and_then_keeps (I : option node -> Prop) o k r t' e :
  (forall r1 t1 e1, o = (r1, t1, e1) -> I t1) ->
  (forall t1 r2 t2 e2, I t1 -> k t1 = (r2, t2, e2) -> I t2) ->
  and_then o k = (r, t', e) -> I t'.
Proof.
  intros Ho Hk. destruct o as [[[a|ex] t1] e1]; simpl.
  - destruct (k t1) as [[r2 t2] e2] eqn:E. intros [= _ <- _].
    eapply Hk; [eapply Ho; reflexivity|exact E].
  - intros [= _ <- _]. eapply Ho; reflexivity.
Qed.

Lemma mirror_below_keeps (I : option node -> Prop) R l :
  (forall y cs t r c' e, In (y, Dir cs) l -> I t ->
     mirror_node (R ++ [y]) (Dir cs) (child t y) = (r, c', e) ->
     I (store [y] c' t)) ->
  forall t r t' e, I t -> mirror_below R l t = (r, t', e) -> I t'.
Proof.
  induction l as [|[y c] l IH]; intros Hk t r t' e Ht; cbn [mirror_below].
  - now intros [= _ <- _].
  - apply (and_then_keeps I).
    + intros r1 t1 e1. destruct c as [b d|cs]; [now intros [= _ <- _]|].
      destruct (mirror_node _ _ _) as [[r2 c'] e2] eqn:E. intros [= _ <- _].
      eapply Hk; [now left|exact Ht|exact E].
    + intros t1 r2 t2 e2 Ht1. apply IH; auto.
      intros; eapply Hk; eauto. now right.
Qed.

Lemma lookup_empty_dir q : names_ok q -> q <> [] -> lookup (Some (Dir [])) q = None.
Proof.
  intros Hq Hne. destruct q as [|x q]; [congruence|].
  inversion Hq; subst. cbn [lookup]. rewrite child_name by assumption.
  apply lookup_None.
Qed.

Lemma lookup_set_entry_other ds y v x q :
  x <> curdir -> y <> x ->
  lookup (Some (Dir (set_entry y v ds))) (x :: q) = lookup (Some (Dir ds)) (x :: q).
Proof.
  intros Hx Hyx. cbn [lookup]. rewrite !child_name by assumption.
  now rewrite assoc_set_entry_other.
Qed.

Lemma create_directory_at_frame dr d x q t r t' e :
  names_ok (x :: q) -> (d = x -> q <> []) ->
  create_directory_at dr d t = (r, t', e) ->
  lookup t' (x :: q) = lookup t (x :: q).
Proof.
  intros Hq Hd. inversion Hq as [|? ? Hx Hq']; subst. unfold create_directory_at.
  destruct t as [[b data|ds]|]; try (now intros [= _ <- _]).
  destruct (assoc d ds) eqn:Ed; intros [= _ <- _]; [reflexivity|].
  destruct (String.eqb_spec d x) as [->|Hne].
  - cbn [lookup]. rewrite !child_name by assumption.
    rewrite assoc_set_entry_same, Ed, lookup_None. now apply lookup_empty_dir, Hd.
  - now apply lookup_set_entry_other.
Qed.

Lemma copy_or_replace_at_frame root dr file b data x q t r t' e :
  x <> curdir -> (file = x -> b = false) ->
  copy_or_replace_at root dr (file, b, data) t = (r, t', e) ->
  lookup t' (x :: q) = lookup t (x :: q).
Proof.
  intros Hx Hf. unfold copy_or_replace_at.
  destruct b; cbn [negb]; [|now intros [= _ <- _]].
  assert (Hne : file <> x) by (intros H; now specialize (Hf H)).
  destruct t as [[b0 d0|ds]|]; try (now intros [= _ <- _]).
  destruct (assoc file ds) as [[[|] old|ds1]|] eqn:Ef.
  - destruct (String.eqb _ _); intros [= _ <- _]; [reflexivity|].
    now apply lookup_set_entry_other.
  - now intros [= _ <- _].
  - now intros [= _ <- _].
  - intros [= _ <- _]. now apply lookup_set_entry_other.
Qed.

Lemma lookup_store_child_other y c' t x q :
  x <> curdir -> y <> x -> lookup (store [y] c' t) (x :: q) = lookup t (x :: q).
Proof.
  intros Hx Hyx. destruct t as [[b d|ds]|]; try reflexivity.
  cbn [store lookup]. rewrite !child_name by assumption.
  now rewrite assoc_bind_entry_other.
Qed.

Lemma lookup_store_child_same c' t x q :
  x <> curdir -> q <> [] -> lookup c' q = lookup (child t x) q ->
  lookup (store [x] c' t) (x :: q) = lookup t (x :: q).
Proof.
  intros Hx Hq Hc. destruct t as [[b d|ds]|]; try reflexivity.
  cbn [store lookup]. rewrite child_name by assumption.
  now rewrite assoc_bind_entry_same.
Qed.

Lemma file_entry_unique es x b data b' data' :
  NoDup (map fst es) -> In (x, File b data) es -> In (x, b', data') (file_entries es) ->
  b' = b /\ data' = data.
Proof.
  intros Hnd H1 H2. apply in_file_entries in H2.
  apply (assoc_In _ _ _ Hnd) in H1. apply (assoc_In _ _ _ Hnd) in H2.
  split; congruence.
Qed.

(** The first loop changes nothing at the path of an unreadable file of
    the source. *)
Lemma mirror_unreadable_frame q : forall s R t data r t' evs,
  wf_node s = true -> names_ok q -> q <> [] ->
  lookup (Some s) q = Some (File false data) ->
  mirror_node R s t = (r, t', evs) ->
  lookup t' q = lookup t q.
Proof.
  induction q as [|x q IH]; intros s R t data r t' evs Hwf Hq Hne Hs; [congruence|].
  inversion Hq as [|? ? Hx Hq']; subst.
  destruct (lookup_cons_some _ _ _ _ Hs) as (es & [= ->]).
  destruct (lookup_dir_cons es x q _ Hx Hs) as (c & Ha & Hc).
  apply wf_dir in Hwf as [Hnd Hwf]. apply assoc_Some_In in Ha.
  rewrite mirror_node_Dir.
  set (I := fun t1 : option node => lookup t1 (x :: q) = lookup t (x :: q)).
  intros E0. change (I t'). revert E0.
  apply (and_then_keeps I).
  { intros r1 t1 e1. destruct t as [t0|]; intros [= _ <- _]; [reflexivity|].
    unfold I. rewrite lookup_None. now apply lookup_empty_dir. }
  intros t1 r1 t1' e1 H1. apply (and_then_keeps I).
  { intros r2 t2 e2. apply (each_at_keeps I); auto.
    intros d t3 r3 t3' e3 Hin H3 E. unfold I in *. rewrite <- H3.
    apply (create_directory_at_frame _ _ _ _ _ _ _ _ Hq) in E; auto.
    intros ->. intros ->. cbn [lookup] in Hc. injection Hc as ->.
    apply in_dir_names in Hin as (cs & Hin).
    pose proof (assoc_In _ _ _ Hnd Hin) as A1.
    pose proof (assoc_In _ _ _ Hnd Ha) as A2. congruence. }
  intros t2 r2 t2' e2 H2. apply (and_then_keeps I).
  { intros r3 t3 e3. apply (each_at_keeps I); auto.
    intros [[file b] data'] t4 r4 t4' e4 Hin H4 E. unfold I in *. rewrite <- H4.
    apply (copy_or_replace_at_frame _ _ _ _ _ x q _ _ _ _ Hx) in E; auto.
    intros ->. apply in_file_entries in Hin.
    pose proof (assoc_In _ _ _ Hnd Hin) as A1.
    pose proof (assoc_In _ _ _ Hnd Ha) as A2.
    rewrite A1 in A2. injection A2 as <-.
    destruct q; [cbn in Hc; congruence|].
    cbn [lookup child] in Hc. now rewrite lookup_None in Hc. }
  intros t3 r3 t3' e3 H3. apply (mirror_below_keeps I); auto.
  intros y cs t4 r4 c' e4 Hin H4 E. unfold I in *. rewrite <- H4.
  destruct (String.eqb_spec y x) as [->|Hyx].
  - pose proof (assoc_In _ _ _ Hnd Hin) as A1.
    pose proof (assoc_In _ _ _ Hnd Ha) as A2.
    rewrite A1 in A2. injection A2 as <-.
    assert (Hq2 : q <> []) by (intros ->; discriminate).
    apply lookup_store_child_same; auto.
    apply (IH (Dir cs) _ _ data _ _ _ (proj2 (wf_entry_in _ _ Hwf Ha)) Hq' Hq2 Hc E).
  - now apply lookup_store_child_other.
Qed.

(* ================================================================= *)
(** * A pass that stops in the first loop *)

Lemma sync_stops_in_first_loop s T L :
  wf_tree s = true ->
  raises (mirror_top s T) ->
  exists e T1 evs,
    mirror_top s T = (Raise e, T1, evs)
    /\ first_loop TopSource TopDest (World s T L) = (Raise e, World s T1 (L ++ evs))
    /\ sync TopSource TopDest (World s T L) = (Raise e, World s T1 (L ++ evs))
    /\ main_loop_body TopSource TopDest (World s T L)
       = (Ok tt, World s T1 ((L ++ evs) ++ [Error e; SynchronizationCompleted])).
Proof.
  intros Hs (e & T1 & evs & E). exists e, T1, evs.
  assert (H1 : first_loop TopSource TopDest (World s T L)
               = (Raise e, World s T1 (L ++ evs))).
  { rewrite (first_loop_refines s T L Hs), E. reflexivity. }
  assert (H2 : sync TopSource TopDest (World s T L)
               = (Raise e, World s T1 (L ++ evs))).
  { unfold sync, bind. now rewrite H1. }
  repeat split; auto. now rewrite (main_loop_body_raise _ _ _ H2).
Qed.

Lemma mirror_top_unreadable_raises s T p data :
  wf_tree s = true -> names_ok p -> p <> [] ->
  lookup s p = Some (File false data) ->
  raises (mirror_top s T).
Proof.
  intros Hs Hp Hne Hl. destruct p as [|x q]; [congruence|].
  destruct (lookup_cons_some _ _ _ _ Hl) as (es & ->).
  unfold mirror_top. destruct T as [[b d|ds]|]; [now eexists _, _, _| |];
    now apply (mirror_unreadable_raises (x :: q) (Dir es) [] _ data).
Qed.

Lemma mirror_top_unreadable_frame s T p data r T1 evs :
  wf_tree s = true -> names_ok p -> p <> [] ->
  lookup s p = Some (File false data) ->
  mirror_top s T = (r, T1, evs) ->
  lookup T1 p = lookup T p.
Proof.
  intros Hs Hp Hne Hl. destruct p as [|x q]; [congruence|].
  destruct (lookup_cons_some _ _ _ _ Hl) as (es & ->).
  unfold mirror_top. destruct T as [[b d|ds]|]; [now intros [= _ <- _]| |];
    now apply (mirror_unreadable_frame (x :: q) (Dir es) [] _ data).
Qed.

Lemma mirror_top_conflict_raises s T p r data cs :
  wf_tree s = true -> names_ok p -> p <> [] ->
  lookup s p = Some (File r data) ->
  lookup T p = Some (Dir cs) ->
  raises (mirror_top s T).
Proof.
  intros Hs Hp Hne Hl Ht. destruct p as [|x q]; [congruence|].
  destruct (lookup_cons_some _ _ _ _ Hl) as (es & ->).
  destruct (lookup_cons_some _ _ _ _ Ht) as (ds & ->).
  unfold mirror_top.
  now apply (mirror_conflict_raises (x :: q) (Dir es) (Dir ds) [] r data cs).
Qed.

(* ================================================================= *)
(** * Settled destinations *)

Lemma settled_Dir es t :
  settled (Dir es) t <-> Forall (fun e => placed (fst e) (snd e) (Some t)) es.
Proof.
  cbn [settled]. induction es as [|[x c] l IH]; [split; constructor|].
  split.
  - intros [H1 H2]. constructor; [|now apply IH].
    cbn [fst snd]. destruct t as [r d|ds]; [destruct H1|]. now exists ds.
  - intros H. inversion H as [|? ? (ds & [= ->] & H1) H2]; subst.
    split; [exact H1|now apply IH].
Qed.

Lemma placed_set_entry_other x c y v ds :
  y <> x -> placed x c (Some (Dir ds)) -> placed x c (Some (Dir (set_entry y v ds))).
Proof.
  intros Hyx (ds0 & [= <-] & H). eexists; split; [reflexivity|].
  destruct c; now rewrite assoc_set_entry_other.
Qed.

Lemma placed_store_other x c y c' t :
  y <> x -> placed x c t -> placed x c (store [y] c' t).
Proof.
  intros Hyx (ds & -> & H). cbn [store]. eexists; split; [reflexivity|].
  destruct c; now rewrite assoc_bind_entry_other.
Qed.

Lemma mirror_below_keeps_ok (I : option node -> Prop) R l :
  (forall y cs t c' e, In (y, Dir cs) l -> I t ->
     mirror_node (R ++ [y]) (Dir cs) (child t y) = (Ok tt, c', e) ->
     I (store [y] c' t)) ->
  forall t t' e, I t -> mirror_below R l t = (Ok tt, t', e) -> I t'.
Proof.
  induction l as [|[y c] l IH]; intros Hk t t' e Ht; cbn [mirror_below].
  - now intros [= <- _].
  - intros H. apply and_then_ok in H as ([] & t1 & e1 & e2 & H1 & H2 & _).
    eapply IH; [| |exact H2].
    + intros; eapply Hk; eauto. now right.
    + destruct c as [b d|cs]; [now injection H1 as <- _|].
      destruct (mirror_node _ _ _) as [[r2 c'] e3] eqn:E.
      injection H1 as -> <- _. eapply Hk; [now left|exact Ht|exact E].
Qed.

Lemma copy_or_replace_at_places root dr file b data t t' e :
  copy_or_replace_at root dr (file, b, data) t = (Ok tt, t', e) ->
  placed file (File b data) t'.
Proof.
  unfold copy_or_replace_at. destruct b; cbn [negb]; [|discriminate].
  destruct t as [[b0 d0|ds]|]; try discriminate.
  destruct (assoc file ds) as [[[|] old|ds1]|] eqn:Ef.
  - destruct (String.eqb_spec (md5_of data) (md5_of old)) as [Heq|Hne];
      intros [= <- _]; eexists; (split; [reflexivity|]); (split; [reflexivity|]).
    + exists old. split; assumption.
    + exists data. now rewrite assoc_set_entry_same.
  - discriminate.
  - discriminate.
  - intros [= <- _]. eexists; split; [reflexivity|]. split; [reflexivity|].
    exists data. now rewrite assoc_set_entry_same.
Qed.

Lemma copy_or_replace_at_keeps_placed root dr f x c t t' e :
  fst (fst f) <> x -> placed x c t ->
  copy_or_replace_at root dr f t = (Ok tt, t', e) -> placed x c t'.
Proof.
  destruct f as [[file b] data]. cbn [fst]. intros Hne (ds & -> & H).
  assert (H0 : placed x c (Some (Dir ds))) by now exists ds.
  unfold copy_or_replace_at. destruct b; cbn [negb]; [|discriminate].
  destruct (assoc file ds) as [[[|] old|ds1]|] eqn:Ef.
  - destruct (String.eqb _ _); intros [= <- _]; [exact H0|].
    now apply placed_set_entry_other.
  - discriminate.
  - discriminate.
  - intros [= <- _]. now apply placed_set_entry_other.
Qed.

Lemma files_placed root dr es t t' e :
  NoDup (map fst es) ->
  each_at (file_entries es) (copy_or_replace_at root dr) t = (Ok tt, t', e) ->
  forall x b data, In (x, File b data) es -> placed x (File b data) t'.
Proof.
  intros Hnd H x b data Hin. apply in_file_entries in Hin.
  refine (each_at_establishes (fun f : string * bool * list byte => fst (fst f))
            (fun f t => placed (fst (fst f)) (File (snd (fst f)) (snd f)) t)
            (file_entries es) (copy_or_replace_at root dr) _ _ _
            t t' e H (x, b, data) Hin).
  - rewrite <- file_names_entries. unfold file_names. now apply NoDup_map_fst_filter.
  - intros [[f b'] d'] u u' e' _. apply copy_or_replace_at_places.
  - intros f g u u' e' _ _ Hne Hq. apply copy_or_replace_at_keeps_placed; [|exact Hq].
    intros Heq. apply Hne. now rewrite Heq.
Qed.

Lemma mirror_step_child R y cs t c' r e x :
  child t y <> None ->
  mirror_node (R ++ [y]) (Dir cs) (child t y) = (r, c', e) ->
  child t x <> None -> child (store [y] c' t) x <> None.
Proof.
  intros Hy H Hx. destruct (child t y) as [c0|] eqn:Ey; [|congruence].
  destruct (mirror_node_extends (Dir cs) (R ++ [y]) c0) as (r' & c1 & e' & E & _ & _).
  rewrite E in H. injection H as _ <- _.
  destruct t as [t0|]; [|discriminate].
  destruct (extends_store_child t0 y c1 r e) as (r2 & t1 & e2 & E2 & _ & Hc).
  assert (E3 : store [y] (Some c1) (Some t0) = Some t1) by congruence.
  rewrite E3. now apply Hc.
Qed.


Lemma entry_kind_unique (es : list (string * node)) x c c' :
  NoDup (map fst es) -> In (x, c) es -> In (x, c') es -> c = c'.
Proof.
  intros Hnd H1 H2. apply (assoc_In _ _ _ Hnd) in H1, H2. congruence.
Qed.

Lemma mirror_below_settles R l :
  NoDup (map fst l) -> Forall wf_entry l ->
  Forall (fun e => mirror_settles_at (snd e)) l ->
  forall t t' e,
    (forall x cs, In (x, Dir cs) l -> child t x <> None) ->
    mirror_below R l t = (Ok tt, t', e) ->
    forall x cs, In (x, Dir cs) l -> placed x (Dir cs) t'.
Proof.
  induction l as [|[y c] l IH]; intros Hnd Hwf Hs t t' e Hch H x cs Hin;
    [destruct Hin|].
  cbn [mirror_below] in H.
  apply and_then_ok in H as ([] & t1 & e1 & e2 & H1 & H2 & _).
  inversion Hnd as [|? ? Hni Hnd']; subst.
  inversion Hwf as [|? ? [Hy Hwc] Hwf']; subst.
  inversion Hs as [|? ? Hsc Hs']; subst. cbn [fst snd] in *.
  destruct Hin as [[= -> ->]|Hin].
  - destruct (mirror_node (R ++ [x]) (Dir cs) (child t x)) as [[r2 c'] e3] eqn:E.
    injection H1 as -> <- _.
    assert (Hx : child t x <> None) by (apply (Hch x cs); now left).
    destruct t as [[b0 d0|ds]|]; try (simpl in Hx; congruence).
    rewrite child_name in E, Hx by exact Hy.
    destruct (assoc x ds) as [c0|] eqn:Ea; [|congruence].
    destruct (mirror_node_extends (Dir cs) (R ++ [x]) c0) as (r' & c1 & e' & E' & _ & _).
    rewrite E' in E. injection E as -> <- _.
    assert (Hp : placed x (Dir cs) (store [x] (Some c1) (Some (Dir ds)))).
    { cbn [store bind_entry]. eexists; split; [reflexivity|].
      exists c1. split; [apply assoc_set_entry_same|]. eapply Hsc; eauto. }
    revert Hp H2. apply (mirror_below_keeps_ok (placed x (Dir cs))).
    intros z zs t0 c2 e0 Hz Hp _. apply placed_store_other; [|exact Hp].
    intros ->. apply Hni. apply in_map_iff. now exists (x, Dir zs).
  - eapply IH; eauto. intros z zs Hz.
    assert (Hcz : child t z <> None) by (apply (Hch z zs); now right).
    destruct c as [b d|ys]; [now injection H1 as <- _|].
    destruct (mirror_node _ _ _) as [[r2 c'] e3] eqn:E. injection H1 as _ <- _.
    eapply mirror_step_child; eauto. apply (Hch y ys). now left.
Qed.

(** When the first loop returns, every file of the source has a readable
    file with its digest at the same place of the destination. *)
Lemma mirror_settles s : mirror_settles_at s.
Proof.
  induction s as [r data|es IH] using node_ind'; intros R t t1 evs Hwf H;
    [exact I|].
  apply settled_Dir. apply wf_dir in Hwf as [Hnd Hwf].
  rewrite mirror_node_Dir in H.
  apply and_then_ok in H as (a1 & ta & e1 & e2 & Ha & H & _).
  apply and_then_ok in H as ([] & tb & e3 & e4 & Hb & H & _).
  apply and_then_ok in H as ([] & tc & e5 & e6 & Hc & H & _).
  assert (exists t0, ta = Some t0) as [t0 ->]
    by (destruct t; injection Ha as _ <- _; eauto).
  pose proof (dirs_created _ _ _ _ _ Hb) as Hd.
  apply Forall_forall. intros [x c] Hin. cbn [fst snd].
  destruct c as [b data|cs].
  - pose proof (files_placed _ _ _ _ _ _ Hnd Hc x b data Hin) as Hp.
    revert Hp H. apply (mirror_below_keeps_ok (placed x (File b data))).
    intros z zs t2 c2 e0 Hz Hp _. apply placed_store_other; [|exact Hp].
    intros ->. now pose proof (entry_kind_unique _ _ _ _ Hnd Hin Hz).
  - eapply (mirror_below_settles R es); eauto.
    intros z zs Hz.
    assert (Hdz : child tb z <> None).
    { apply Hd. apply in_dir_names. now exists zs. }
    revert Hdz Hc. apply (each_at_keeps_ok (fun t => child t z <> None)).
    intros f t2 t2' e0 _ Ht2 Hf. destruct t2 as [t2|]; [|now destruct Ht2].
    destruct (copy_or_replace_at_extends (TopSource, R) (TopDest, rel R) f t2)
      as (r2 & t3 & e3' & E & _ & Hk).
    rewrite E in Hf. injection Hf as _ <- _. now apply Hk.
Qed.

(** On a settled destination the first loop does nothing. *)
Lemma settled_noop s : forall R t0,
  wf_node s = true -> settled s t0 ->
  mirror_node R s (Some t0) = (Ok tt, Some t0, []).
Proof.
  induction s as [r data|es IH] using node_ind'; intros R t0 Hwf Hs;
    [reflexivity|].
  apply settled_Dir in Hs. apply wf_dir in Hwf as [Hnd Hwf].
  rewrite mirror_node_Dir, and_then_unit.
  rewrite each_at_nothing.
  2:{ intros d Hin. apply in_dir_names in Hin as [cs Hin].
      pose proof (proj1 (Forall_forall _ _) Hs _ Hin) as (ds & [= ->] & c0 & Ha & _).
      cbn [fst] in Ha. unfold create_directory_at. now rewrite Ha. }
  rewrite and_then_unit, each_at_nothing.
  2:{ intros [[f b] data] Hin. apply in_file_entries in Hin.
      pose proof (proj1 (Forall_forall _ _) Hs _ Hin)
        as (ds & [= ->] & -> & old & Ha & Hm).
      cbn [fst] in Ha. unfold copy_or_replace_at. cbn [negb]. rewrite Ha.
      rewrite Hm, String.eqb_refl. reflexivity. }
  rewrite and_then_unit. cbn [app].
  enough (E : mirror_below R es (Some t0) = (Ok tt, Some t0, []))
    by (now rewrite E).
  clear Hnd. induction es as [|[x c] l IHl]; [reflexivity|].
  inversion IH as [|? ? Hc IH']; subst. inversion Hwf as [|? ? [Hx Hwc] Hwf']; subst.
  inversion Hs as [|? ? Hp Hs']; subst. cbn [fst snd] in *.
  cbn [mirror_below]. destruct c as [b d|cs].
  - rewrite and_then_unit, IHl; auto.
  - destruct Hp as (ds & [= ->] & c0 & Ha & Hsc).
    rewrite child_name by exact Hx. rewrite Ha, (Hc (R ++ [x]) c0 Hwc Hsc).
    cbn [store bind_entry]. rewrite (set_entry_assoc _ _ _ Ha), and_then_unit.
    rewrite IHl; auto.
Qed.

Lemma pruned_Dir sv ds :
  pruned sv (Dir ds)
  = Dir (filter (fun e => present sv (fst e)) (map (prune_entry sv) ds)).
Proof. reflexivity. Qed.

(** The second loop keeps a settled destination settled. *)
Lemma settled_pruned s : forall t,
  wf_node s = true -> settled s t -> settled s (pruned (Some s) t).
Proof.
  induction s as [r data|es IH] using node_ind'; intros t Hwf Hs; [exact I|].
  apply settled_Dir in Hs. apply settled_Dir.
  apply wf_dir in Hwf as [Hnd Hwf].
  apply Forall_forall. intros [x c] Hin. cbn [fst snd].
  pose proof (proj1 (Forall_forall _ _) Hs _ Hin) as (ds & [= ->] & Hp).
  pose proof (proj1 (Forall_forall _ _) IH _ Hin) as Hc.
  destruct (wf_entry_in _ _ Hwf Hin) as [Hx Hwc]. cbn [fst snd] in *.
  assert (Hch : child (Some (Dir es)) x = Some c).
  { rewrite child_name by exact Hx. now apply assoc_In. }
  rewrite pruned_Dir. eexists; split; [reflexivity|].
  rewrite assoc_pruned. unfold present. rewrite Hch.
  destruct c as [b data|cs].
  - destruct Hp as (-> & old & Ha & Hm). split; [reflexivity|].
    exists old. rewrite Ha. split; [reflexivity|exact Hm].
  - destruct Hp as (c0 & Ha & Hsc). exists (pruned (Some (Dir cs)) c0).
    rewrite Ha. split; [reflexivity|]. now apply Hc.
Qed.

(** A file of the source has its digest in a settled destination. *)
Lemma settled_lookup p : forall s t r data,
  settled s t -> names_ok p -> p <> [] ->
  lookup (Some s) p = Some (File r data) ->
  r = true
  /\ exists old, lookup (Some t) p = Some (File true old)
                 /\ md5_of data = md5_of old.
Proof.
  induction p as [|x q IH]; intros s t r data Hs Hp Hne Hl; [congruence|].
  inversion Hp as [|? ? Hx Hq]; subst.
  destruct s as [b d|es];
    [rewrite lookup_File in Hl by discriminate; discriminate|].
  apply settled_Dir in Hs. cbn [lookup] in Hl. rewrite child_name in Hl by exact Hx.
  destruct (assoc x es) as [c|] eqn:Ea; [|now rewrite lookup_None in Hl].
  apply assoc_Some_In in Ea.
  pose proof (proj1 (Forall_forall _ _) Hs _ Ea) as (ds & [= ->] & Hc).
  cbn [fst snd] in Hc. cbn [lookup]. rewrite child_name by exact Hx.
  destruct q as [|y q].
  - cbn [lookup] in *. injection Hl as ->.
    destruct Hc as (-> & old & Ha & Hm). split; [reflexivity|].
    exists old. split; assumption.
  - destruct c as [b d|cs];
      [rewrite lookup_File in Hl by discriminate; discriminate|].
    destruct Hc as (c0 & -> & Hsc).
    eapply IH; eauto. discriminate.
Qed.

(** Pruning twice is pruning once. *)
Lemma pruned_idem d : forall sv, pruned sv (pruned sv d) = pruned sv d.
Proof.
  induction d as [r data|ds IH] using node_ind'; intros sv; [reflexivity|].
  rewrite !pruned_Dir. f_equal.
  induction ds as [|[x c] l IHl]; [reflexivity|].
  inversion IH as [|? ? Hc IH']; subst. cbn [fst snd] in Hc.
  cbn [map]. unfold prune_entry at 2 4. cbn [fst snd filter].
  destruct (present sv x) eqn:E.
  - cbn [map]. unfold prune_entry at 1. cbn [fst snd filter]. rewrite E, Hc.
    f_equal. now apply IHl.
  - now apply IHl.
Qed.

(** The second loop has nothing to delete in what it left. *)
Lemma prune_events_pruned d : forall R sv, prune_events R sv (pruned sv d) = [].
Proof.
  induction d as [r data|ds IH] using node_ind'; intros R sv; [reflexivity|].
  rewrite pruned_Dir. cbn [prune_events].
  induction ds as [|[x c] l IHl]; [reflexivity|].
  inversion IH as [|? ? Hc IH']; subst. cbn [fst snd] in Hc.
  cbn [map]. unfold prune_entry at 1 3 5. cbn [fst snd filter].
  destruct (present sv x) eqn:E; [|now apply IHl].
  cbn [flat_map fst snd]. rewrite Hc. cbn [app].
  unfold file_names, dir_names in *. cbn [filter snd].
  destruct (is_dir (pruned (child sv x) c)); cbn [negb map filter fst];
    rewrite E; cbn [negb]; now apply IHl.
Qed.

Lemma prune_top_wf s T : wf_tree T = true -> keeps_wf (prune_top s T).
Proof.
  intros HT. destruct T as [[r d|ds]|]; try exact HT.
  unfold prune_top. now apply prune_node_wf.
Qed.

Lemma prune_top_dir s d :
  wf_node d = true -> is_dir d = true ->
  prune_top s (Some d)
  = (Ok tt, Some (pruned (lookup s [curdir]) d), prune_events [] (lookup s [curdir]) d).
Proof.
  intros Hd Hk. destruct d as [b x|ds]; [discriminate|].
  now rewrite prune_top_closed.
Qed.

Lemma mirror_top_dir es d :
  is_dir d = true -> mirror_top (Some (Dir es)) (Some d) = mirror_node [] (Dir es) (Some d).
Proof. intros Hk. destruct d as [b x|ds]; [discriminate|reflexivity]. Qed.

Lemma prune_top_again s T t1 evs :
  wf_tree T = true -> prune_top s T = (Ok tt, t1, evs) ->
  prune_top s t1 = (Ok tt, t1, []).
Proof.
  intros HT H. pose proof (prune_top_wf s T HT) as Hwf.
  rewrite H in Hwf. unfold keeps_wf in Hwf. cbn [fst snd] in Hwf.
  destruct T as [[r d|ds]|]; try (injection H as <- _; reflexivity).
  rewrite (prune_top_dir s (Dir ds) HT eq_refl) in H.
  assert (E : t1 = Some (pruned (lookup s [curdir]) (Dir ds))) by congruence.
  clear H. subst t1.
  rewrite prune_top_dir; [|exact Hwf|apply is_dir_pruned].
  now rewrite pruned_idem, prune_events_pruned.
Qed.

Lemma mirror_top_settles es T t2 e1 :
  wf_node (Dir es) = true ->
  mirror_top (Some (Dir es)) T = (Ok tt, t2, e1) ->
  exists ds2, t2 = Some (Dir ds2) /\ settled (Dir es) (Dir ds2).
Proof.
  intros Hs H. unfold mirror_top in H.
  assert (Hd : forall ds0 e, mirror_node [] (Dir es) (Some (Dir ds0)) = (Ok tt, t2, e) ->
            exists ds2, t2 = Some (Dir ds2) /\ settled (Dir es) (Dir ds2)).
  { intros ds0 e E.
    destruct (mirror_node_extends (Dir es) [] (Dir ds0)) as (r & t3 & e3 & E3 & Hk & _).
    rewrite E3 in E. injection E as -> <- _.
    destruct t3 as [b d|ds2]; [discriminate|]. exists ds2. split; [reflexivity|].
    eapply mirror_settles; eauto. }
  destruct T as [[r d|ds]|]; [discriminate|now apply (Hd ds e1)|].
  rewrite mirror_node_None in H.
  destruct (mirror_node [] (Dir es) (Some (Dir []))) as [[r t3] e3] eqn:E.
  injection H as -> -> _. now apply (Hd [] e3).
Qed.

(** A second pass has nothing to do. *)
Lemma sync_tree_again s T t1 evs :
  wf_tree s = true -> wf_tree T = true ->
  sync_tree s T = (Ok tt, t1, evs) ->
  wf_tree t1 = true /\ sync_tree s t1 = (Ok tt, t1, []).
Proof.
  intros Hs HT H. unfold sync_tree in H.
  apply and_then_ok in H as ([] & t2 & e1 & e2 & Hm & Hp & _).
  pose proof (mirror_top_wf s T Hs HT) as Hwf2.
  rewrite Hm in Hwf2. unfold keeps_wf in Hwf2. cbn [fst snd] in Hwf2.
  pose proof (prune_top_wf s t2 Hwf2) as Hwf1.
  rewrite Hp in Hwf1. unfold keeps_wf in Hwf1. cbn [fst snd] in Hwf1.
  split; [exact Hwf1|].
  pose proof (prune_top_again s t2 t1 e2 Hwf2 Hp) as Hagain.
  unfold sync_tree.
  enough (E : mirror_top s t1 = (Ok tt, t1, [])) by (now rewrite E, and_then_unit, Hagain).
  destruct s as [[r d|es]|]; try reflexivity.
  destruct (mirror_top_settles es T t2 e1 Hs Hm) as (ds2 & -> & Hset).
  rewrite (prune_top_dir _ (Dir ds2) Hwf2 eq_refl) in Hp.
  change (lookup (Some (Dir es)) [curdir]) with (Some (Dir es)) in Hp.
  assert (E : t1 = Some (pruned (Some (Dir es)) (Dir ds2))) by congruence.
  clear Hp Hagain Hwf1. subst t1.
  rewrite mirror_top_dir by apply is_dir_pruned.
  apply settled_noop; [exact Hs|]. now apply settled_pruned.
Qed.

Lemma sync_outcome s T L r w' :
  wf_tree s = true -> wf_tree T = true ->
  sync TopSource TopDest (World s T L) = (r, w') ->
  exists t1 evs, sync_tree s T = (r, t1, evs) /\ w' = World s t1 (L ++ evs).
Proof.
  intros Hs HT. rewrite (sync_refines s T L Hs HT).
  destruct (sync_tree s T) as [[r1 t1] evs]. unfold lifted.
  cbn [store source_tree logfile]. intros [= <- <-]. now exists t1, evs.
Qed.

(* ================================================================= *)
(** * Where the files of the destination come from *)


Lemma no_file_in_empty_dir p b old :
  names_ok p -> lookup (Some (Dir [])) p <> Some (File b old).
Proof.
  intros Hp. destruct p as [|x q]; [discriminate|].
  rewrite lookup_empty_dir; [discriminate|exact Hp|discriminate].
Qed.

Lemma set_entry_file_origin ds y v p b old :
  names_ok p ->
  lookup (Some (Dir (set_entry y v ds))) p = Some (File b old) ->
  lookup (Some (Dir ds)) p = Some (File b old)
  \/ exists q, p = y :: q /\ lookup (Some v) q = Some (File b old).
Proof.
  intros Hp H. destruct p as [|x q]; [discriminate|].
  inversion Hp as [|? ? Hx Hq]; subst.
  destruct (String.eqb_spec y x) as [->|Hne].
  - right. exists q. split; [reflexivity|].
    cbn [lookup] in H. rewrite child_name in H by exact Hx.
    now rewrite assoc_set_entry_same in H.
  - left. now rewrite lookup_set_entry_other in H.
Qed.

Lemma create_directory_at_file_origin dr d t r t' e p b old :
  names_ok p -> create_directory_at dr d t = (r, t', e) ->
  lookup t' p = Some (File b old) -> lookup t p = Some (File b old).
Proof.
  intros Hp. unfold create_directory_at.
  destruct t as [[b0 d0|ds]|]; try (now intros [= _ <- _]).
  destruct (assoc d ds) eqn:Ed; intros [= _ <- _]; [auto|].
  intros H. apply set_entry_file_origin in H as [H|(q & -> & H)]; [exact H| |exact Hp].
  inversion Hp; subst. now apply no_file_in_empty_dir in H.
Qed.

Lemma copy_or_replace_at_file_origin root dr f rb data t r t' e p b old :
  names_ok p -> copy_or_replace_at root dr (f, rb, data) t = (r, t', e) ->
  lookup t' p = Some (File b old) ->
  lookup t p = Some (File b old) \/ (p = [f] /\ old = data).
Proof.
  intros Hp. unfold copy_or_replace_at.
  destruct rb; cbn [negb]; [|intros [= _ <- _]; now left].
  destruct t as [[b0 d0|ds]|]; try (intros [= _ <- _]; now left).
  assert (Hset : lookup (Some (Dir (set_entry f (File true data) ds))) p
                 = Some (File b old) ->
                 lookup (Some (Dir ds)) p = Some (File b old) \/ (p = [f] /\ old = data)).
  { intros H. apply set_entry_file_origin in H as [H|(q & -> & H)];
      [now left| |exact Hp].
    right. destruct q as [|z q]; [injection H as _ <-; now split|].
    rewrite lookup_File in H by discriminate. discriminate. }
  destruct (assoc f ds) as [[[|] old0|ds1]|] eqn:Ef.
  - destruct (String.eqb _ _); intros [= _ <- _]; [now left|exact Hset].
  - intros [= _ <- _]; now left.
  - intros [= _ <- _]; now left.
  - intros [= _ <- _]. exact Hset.
Qed.

Lemma store_child_file_origin y c' t p b old :
  names_ok p -> lookup (store [y] c' t) p = Some (File b old) ->
  lookup t p = Some (File b old)
  \/ exists q, p = y :: q /\ lookup c' q = Some (File b old).
Proof.
  intros Hp H. destruct t as [[b0 d0|ds]|]; try (now left).
  destruct p as [|x q]; [discriminate|].
  inversion Hp as [|? ? Hx Hq]; subst.
  destruct (String.eqb_spec y x) as [->|Hne].
  - right. exists q. split; [reflexivity|].
    cbn [store lookup] in H. rewrite child_name in H by exact Hx.
    now rewrite assoc_bind_entry_same in H.
  - left. now rewrite lookup_store_child_other in H.
Qed.


(** A file that the first loop leaves in the destination was there
    before, or has the bytes of the source file of the same path. *)
Lemma mirror_file_origin s : file_origin_at s.
Proof.
  induction s as [rb data|es IH] using node_ind';
    intros R t r t' e p b old Hwf Hp H Hl.
  - injection H as _ <- _. now left.
  - apply wf_dir in Hwf as [Hnd Hwf].
    set (I := fun u : option node => forall p b old, names_ok p ->
                lookup u p = Some (File b old) ->
                lookup t p = Some (File b old)
                \/ exists rb, lookup (Some (Dir es)) p = Some (File rb old)).
    enough (HI : I t') by (now apply HI).
    clear p b old Hp Hl.
    rewrite mirror_node_Dir in H. revert H. apply (and_then_keeps I).
    { intros r1 t1 e1. destruct t as [t0|]; intros [= _ <- _].
      - intros p b old _ Hl. now left.
      - intros p b old Hp Hl. now apply no_file_in_empty_dir in Hl. }
    intros ta r2 t2 e2 Ha. apply (and_then_keeps I).
    { intros r1 t1 e1. apply (each_at_keeps I); [|exact Ha].
      intros d u r0 u' e0 _ Hu Hd p b old Hp Hl. apply Hu; [exact Hp|].
      eapply create_directory_at_file_origin; eauto. }
    intros tb r3 t3 e3 Hb. apply (and_then_keeps I).
    { intros r1 t1 e1. apply (each_at_keeps I); [|exact Hb].
      intros [[f fb] fdata] u r0 u' e0 Hin Hu Hf p b old Hp Hl.
      destruct (copy_or_replace_at_file_origin _ _ _ _ _ _ _ _ _ _ _ _ Hp Hf Hl)
        as [Hl'|[-> ->]]; [now apply Hu|].
      right. exists fb. apply in_file_entries in Hin.
      inversion Hp; subst. cbn [lookup]. rewrite child_name by assumption.
      now apply assoc_In. }
    intros tc r4 t4 e4 Hc. apply (mirror_below_keeps I); [|exact Hc].
    intros y cs u r0 c' e0 Hin Hu Hm p b old Hp Hl.
    destruct (store_child_file_origin _ _ _ _ _ _ Hp Hl) as [Hl'|(q & -> & Hl')];
      [now apply Hu|].
    inversion Hp as [|? ? Hy Hq]; subst.
    destruct (wf_entry_in _ _ Hwf Hin) as [_ Hwc]. cbn [snd] in Hwc.
    pose proof (proj1 (Forall_forall _ _) IH _ Hin) as Hch. cbn [snd] in Hch.
    destruct (Hch _ _ _ _ _ q b old Hwc Hq Hm Hl') as [Ho|[rb Ho]].
    + apply Hu; [exact Hp|exact Ho].
    + right. exists rb. cbn [lookup]. rewrite child_name by exact Hy.
      now rewrite (assoc_In _ _ _ Hnd Hin).
Qed.

(** A file that the second loop leaves was there before. *)
Lemma pruned_file_origin p : forall d sv b old,
  names_ok p -> lookup (Some (pruned sv d)) p = Some (File b old) ->
  lookup (Some d) p = Some (File b old).
Proof.
  induction p as [|x q IH]; intros d sv b old Hp H.
  - destruct d as [b0 d0|ds]; [exact H|discriminate].
  - destruct d as [b0 d0|ds]; [exact H|].
    inversion Hp as [|? ? Hx Hq]; subst.
    cbn [lookup] in *. rewrite child_pruned in H by exact Hx.
    rewrite child_name by exact Hx.
    destruct (present sv x); [|now rewrite lookup_None in H].
    destruct (assoc x ds) as [c|]; [|now rewrite lookup_None in H].
    cbn [option_map] in H. eapply IH; eauto.
Qed.

(* ================================================================= *)
(** * What the second loop keeps *)

Lemma lookup_pruned q : forall d sv,
  names_ok q -> (q <> [] -> lookup sv q <> None) ->
  lookup (Some (pruned sv d)) q = option_map (pruned (lookup sv q)) (lookup (Some d) q).
Proof.
  induction q as [|x q IH]; intros d sv Hq Hs; [reflexivity|].
  inversion Hq as [|? ? Hx Hq']; subst.
  destruct d as [b data|ds].
  - cbn [pruned]. rewrite lookup_File by discriminate. reflexivity.
  - cbn [lookup]. rewrite child_pruned by exact Hx.
    rewrite (child_name ds x Hx). unfold present.
    specialize (Hs ltac:(discriminate)). cbn [lookup] in Hs.
    destruct (child sv x) as [n|] eqn:E; [|now rewrite lookup_None in Hs].
    destruct (assoc x ds) as [c|]; cbn [option_map]; [|now rewrite !lookup_None].
    apply IH; [exact Hq'|]. intros _. exact Hs.
Qed.

Lemma lookup_prefix_exists q : forall (t : option node) x,
  lookup t (x :: q) <> None -> child t x <> None.
Proof.
  intros t x H E. cbn [lookup] in H. rewrite E, lookup_None in H. now apply H.
Qed.

(* ================================================================= *)
(** * What the lines of the second loop say *)

Lemma app_cons_inv (R : list string) q x q' :
  R ++ q = (R ++ [x]) ++ q' -> q = x :: q'.
Proof. rewrite <- app_assoc. intros H. now apply app_inv_head in H. Qed.

Lemma app_one_inv (R : list string) q f : R ++ [f] = R ++ q -> q = [f].
Proof. intros H. now apply app_inv_head in H. Qed.

(** A deletion line names an entry of its kind that the destination had
    and the source has not. *)
Lemma prune_events_sound d : forall R sv q,
  wf_node d = true -> names_ok q ->
  (In (DeletedFile (TopDest, R ++ q)) (prune_events R sv d) ->
     q <> [] /\ (exists b data, lookup (Some d) q = Some (File b data))
     /\ lookup sv q = None)
  /\ (In (DeletedDirectory (TopDest, R ++ q)) (prune_events R sv d) ->
        q <> [] /\ (exists cs, lookup (Some d) q = Some (Dir cs))
        /\ lookup sv q = None).
Proof.
  induction d as [r data|ds IH] using node_ind'; intros R sv q Hwf Hq;
    [split; intros []|].
  apply wf_dir in Hwf as [Hnd Hwf].
  assert (Hbelow : forall e,
    In e (flat_map (fun e => prune_events (R ++ [fst e]) (child sv (fst e)) (snd e)) ds) ->
    (e = DeletedFile (TopDest, R ++ q) \/ e = DeletedDirectory (TopDest, R ++ q)) ->
    exists x c q', In (x, c) ds /\ q = x :: q'
      /\ In e (prune_events (R ++ [x]) (child sv x) c)).
  { intros e He Hk. apply in_flat_map in He as ([x c] & Hin & He). cbn [fst snd] in He.
    destruct (prune_events_paths _ _ _ _ He) as (q' & _ & Hq').
    exists x, c, q'. split; [exact Hin|]. split; [|exact He].
    destruct Hk as [-> | ->], Hq' as [[= Hp]|[= Hp]]; now apply app_cons_inv in Hp. }
  assert (Hstep : forall x c q', In (x, c) ds -> q = x :: q' ->
    names_ok q' /\ wf_node c = true
    /\ lookup (Some (Dir ds)) q = lookup (Some c) q'
    /\ lookup sv q = lookup (child sv x) q').
  { intros x c q' Hin ->. inversion Hq as [|? ? Hx Hq']; subst.
    split; [exact Hq'|]. split; [exact (proj2 (wf_entry_in _ _ Hwf Hin))|].
    split; [|reflexivity]. cbn [lookup]. rewrite child_name by exact Hx.
    now rewrite (assoc_In _ _ _ Hnd Hin). }
  cbn [prune_events]. split; intros H.
  - apply in_app_or in H as [H|H]; [|apply in_app_or in H as [H|H]].
    + destruct (Hbelow _ H (or_introl eq_refl)) as (x & c & q' & Hin & E & He).
      destruct (Hstep x c q' Hin E) as (Hq' & Hwc & E1 & E2).
      pose proof (proj1 (Forall_forall _ _) IH _ Hin) as Hc. cbn [snd] in Hc.
      destruct (Hc (R ++ [x]) (child sv x) q' Hwc Hq') as [Hf _].
      rewrite E1, E2. subst q. rewrite <- app_assoc in Hf. cbn [app] in Hf.
      destruct (Hf He) as (_ & Hl & Hs). split; [discriminate|]. now split.
    + apply in_map_iff in H as (f & [= Hp] & Hf). apply app_one_inv in Hp. subst q.
      apply filter_In in Hf as [Hf Hpr].
      apply in_file_names in Hf as (r & data & Hin).
      inversion Hq as [|? ? Hx _]; subst.
      split; [discriminate|]. split.
      * exists r, data. cbn [lookup]. rewrite child_name by exact Hx.
        now apply assoc_In.
      * cbn [lookup]. unfold present in Hpr.
        destruct (child sv f); [discriminate|reflexivity].
    + apply in_map_iff in H as (f & [= ] & _).
  - apply in_app_or in H as [H|H]; [|apply in_app_or in H as [H|H]].
    + destruct (Hbelow _ H (or_intror eq_refl)) as (x & c & q' & Hin & E & He).
      destruct (Hstep x c q' Hin E) as (Hq' & Hwc & E1 & E2).
      pose proof (proj1 (Forall_forall _ _) IH _ Hin) as Hc. cbn [snd] in Hc.
      destruct (Hc (R ++ [x]) (child sv x) q' Hwc Hq') as [_ Hf].
      rewrite E1, E2. subst q. rewrite <- app_assoc in Hf. cbn [app] in Hf.
      destruct (Hf He) as (_ & Hl & Hs). split; [discriminate|]. now split.
    + apply in_map_iff in H as (f & [= ] & _).
    + apply in_map_iff in H as (f & [= Hp] & Hf). apply app_one_inv in Hp. subst q.
      apply filter_In in Hf as [Hf Hpr].
      apply in_dir_names in Hf as (cs & Hin).
      inversion Hq as [|? ? Hx _]; subst.
      split; [discriminate|]. split.
      * exists cs. cbn [lookup]. rewrite child_name by exact Hx.
        now apply assoc_In.
      * cbn [lookup]. unfold present in Hpr.
        destruct (child sv f); [discriminate|reflexivity].
Qed.

(* ================================================================= *)
(** * The shape of a completed pass *)

Lemma sync_completed es T L w' :
  wf_node (Dir es) = true -> wf_tree T = true ->
  sync TopSource TopDest (World (Some (Dir es)) T L) = (Ok tt, w') ->
  exists ds2 e1,
    mirror_node [] (Dir es) T = (Ok tt, Some (Dir ds2), e1)
    /\ wf_node (Dir ds2) = true
    /\ settled (Dir es) (Dir ds2)
    /\ w' = World (Some (Dir es)) (Some (pruned (Some (Dir es)) (Dir ds2)))
              (L ++ e1 ++ prune_events [] (Some (Dir es)) (Dir ds2)).
Proof.
  intros Hs HT H.
  destruct (sync_outcome (Some (Dir es)) T L (Ok tt) w' Hs HT H) as (t1 & evs & E & ->).
  unfold sync_tree in E.
  apply and_then_ok in E as ([] & t2 & e1 & e2 & Hm & Hp2 & ->).
  pose proof (mirror_top_wf (Some (Dir es)) T Hs HT) as Hwf2.
  rewrite Hm in Hwf2. unfold keeps_wf in Hwf2. cbn [fst snd] in Hwf2.
  destruct (mirror_top_settles es T t2 e1 Hs Hm) as (ds2 & -> & Hset).
  rewrite (prune_top_dir _ (Dir ds2) Hwf2 eq_refl) in Hp2.
  change (lookup (Some (Dir es)) [curdir]) with (Some (Dir es)) in Hp2.
  exists ds2, e1. split.
  { destruct T as [[b0 d0|ds0]|]; [discriminate|exact Hm|exact Hm]. }
  split; [exact Hwf2|]. split; [exact Hset|]. congruence.
Qed.

Lemma sync_completed_without_source_directory s T L w' p :
  is_directory s = false -> wf_tree T = true ->
  sync TopSource TopDest (World s T L) = (Ok tt, w') ->
  p <> [] -> names_ok p ->
  lookup s p = None /\ lookup (dest_tree w') p = None.
Proof.
  intros Hs HT H Hne Hp.
  destruct (sync_without_source_directory s T L Hs HT) as (_ & evs & E & _).
  rewrite E in H. injection H as <-. cbn [dest_tree]. split.
  - destruct s as [[b d|es]|]; [now apply lookup_File|discriminate|apply lookup_None].
  - destruct T as [[b d|ds]|]; cbn [emptied];
      [now apply lookup_File|now apply lookup_empty_dir|apply lookup_None].
Qed.

Lemma settled_lookup_some p : forall s t n,
  settled s t -> names_ok p -> p <> [] ->
  lookup (Some s) p = Some n ->
  exists n', lookup (Some t) p = Some n'
    /\ match n with
       | File _ _ => is_dir n' = false
       | Dir _ => settled n n'
       end.
Proof.
  induction p as [|x q IH]; intros s t n Hs Hp Hne Hl; [congruence|].
  inversion Hp as [|? ? Hx Hq]; subst.
  destruct s as [b d|es];
    [rewrite lookup_File in Hl by discriminate; discriminate|].
  apply settled_Dir in Hs. cbn [lookup] in Hl. rewrite child_name in Hl by exact Hx.
  destruct (assoc x es) as [c|] eqn:Ea; [|now rewrite lookup_None in Hl].
  apply assoc_Some_In in Ea.
  pose proof (proj1 (Forall_forall _ _) Hs _ Ea) as (ds & [= ->] & Hc).
  cbn [fst snd] in Hc. cbn [lookup]. rewrite child_name by exact Hx.
  destruct q as [|y q].
  - cbn [lookup] in *. injection Hl as ->. destruct n as [b d|cs].
    + destruct Hc as (_ & old & -> & _). now eexists.
    + destruct Hc as (c0 & -> & Hsc). now exists c0.
  - destruct c as [b d|cs];
      [rewrite lookup_File in Hl by discriminate; discriminate|].
    destruct Hc as (c0 & -> & Hsc).
    eapply IH; eauto. discriminate.
Qed.

Lemma settled_on_file es b d : settled (Dir es) (File b d) -> es = [].
Proof.
  intros H. apply settled_Dir in H. destruct es as [|e l]; [reflexivity|].
  inversion H as [|? ? (ds & [= ] & _) _].
Qed.

(* ================================================================= *)
(** * A destination that is the source *)

Lemma readable_Dir es : readable (Dir es) = true <-> Forall (fun e => readable (snd e) = true) es.
Proof.
  cbn [readable]. induction es as [|[x c] l IH]; [split; [constructor|reflexivity]|].
  split.
  - intros H. apply andb_prop in H as [H1 H2]. constructor; [exact H1|now apply IH].
  - intros H. inversion H as [|? ? H1 H2]; subst. cbn [snd] in H1.
    rewrite H1. now apply IH.
Qed.

Lemma settled_refl s : wf_node s = true -> readable s = true -> settled s s.
Proof.
  induction s as [r data|es IH] using node_ind'; intros Hwf Hr; [exact I|].
  apply settled_Dir. apply readable_Dir in Hr. apply wf_dir in Hwf as [Hnd Hwf].
  apply Forall_forall. intros [x c] Hin. cbn [fst snd].
  exists es. split; [reflexivity|].
  pose proof (assoc_In _ _ _ Hnd Hin) as Ha.
  pose proof (proj1 (Forall_forall _ _) Hr _ Hin) as Hrc. cbn [snd] in Hrc.
  destruct c as [b data|cs].
  - cbn [readable] in Hrc. subst b. split; [reflexivity|]. exists data. now split.
  - exists (Dir cs). split; [exact Ha|].
    apply (proj1 (Forall_forall _ _) IH _ Hin); [|exact Hrc].
    exact (proj2 (wf_entry_in _ _ Hwf Hin)).
Qed.

Lemma map_id_in {A} (f : A -> A) l : (forall a, In a l -> f a = a) -> map f l = l.
Proof.
  induction l as [|a l IH]; intros H; [reflexivity|]. cbn [map].
  rewrite (H a (or_introl eq_refl)), IH; [reflexivity|]. intros; apply H; now right.
Qed.

Lemma filter_all_in {A} (p : A -> bool) l : (forall a, In a l -> p a = true) -> filter p l = l.
Proof.
  induction l as [|a l IH]; intros H; [reflexivity|]. cbn [filter].
  rewrite (H a (or_introl eq_refl)), IH; [reflexivity|]. intros; apply H; now right.
Qed.

(** Nothing of a tree lacks a counterpart in the tree itself. *)
Lemma pruned_self s : wf_node s = true -> pruned (Some s) s = s.
Proof.
  induction s as [r data|es IH] using node_ind'; intros Hwf; [reflexivity|].
  apply wf_dir in Hwf as [Hnd Hwf]. rewrite pruned_Dir. f_equal.
  assert (Hch : forall x c, In (x, c) es -> child (Some (Dir es)) x = Some c).
  { intros x c Hin. rewrite child_name by exact (proj1 (wf_entry_in _ _ Hwf Hin)).
    now apply assoc_In. }
  rewrite map_id_in.
  - apply filter_all_in. intros [x c] Hin. unfold present. cbn [fst].
    now rewrite (Hch x c Hin).
  - intros [x c] Hin. unfold prune_entry. cbn [fst snd]. rewrite (Hch x c Hin).
    f_equal. apply (proj1 (Forall_forall _ _) IH _ Hin).
    exact (proj2 (wf_entry_in _ _ Hwf Hin)).
Qed.

Lemma sync_tree_of_identical_trees s :
  wf_tree s = true -> readable_tree s = true -> sync_tree s s = (Ok tt, s, []).
Proof.
  intros Hwf Hr. unfold sync_tree. destruct s as [[b d|es]|]; try reflexivity.
  rewrite (mirror_top_dir es (Dir es) eq_refl).
  rewrite (settled_noop (Dir es) [] (Dir es) Hwf (settled_refl _ Hwf Hr)).
  rewrite and_then_unit, (prune_top_dir _ (Dir es) Hwf eq_refl).
  change (lookup (Some (Dir es)) [curdir]) with (Some (Dir es)).
  pose proof (prune_events_pruned (Dir es) [] (Some (Dir es))) as E.
  rewrite (pruned_self (Dir es) Hwf) in E.
  now rewrite E, (pruned_self (Dir es) Hwf).
Qed.

(* ================================================================= *)
(** * What the first loop never does *)

Lemma keeps_entries_refl u : keeps_entries u u.
Proof. intros p n _ H. now exists n. Qed.

Lemma keeps_entries_trans u v w :
  keeps_entries u v -> keeps_entries v w -> keeps_entries u w.
Proof.
  intros H1 H2 p n Hp Hl. destruct (H1 p n Hp Hl) as (n1 & Hl1 & E1).
  destruct (H2 p n1 Hp Hl1) as (n2 & Hl2 & E2). exists n2. split; congruence.
Qed.

Lemma keeps_entries_None u : keeps_entries None u.
Proof. intros p n _ H. rewrite lookup_None in H. discriminate. Qed.

Lemma keeps_entries_set_entry ds x v :
  match assoc x ds with
  | Some c => is_dir c = false /\ is_dir v = false
  | None => True
  end ->
  keeps_entries (Some (Dir ds)) (Some (Dir (set_entry x v ds))).
Proof.
  intros Hx p n Hp Hl. destruct p as [|y q]; [injection Hl as <-; now eexists|].
  inversion Hp as [|? ? Hy Hq]; subst.
  destruct (String.eqb_spec x y) as [->|Hne].
  - cbn [lookup] in *. rewrite child_name in * by exact Hy.
    rewrite assoc_set_entry_same. destruct (assoc y ds) as [c|];
      [|now rewrite lookup_None in Hl].
    destruct Hx as [Hc Hv]. destruct c as [b d|cs]; [|discriminate].
    destruct q as [|z q]; [|rewrite lookup_File in Hl by discriminate; discriminate].
    injection Hl as <-. exists v. now split.
  - exists n. split; [|reflexivity]. now rewrite lookup_set_entry_other.
Qed.

Lemma create_directory_at_keeps_entries dr d t r t' e :
  create_directory_at dr d t = (r, t', e) -> keeps_entries t t'.
Proof.
  unfold create_directory_at.
  destruct t as [[b0 d0|ds]|]; try (intros [= _ <- _]; apply keeps_entries_refl).
  destruct (assoc d ds) eqn:Ed; intros [= _ <- _]; [apply keeps_entries_refl|].
  apply keeps_entries_set_entry. now rewrite Ed.
Qed.

Lemma copy_or_replace_at_keeps_entries root dr f t r t' e :
  copy_or_replace_at root dr f t = (r, t', e) -> keeps_entries t t'.
Proof.
  destruct f as [[file b] data]. unfold copy_or_replace_at.
  destruct b; cbn [negb]; [|intros [= _ <- _]; apply keeps_entries_refl].
  destruct t as [[b0 d0|ds]|]; try (intros [= _ <- _]; apply keeps_entries_refl).
  destruct (assoc file ds) as [[[|] old|ds1]|] eqn:Ef.
  - destruct (String.eqb _ _); intros [= _ <- _]; [apply keeps_entries_refl|].
    apply keeps_entries_set_entry. rewrite Ef. now split.
  - intros [= _ <- _]; apply keeps_entries_refl.
  - intros [= _ <- _]; apply keeps_entries_refl.
  - intros [= _ <- _]. apply keeps_entries_set_entry. now rewrite Ef.
Qed.

Lemma keeps_entries_store_child y c' u :
  keeps_entries (child u y) c' -> y <> curdir -> keeps_entries u (store [y] c' u).
Proof.
  intros Hc Hy p n Hp Hl. destruct u as [[b d|ds]|]; [now exists n| |now exists n].
  destruct p as [|x q]; [injection Hl as <-; now eexists|].
  inversion Hp as [|? ? Hx Hq]; subst.
  destruct (String.eqb_spec y x) as [->|Hne].
  - cbn [store lookup]. rewrite child_name by exact Hx.
    rewrite assoc_bind_entry_same. apply Hc; [exact Hq|exact Hl].
  - exists n. split; [|reflexivity]. now rewrite lookup_store_child_other.
Qed.

(** The first loop keeps every entry of the destination, with its kind,
    whether it returns or raises. *)
Lemma mirror_keeps_entries s : forall R t r t' e,
  wf_node s = true -> mirror_node R s t = (r, t', e) -> keeps_entries t t'.
Proof.
  induction s as [rb data|es IH] using node_ind'; intros R t r t' e Hwf H.
  - injection H as _ <- _. apply keeps_entries_refl.
  - apply wf_dir in Hwf as [Hnd Hwf]. rewrite mirror_node_Dir in H. revert H.
    apply (and_then_keeps (keeps_entries t)).
    { intros r1 t1 e1. destruct t as [t0|]; intros [= _ <- _];
        [apply keeps_entries_refl|apply keeps_entries_None]. }
    intros ta r2 t2 e2 Ha. apply (and_then_keeps (keeps_entries t)).
    { intros r1 t1 e1. apply (each_at_keeps (keeps_entries t)); [|exact Ha].
      intros d u r0 u' e0 _ Hu Hd. eapply keeps_entries_trans; [exact Hu|].
      eapply create_directory_at_keeps_entries; eauto. }
    intros tb r3 t3 e3 Hb. apply (and_then_keeps (keeps_entries t)).
    { intros r1 t1 e1. apply (each_at_keeps (keeps_entries t)); [|exact Hb].
      intros f u r0 u' e0 _ Hu Hf. eapply keeps_entries_trans; [exact Hu|].
      eapply copy_or_replace_at_keeps_entries; eauto. }
    intros tc r4 t4 e4 Hc. apply (mirror_below_keeps (keeps_entries t)); [|exact Hc].
    intros y cs u r0 c' e0 Hin Hu Hm. eapply keeps_entries_trans; [exact Hu|].
    destruct (wf_entry_in _ _ Hwf Hin) as [Hy Hwc]. cbn [fst snd] in Hy, Hwc.
    apply keeps_entries_store_child; [|exact Hy].
    exact (proj1 (Forall_forall _ _) IH _ Hin _ _ _ _ _ Hwc Hm).
Qed.

Lemma and_then_events (P : event -> Prop) o k r t e :
  (forall r1 t1 e1, o = (r1, t1, e1) -> Forall P e1) ->
  (forall t1 r2 t2 e2, k t1 = (r2, t2, e2) -> Forall P e2) ->
  and_then o k = (r, t, e) -> Forall P e.
Proof.
  intros Ho Hk. destruct o as [[[a|ex] t1] e1]; simpl.
  - destruct (k t1) as [[r2 t2] e2] eqn:E. intros [= _ _ <-].
    apply Forall_app. split; [eapply Ho; reflexivity|eapply Hk; exact E].
  - intros [= _ _ <-]. eapply Ho; reflexivity.
Qed.

Lemma each_at_events {X} (P : event -> Prop) (l : list X) body :
  (forall x t r t' e, In x l -> body x t = (r, t', e) -> Forall P e) ->
  forall t r t' e, each_at l body t = (r, t', e) -> Forall P e.
Proof.
  induction l as [|x l IH]; intros Hb t r t' e; cbn [each_at].
  - intros [= _ _ <-]. constructor.
  - apply and_then_events.
    + intros r1 t1 e1 E. eapply Hb; [now left|exact E].
    + intros t1 r2 t2 e2. apply IH. intros; eapply Hb; eauto. now right.
Qed.

Lemma mirror_below_events (P : event -> Prop) R l :
  (forall y cs t r c' e, In (y, Dir cs) l ->
     mirror_node (R ++ [y]) (Dir cs) (child t y) = (r, c', e) -> Forall P e) ->
  forall t r t' e, mirror_below R l t = (r, t', e) -> Forall P e.
Proof.
  induction l as [|[y c] l IH]; intros Hk t r t' e; cbn [mirror_below].
  - intros [= _ _ <-]. constructor.
  - apply and_then_events.
    + intros r1 t1 e1. destruct c as [b d|cs]; [intros [= _ _ <-]; constructor|].
      destruct (mirror_node _ _ _) as [[r2 c'] e2] eqn:E. intros [= _ _ <-].
      eapply Hk; [now left|exact E].
    + intros t1 r2 t2 e2. apply IH. intros; eapply Hk; eauto. now right.
Qed.

(** The first loop logs creations and copies only. *)
Lemma mirror_events_additions s : forall R t r t' e,
  mirror_node R s t = (r, t', e) -> Forall (fun ev => is_addition ev = true) e.
Proof.
  induction s as [rb data|es IH] using node_ind'; intros R t r t' e H.
  - injection H as _ _ <-. constructor.
  - rewrite mirror_node_Dir in H. revert H. apply and_then_events.
    { intros r1 t1 e1. destruct t as [t0|]; intros [= _ _ <-]; repeat constructor. }
    intros ta r2 t2 e2. apply and_then_events.
    { intros r1 t1 e1. apply each_at_events. intros d u r0 u' e0 _.
      unfold create_directory_at. destruct u as [[b0 d0|ds]|];
        try (intros [= _ _ <-]; constructor).
      destruct (assoc d ds); intros [= _ _ <-]; repeat constructor. }
    intros tb r3 t3 e3. apply and_then_events.
    { intros r1 t1 e1. apply each_at_events. intros [[f b] fd] u r0 u' e0 _.
      unfold copy_or_replace_at. destruct b; cbn [negb];
        [|intros [= _ _ <-]; constructor].
      destruct u as [[b0 d0|ds]|]; try (intros [= _ _ <-]; constructor).
      destruct (assoc f ds) as [[[|] old|ds1]|].
      - destruct (String.eqb _ _); intros [= _ _ <-]; repeat constructor.
      - intros [= _ _ <-]; constructor.
      - intros [= _ _ <-]; constructor.
      - intros [= _ _ <-]; repeat constructor. }
    intros tc r4 t4 e4. apply mirror_below_events.
    intros y cs u r0 c' e0 Hin Hm.
    exact (proj1 (Forall_forall _ _) IH _ Hin _ _ _ _ _ Hm).
Qed.

Lemma mirror_top_events_additions s T r T1 e :
  mirror_top s T = (r, T1, e) -> Forall (fun ev => is_addition ev = true) e.
Proof.
  unfold mirror_top. destruct s as [[b d|es]|]; try (intros [= _ _ <-]; constructor).
  destruct T as [[b d|ds]|]; [intros [= _ _ <-]; constructor| |];
    apply mirror_events_additions.
Qed.

Lemma addition_is_no_deletion l :
  Forall (fun ev => is_addition ev = true) l ->
  Forall (fun ev => is_deletion ev = false) l.
Proof. apply Forall_impl. now intros []. Qed.

Lemma mirror_top_keeps_entries s T r T1 e :
  wf_tree s = true -> mirror_top s T = (r, T1, e) -> keeps_entries T T1.
Proof.
  intros Hs. unfold mirror_top.
  destruct s as [[b d|es]|]; try (intros [= _ <- _]; apply keeps_entries_refl).
  destruct T as [[b d|ds]|]; [intros [= _ <- _]; apply keeps_entries_refl| |];
    now apply mirror_keeps_entries.
Qed.

Lemma sync_tree_events s T r t1 evs :
  wf_tree s = true -> wf_tree T = true ->
  sync_tree s T = (r, t1, evs) ->
  exists adds dels,
    evs = adds ++ dels
    /\ Forall (fun ev => is_addition ev = true) adds
    /\ Forall (fun ev => is_deletion ev = true) dels
    /\ (forall e, r = Raise e -> dels = []).
Proof.
  intros Hs HT. unfold sync_tree.
  pose proof (mirror_top_wf s T Hs HT) as Hwf1.
  destruct (mirror_top s T) as [[[[]|e] T1] e1] eqn:E;
    unfold keeps_wf in Hwf1; cbn [fst snd] in Hwf1.
  - rewrite and_then_unit, (prune_top_closed s T1 Hwf1).
    pose proof (mirror_top_events_additions s T _ _ _ E) as Ha.
    destruct T1 as [[b d|ds]|]; intros [= <- _ <-].
    + exists e1, []. split; [reflexivity|]. split; [exact Ha|]. split; [constructor|discriminate].
    + exists e1, (prune_events [] (lookup s [curdir]) (Dir ds)).
      split; [reflexivity|]. split; [exact Ha|]. split; [apply prune_events_deletions|discriminate].
    + exists e1, []. split; [reflexivity|]. split; [exact Ha|]. split; [constructor|discriminate].
  - cbn [and_then]. intros [= <- _ <-]. exists e1, [].
    rewrite app_nil_r. split; [reflexivity|].
    split; [exact (mirror_top_events_additions s T _ _ _ E)|].
    split; [constructor|reflexivity].
Qed.

(* ================================================================= *)
(** * When the first loop returns *)

Lemma compatible_Dir es t :
  compatible (Dir es) t
  = match t with
    | Some (File _ _) => match es with [] => true | _ :: _ => false end
    | _ => forallb (entry_compatible t) es
    end.
Proof.
  cbn [compatible]. destruct t as [[b d|ds]|]; [reflexivity| |];
    (induction es as [|[x c] l IH]; [reflexivity|]);
    cbn [forallb]; unfold entry_compatible at 1; cbn [fst snd];
    rewrite <- IH; destruct c; reflexivity.
Qed.

Lemma returns_and_then o k :
  returns (and_then o k)
  = match o with
    | (Ok _, t, _) => returns (k t)
    | (Raise _, _, _) => false
    end.
Proof.
  destruct o as [[[a|e] t] evs]; simpl; [|reflexivity].
  now destruct (k t) as [[[a'|e'] t'] evs'].
Qed.

Lemma or_empty_dir_idem c : or_empty_dir (or_empty_dir c) = or_empty_dir c.
Proof. now destruct c. Qed.

(** The loop of the subdirectories returns; it adds an empty directory
    for the names that had no entry. *)
Lemma dirs_loop_closed dr dirs : forall ds0, exists ds1 e,
  each_at dirs (create_directory_at dr) (Some (Dir ds0)) = (Ok tt, Some (Dir ds1), e)
  /\ forall x, assoc x ds1
               = if existsb (String.eqb x) dirs then or_empty_dir (assoc x ds0)
                 else assoc x ds0.
Proof.
  induction dirs as [|d r IH]; intros ds0.
  - exists ds0, []. split; reflexivity.
  - cbn [each_at]. unfold create_directory_at at 1.
    assert (Hstep : exists ds' e',
              (match assoc d ds0 with
               | Some _ => (Ok tt, Some (Dir ds0), [])
               | None => (Ok tt, Some (Dir (set_entry d (Dir []) ds0)),
                          [CreatedDirectory (join dr d)])
               end : result unit * option node * list event)
              = (Ok tt, Some (Dir ds'), e')
              /\ forall x, assoc x ds'
                           = if String.eqb x d then or_empty_dir (assoc x ds0)
                             else assoc x ds0).
    { destruct (assoc d ds0) as [c|] eqn:Ed.
      - exists ds0, []. split; [reflexivity|]. intros x.
        destruct (String.eqb_spec x d) as [->|Hne]; [now rewrite Ed|reflexivity].
      - exists (set_entry d (Dir []) ds0), [CreatedDirectory (join dr d)].
        split; [reflexivity|]. intros x.
        destruct (String.eqb_spec x d) as [->|Hne].
        + now rewrite assoc_set_entry_same, Ed.
        + apply assoc_set_entry_other. congruence. }
    destruct Hstep as (ds' & e' & -> & Hds').
    destruct (IH ds') as (ds1 & e1 & E1 & Hds1).
    rewrite and_then_unit, E1. exists ds1, (e' ++ e1). split; [reflexivity|].
    intros x. rewrite Hds1, Hds'. cbn [existsb].
    destruct (String.eqb x d), (existsb (String.eqb x) r); cbn [orb];
      now rewrite ?or_empty_dir_idem.
Qed.

Lemma copy_or_replace_at_returns root dr f ds :
  returns (copy_or_replace_at root dr f (Some (Dir ds))) = file_compatible ds f.
Proof.
  destruct f as [[file b] data]. unfold copy_or_replace_at, file_compatible.
  cbn [fst snd]. destruct b; cbn [negb andb]; [|reflexivity].
  destruct (assoc file ds) as [[[|] old|ds1]|]; try reflexivity.
  now destruct (String.eqb _ _).
Qed.

Lemma copy_or_replace_at_frame_assoc root dr f ds r t' e :
  copy_or_replace_at root dr f (Some (Dir ds)) = (r, t', e) ->
  exists ds', t' = Some (Dir ds')
    /\ forall x, x <> fst (fst f) -> assoc x ds' = assoc x ds.
Proof.
  destruct f as [[file b] data]. unfold copy_or_replace_at. cbn [fst].
  assert (Hsame : exists ds', Some (Dir ds) = Some (Dir ds')
            /\ forall x, x <> file -> assoc x ds' = assoc x ds) by (now exists ds).
  assert (Hset : forall v, exists ds', Some (Dir (set_entry file v ds)) = Some (Dir ds')
            /\ forall x, x <> file -> assoc x ds' = assoc x ds).
  { intros v. eexists; split; [reflexivity|]. intros x Hx.
    apply assoc_set_entry_other. congruence. }
  destruct b; cbn [negb]; [|intros [= _ <- _]; exact Hsame].
  destruct (assoc file ds) as [[[|] old|ds1]|].
  - destruct (String.eqb _ _); intros [= _ <- _]; [exact Hsame|apply Hset].
  - intros [= _ <- _]; exact Hsame.
  - intros [= _ <- _]; exact Hsame.
  - intros [= _ <- _]; apply Hset.
Qed.

Lemma files_loop_frame root dr l : forall ds r t' e,
  each_at l (copy_or_replace_at root dr) (Some (Dir ds)) = (r, t', e) ->
  exists ds', t' = Some (Dir ds')
    /\ forall x, ~ In x (map (fun f => fst (fst f)) l) -> assoc x ds' = assoc x ds.
Proof.
  intros ds r t' e.
  apply (each_at_keeps (fun t => exists ds', t = Some (Dir ds')
           /\ forall x, ~ In x (map (fun f => fst (fst f)) l) ->
                assoc x ds' = assoc x ds)); [|now exists ds].
  intros f u r0 u' e0 Hin (ds1 & -> & H1) E.
  destruct (copy_or_replace_at_frame_assoc _ _ _ _ _ _ _ E) as (ds2 & -> & H2).
  exists ds2. split; [reflexivity|]. intros x Hx. rewrite H2, H1; auto.
  intros ->. apply Hx. apply in_map_iff. now exists f.
Qed.

Lemma file_compatible_ext ds ds' f :
  assoc (fst (fst f)) ds' = assoc (fst (fst f)) ds ->
  file_compatible ds' f = file_compatible ds f.
Proof. unfold file_compatible. now intros ->. Qed.

Lemma forallb_ext_in {A} (f g : A -> bool) l :
  (forall a, In a l -> f a = g a) -> forallb f l = forallb g l.
Proof.
  induction l as [|a l IH]; intros H; [reflexivity|]. cbn [forallb].
  rewrite (H a (or_introl eq_refl)), IH; [reflexivity|]. intros; apply H; now right.
Qed.

(** The loop of the files returns exactly when every file can be copied. *)
Lemma files_loop_returns root dr l :
  NoDup (map (fun f : string * bool * list byte => fst (fst f)) l) ->
  forall ds,
    returns (each_at l (copy_or_replace_at root dr) (Some (Dir ds)))
    = forallb (file_compatible ds) l.
Proof.
  induction l as [|f l IH]; intros Hnd ds; [reflexivity|].
  inversion Hnd as [|? ? Hni Hnd']; subst.
  cbn [each_at forallb]. rewrite returns_and_then.
  rewrite <- (copy_or_replace_at_returns root dr f ds).
  destruct (copy_or_replace_at root dr f (Some (Dir ds))) as [[[a|ex] t1] e1] eqn:E;
    [|reflexivity].
  destruct (copy_or_replace_at_frame_assoc _ _ _ _ _ _ _ E) as (ds1 & -> & H1).
  rewrite (IH Hnd' ds1). cbn [returns andb]. apply forallb_ext_in.
  intros g Hg. apply file_compatible_ext. apply H1.
  intros Heq. apply Hni. rewrite <- Heq. apply in_map_iff. now exists g.
Qed.

Lemma dir_compatible_ext ds ds' e :
  assoc (fst e) ds' = assoc (fst e) ds -> dir_compatible ds' e = dir_compatible ds e.
Proof. unfold dir_compatible. now intros ->. Qed.

(** The loop over the subdirectories returns exactly when the first loop
    returns in each of them. *)
Lemma below_returns R l :
  NoDup (map fst l) -> Forall wf_entry l ->
  Forall (fun e => forall R t, wf_node (snd e) = true ->
            returns (mirror_node R (snd e) t) = compatible (snd e) t) l ->
  forall ds,
    returns (mirror_below R l (Some (Dir ds))) = forallb (dir_compatible ds) l.
Proof.
  induction l as [|[y c] l IH]; intros Hnd Hwf Hs ds; [reflexivity|].
  inversion Hnd as [|? ? Hni Hnd']; subst.
  inversion Hwf as [|? ? [Hy Hwc] Hwf']; subst.
  inversion Hs as [|? ? Hsc Hs']; subst. cbn [fst snd] in *.
  cbn [mirror_below forallb]. rewrite returns_and_then.
  destruct c as [b d|cs].
  - cbn [dir_compatible snd andb]. unfold dir_compatible at 1. cbn [snd].
    now apply IH.
  - unfold dir_compatible at 1. cbn [fst snd].
    rewrite <- (Hsc (R ++ [y]) (assoc y ds) Hwc).
    rewrite (child_name ds y Hy).
    destruct (mirror_node (R ++ [y]) (Dir cs) (assoc y ds)) as [[[a|ex] c'] e1];
      [|reflexivity].
    cbn [store returns andb]. rewrite (IH Hnd' Hwf' Hs').
    apply forallb_ext_in. intros [z cz] Hz. apply dir_compatible_ext. cbn [fst].
    apply assoc_bind_entry_other. intros ->. apply Hni.
    apply in_map_iff. now exists (z, cz).
Qed.

Lemma child_of_dir_or_none t x :
  x <> curdir -> (forall b d, t <> Some (File b d)) ->
  child t x = assoc x match t with Some (Dir ds) => ds | _ => [] end.
Proof.
  intros Hx Ht. destruct t as [[b d|ds]|]; [now specialize (Ht b d)| |reflexivity].
  now apply child_name.
Qed.

Lemma compatible_or_empty_dir cs c0 :
  wf_node (Dir cs) = true ->
  compatible (Dir cs) (or_empty_dir c0) = compatible (Dir cs) c0.
Proof.
  intros Hwf. destruct c0 as [c|]; [reflexivity|]. cbn [or_empty_dir].
  rewrite !compatible_Dir. apply wf_dir in Hwf as [_ Hwf].
  apply forallb_ext_in. intros [x c] Hin. unfold entry_compatible. cbn [fst snd].
  rewrite (child_name [] x (proj1 (wf_entry_in _ _ Hwf Hin))). reflexivity.
Qed.

Lemma mirror_returns_dir es R ds :
  Forall (fun e => forall R t, wf_node (snd e) = true ->
            returns (mirror_node R (snd e) t) = compatible (snd e) t) es ->
  NoDup (map fst es) -> Forall wf_entry es ->
  returns
    (and_then (each_at (dir_names es) (create_directory_at (TopDest, rel R))
                 (Some (Dir ds))) (fun t =>
     and_then (each_at (file_entries es)
                 (copy_or_replace_at (TopSource, R) (TopDest, rel R)) t)
              (mirror_below R es)))
  = forallb (entry_compatible (Some (Dir ds))) es.
Proof.
  intros IH Hnd Hwf.
  destruct (dirs_loop_closed (TopDest, rel R) (dir_names es) ds)
    as (ds1 & e1 & E1 & H1).
  rewrite E1, returns_and_then. cbn beta iota. rewrite returns_and_then.
  assert (Hndf : NoDup (map (fun f : string * bool * list byte => fst (fst f))
                          (file_entries es))).
  { rewrite <- file_names_entries. unfold file_names. now apply NoDup_map_fst_filter. }
  assert (F1 : forall x r d, In (x, File r d) es -> assoc x ds1 = assoc x ds).
  { intros x r d Hin. rewrite H1.
    destruct (existsb (String.eqb x) (dir_names es)) eqn:Ex; [|reflexivity].
    apply existsb_exists in Ex as (y & Hy & Exy). apply String.eqb_eq in Exy. subst y.
    apply in_dir_names in Hy as (cs & Hy).
    now pose proof (entry_kind_unique _ _ _ _ Hnd Hin Hy). }
  assert (F2 : forall x cs, In (x, Dir cs) es ->
                 assoc x ds1 = or_empty_dir (assoc x ds)).
  { intros x cs Hin. rewrite H1.
    destruct (existsb (String.eqb x) (dir_names es)) eqn:Ex; [reflexivity|].
    assert (Hex : existsb (String.eqb x) (dir_names es) = true); [|congruence].
    apply existsb_exists. exists x. split; [|apply String.eqb_refl].
    apply in_dir_names. now exists cs. }
  assert (F3 : forall x r d, In (x, File r d) es ->
                 file_compatible ds1 (x, r, d)
                 = entry_compatible (Some (Dir ds)) (x, File r d)).
  { intros x r d Hin. unfold file_compatible, entry_compatible. cbn [fst snd].
    rewrite (F1 x r d Hin).
    now rewrite (child_name ds x (proj1 (wf_entry_in _ _ Hwf Hin))). }
  pose proof (files_loop_returns (TopSource, R) (TopDest, rel R)
                (file_entries es) Hndf ds1) as Hf.
  destruct (each_at (file_entries es)
              (copy_or_replace_at (TopSource, R) (TopDest, rel R)) (Some (Dir ds1)))
    as [[[a|ex] t2] e2] eqn:Ef; cbn [returns] in Hf.
  - destruct (files_loop_frame _ _ _ _ _ _ _ Ef) as (ds2 & -> & H2).
    rewrite (below_returns R es Hnd Hwf IH ds2).
    assert (F4 : forall x cs, In (x, Dir cs) es ->
                   dir_compatible ds2 (x, Dir cs)
                   = entry_compatible (Some (Dir ds)) (x, Dir cs)).
    { intros x cs Hin. unfold dir_compatible, entry_compatible. cbn [fst snd].
      destruct (wf_entry_in _ _ Hwf Hin) as [Hx Hwc]. cbn [fst snd] in Hx, Hwc.
      rewrite (child_name ds x Hx), H2, (F2 x cs Hin).
      - now apply compatible_or_empty_dir.
      - rewrite <- file_names_entries. intros Hfn.
        apply in_file_names in Hfn as (r & d & Hfn).
        now pose proof (entry_kind_unique _ _ _ _ Hnd Hin Hfn). }
    symmetry in Hf. rewrite forallb_forall in Hf.
    apply eq_iff_eq_true. rewrite !forallb_forall.
    split; intros H [x c] Hin; destruct c as [r d|cs].
    + rewrite <- (F3 x r d Hin). apply Hf. now apply in_file_entries.
    + rewrite <- (F4 x cs Hin). now apply H.
    + reflexivity.
    + rewrite (F4 x cs Hin). now apply H.
  - symmetry. apply not_true_is_false. intros H. rewrite forallb_forall in H.
    assert (Hall : forallb (file_compatible ds1) (file_entries es) = true);
      [|congruence].
    apply forallb_forall. intros [[x r] d] Hin. apply in_file_entries in Hin.
    rewrite (F3 x r d Hin). now apply H.
Qed.

(** The first loop returns exactly on a compatible destination. *)
Lemma mirror_returns s : forall R t,
  wf_node s = true -> returns (mirror_node R s t) = compatible s t.
Proof.
  induction s as [rb data|es IH] using node_ind'; intros R t Hwf; [reflexivity|].
  pose proof Hwf as Hwf0. apply wf_dir in Hwf as [Hnd Hwf].
  rewrite mirror_node_Dir, compatible_Dir, returns_and_then.
  destruct t as [[b d|ds]|].
  - (* a regular file at the place of the directory *)
    rewrite returns_and_then.
    destruct es as [|[x c] l]; [reflexivity|].
    destruct (dir_names ((x, c) :: l)) as [|d0 dl] eqn:Ed; cbn [each_at].
    + destruct c as [r0 d1|cs]; [|discriminate].
      cbn [file_entries each_at]. rewrite !returns_and_then.
      unfold copy_or_replace_at. now destruct r0.
    + reflexivity.
  - exact (mirror_returns_dir es R ds IH Hnd Hwf).
  - cbn beta iota. rewrite (mirror_returns_dir es R [] IH Hnd Hwf).
    apply forallb_ext_in. intros [x c] Hin. unfold entry_compatible. cbn [fst snd].
    now rewrite (child_name [] x (proj1 (wf_entry_in _ _ Hwf Hin))).
Qed.

Lemma mirror_top_returns s T :
  wf_tree s = true -> returns (mirror_top s T) = compatible_top s T.
Proof.
  intros Hs. unfold mirror_top, compatible_top.
  destruct s as [[b d|es]|]; try reflexivity.
  destruct T as [[b d|ds]|]; [reflexivity| |]; now apply mirror_returns.
Qed.

(** A pass completes exactly on a compatible destination. *)
Lemma sync_tree_returns s T :
  wf_tree s = true -> wf_tree T = true ->
  returns (sync_tree s T) = compatible_top s T.
Proof.
  intros Hs HT. unfold sync_tree. rewrite returns_and_then.
  rewrite <- (mirror_top_returns s T Hs).
  pose proof (mirror_top_wf s T Hs HT) as Hwf1.
  destruct (mirror_top s T) as [[[a|e] T1] e1]; [|reflexivity].
  unfold keeps_wf in Hwf1. cbn [fst snd] in Hwf1.
  rewrite (prune_top_closed s T1 Hwf1). now destruct T1 as [[b d|ds]|].
Qed.

Lemma returns_true o : returns o = true <-> exists t evs, o = (Ok tt, t, evs).
Proof.
  destruct o as [[[[]|e] t] evs]; cbn [returns]; split.
  - intros _. now exists t, evs.
  - reflexivity.
  - discriminate.
  - intros (t' & evs' & [= ]).
Qed.


(* ================================================================= *)
(** * A first backup *)

Lemma compatible_fresh s :
  wf_node s = true -> is_dir s = true -> compatible s None = readable s.
Proof.
  induction s as [r data|es IH] using node_ind'; intros Hwf Hd; [discriminate|].
  rewrite compatible_Dir. apply wf_dir in Hwf as [_ Hwf].
  apply eq_iff_eq_true. rewrite forallb_forall, readable_Dir, Forall_forall.
  split; intros H [x c] Hin; specialize (H (x, c) Hin);
    pose proof (proj1 (Forall_forall _ _) IH _ Hin) as Hc;
    pose proof (proj2 (wf_entry_in _ _ Hwf Hin)) as Hwc;
    unfold entry_compatible in *; cbn [fst snd child] in *;
    destruct c as [r d|cs].
  - cbn [readable]. now apply andb_prop in H as [H _].
  - now rewrite <- Hc.
  - cbn [readable] in H. now rewrite H.
  - now rewrite Hc.
Qed.

Lemma compatible_top_fresh es T :
  wf_node (Dir es) = true -> T = None \/ T = Some (Dir []) ->
  compatible_top (Some (Dir es)) T = readable (Dir es).
Proof.
  intros Hwf [-> | ->]; cbn [compatible_top].
  - now apply compatible_fresh.
  - rewrite <- (compatible_fresh (Dir es) Hwf eq_refl).
    exact (compatible_or_empty_dir es None Hwf).
Qed.

Lemma lookup_fresh T p :
  T = None \/ T = Some (Dir []) -> names_ok p -> p <> [] -> lookup T p = None.
Proof.
  intros [-> | ->] Hp Hne; [apply lookup_None|now apply lookup_empty_dir].
Qed.

(* ================================================================= *)
(** * A destination file that has the digest of its source file *)

Lemma copy_or_replace_at_same_digest root dr x b data old t r t' e :
  x <> curdir -> lookup t [x] = Some (File true old) ->
  md5_of data = md5_of old ->
  copy_or_replace_at root dr (x, b, data) t = (r, t', e) -> t' = t.
Proof.
  intros Hx Hl Hm. unfold copy_or_replace_at.
  destruct b; cbn [negb]; [|intros [= _ <- _]; reflexivity].
  destruct t as [[b0 d0|ds]|]; try (intros [= _ <- _]; reflexivity).
  cbn [lookup] in Hl. rewrite child_name in Hl by exact Hx. rewrite Hl.
  rewrite Hm, String.eqb_refl. intros [= _ <- _]. reflexivity.
Qed.

Lemma mirror_same_digest_frame q : forall s R t rb data old r t' evs,
  wf_node s = true -> names_ok q -> q <> [] ->
  lookup (Some s) q = Some (File rb data) ->
  lookup t q = Some (File true old) ->
  md5_of data = md5_of old ->
  mirror_node R s t = (r, t', evs) ->
  lookup t' q = Some (File true old).
Proof.
  induction q as [|x q IH]; intros s R t rb data old r t' evs Hwf Hq Hne Hs Ht Hm;
    [exfalso; apply Hne; reflexivity|].
  inversion Hq as [|? ? Hx Hq']; subst.
  destruct (lookup_cons_some _ _ _ _ Hs) as (es & [= ->]).
  destruct (lookup_dir_cons es x q _ Hx Hs) as (c & Ha & Hc).
  apply wf_dir in Hwf as [Hnd Hwf]. apply assoc_Some_In in Ha.
  rewrite mirror_node_Dir.
  set (I := fun t1 : option node => lookup t1 (x :: q) = Some (File true old)).
  intros E0. change (I t'). revert E0.
  apply (and_then_keeps I).
  { intros r1 t1 e1. destruct t as [t0|]; intros [= _ <- _]; [exact Ht|].
    rewrite lookup_None in Ht. discriminate Ht. }
  intros t1 r1 t1' e1 H1. apply (and_then_keeps I).
  { intros r2 t2 e2. apply (each_at_keeps I); [|exact H1].
    intros d t3 r3 t3' e3 Hin H3 E. unfold I in *. rewrite <- H3.
    apply (create_directory_at_frame _ _ _ _ _ _ _ _ Hq) in E; [exact E|].
    intros ->. intros ->. cbn [lookup] in Hc. injection Hc as ->.
    apply in_dir_names in Hin as (cs & Hin).
    pose proof (entry_kind_unique _ _ _ _ Hnd Hin Ha) as Hk. discriminate Hk. }
  intros t2 r2 t2' e2 H2. apply (and_then_keeps I).
  { intros r3 t3 e3. apply (each_at_keeps I); [|exact H2].
    intros [[file b] data'] t4 r4 t4' e4 Hin H4 E. unfold I in *.
    destruct (String.eqb_spec file x) as [->|Hfx].
    - apply in_file_entries in Hin.
      pose proof (entry_kind_unique _ _ _ _ Hnd Hin Ha) as <-.
      destruct q as [|y q];
        [|rewrite lookup_File in Hc by (intros Hk; discriminate Hk); discriminate Hc].
      cbn [lookup] in Hc. injection Hc as -> ->.
      rewrite (copy_or_replace_at_same_digest _ _ _ _ _ _ _ _ _ _ Hx H4 Hm E).
      exact H4.
    - rewrite <- H4.
      apply (copy_or_replace_at_frame _ _ _ _ _ x q _ _ _ _ Hx) in E; [exact E|].
      intros ->. exfalso. apply Hfx. reflexivity. }
  intros t3 r3 t3' e3 H3. apply (mirror_below_keeps I); [|exact H3].
  intros y cs t4 r4 c' e4 Hin H4 E. unfold I in *.
  destruct (String.eqb_spec y x) as [->|Hyx].
  - pose proof (entry_kind_unique _ _ _ _ Hnd Hin Ha) as <-.
    assert (Hq2 : q <> []) by (intros ->; discriminate Hc).
    rewrite <- H4. apply lookup_store_child_same; [exact Hx|exact Hq2|].
    cbn [lookup] in H4.
    rewrite (IH (Dir cs) _ _ rb data old _ _ _ (proj2 (wf_entry_in _ _ Hwf Ha))
               Hq' Hq2 Hc H4 Hm E).
    symmetry. exact H4.
  - rewrite <- H4. apply lookup_store_child_other; [exact Hx|exact Hyx].
Qed.

Lemma sync_tree_wf s T :
  wf_tree s = true -> wf_tree T = true -> keeps_wf (sync_tree s T).
Proof.
  intros Hs HT. unfold sync_tree. apply keeps_wf_and_then.
  - now apply mirror_top_wf.
  - intros T1 H1. now apply prune_top_wf.
Qed.

(* ================================================================= *)
(** * The loop of [main] *)

Lemma main_loop_body_turn s T L :
  wf_tree s = true -> wf_tree T = true ->
  exists r T' evs,
    sync_tree s T = (r, T', evs)
    /\ wf_tree T' = true
    /\ main_loop_body TopSource TopDest (World s T L)
       = (Ok tt, World s T'
                   (L ++ evs ++ match r with
                                | Ok _ => [SynchronizationCompleted]
                                | Raise e => [Error e; SynchronizationCompleted]
                                end)).
Proof.
  intros Hs HT. pose proof (sync_tree_wf s T Hs HT) as Hwf.
  pose proof (sync_refines s T L Hs HT) as H.
  destruct (sync_tree s T) as [[r T'] evs]. unfold keeps_wf in Hwf.
  cbn [fst snd] in Hwf. exists r, T', evs. split; [reflexivity|]. split; [exact Hwf|].
  unfold lifted in H. cbn [store source_tree logfile] in H.
  destruct r as [[]|e].
  - rewrite (main_loop_body_ok _ _ H). cbn [source_tree dest_tree logfile].
    now rewrite <- app_assoc.
  - rewrite (main_loop_body_raise _ _ _ H). cbn [source_tree dest_tree logfile].
    now rewrite <- app_assoc.
Qed.

Lemma no_completion_in_pass adds dels :
  Forall (fun ev => is_addition ev = true) adds ->
  Forall (fun ev => is_deletion ev = true) dels ->
  count_occ event_eq_dec (adds ++ dels) SynchronizationCompleted = 0
  /\ List.length (filter is_error (adds ++ dels)) = 0.
Proof.
  intros Ha Hd.
  assert (H : Forall (fun ev => ev <> SynchronizationCompleted /\ is_error ev = false)
                (adds ++ dels)).
  { apply Forall_app. split; eapply Forall_impl; try eassumption;
      intros [] Hev; try discriminate Hev; (split; [discriminate|reflexivity]). }
  split.
  - apply count_occ_not_In. intros Hin.
    apply (proj1 (Forall_forall _ _) H) in Hin as [Hne _]. now apply Hne.
  - induction H as [|ev l [_ Hev] _ IH]; [reflexivity|].
    cbn [filter]. now rewrite Hev.
Qed.

Lemma main_loop_steady_turns s t1 :
  wf_tree s = true -> wf_tree t1 = true ->
  sync_tree s t1 = (Ok tt, t1, []) ->
  forall n L,
    main_loop n TopSource TopDest (World s t1 L)
    = (Ok tt, World s t1 (L ++ repeat SynchronizationCompleted n)).
Proof.
  intros Hs Ht E. induction n as [|n IH]; intros L.
  - cbn [main_loop repeat]. unfold ret. now rewrite app_nil_r.
  - cbn [main_loop]. unfold bind.
    destruct (main_loop_body_turn s t1 L Hs Ht) as (r & T' & evs & E' & _ & ->).
    rewrite E in E'. injection E' as <- <- <-.
    rewrite IH. cbn [app repeat]. now rewrite <- app_assoc.
Qed.

(* ================================================================= *)
(** * The lines of the first loop *)

Lemma flat_map_ext_in {A B} (f g : A -> list B) l :
  (forall a, In a l -> f a = g a) -> flat_map f l = flat_map g l.
Proof.
  induction l as [|a l IH]; intros H; [reflexivity|]. cbn [flat_map].
  rewrite (H a (or_introl eq_refl)), IH; [reflexivity|]. intros; apply H; now right.
Qed.

Lemma dirs_loop_events dr dirs : NoDup dirs -> forall ds0 t1 e,
  each_at dirs (create_directory_at dr) (Some (Dir ds0)) = (Ok tt, t1, e) ->
  e = map (fun d => CreatedDirectory (join dr d))
          (filter (fun d => match assoc d ds0 with None => true | Some _ => false end)
                  dirs).
Proof.
  induction dirs as [|d r IH]; intros Hnd ds0 t1 e H.
  - injection H as _ <-. reflexivity.
  - inversion Hnd as [|? ? Hni Hnd']; subst. cbn [each_at] in H.
    apply and_then_ok in H as ([] & t' & e1 & e2 & H1 & H2 & ->).
    unfold create_directory_at in H1. cbn [filter].
    destruct (assoc d ds0) eqn:Ed; injection H1 as <- <-.
    + cbn [app]. exact (IH Hnd' ds0 _ _ H2).
    + cbn [map app]. f_equal.
      rewrite (IH Hnd' (set_entry d (Dir []) ds0) _ _ H2). f_equal.
      apply filter_ext_in. intros d' Hin.
      rewrite assoc_set_entry_other; [reflexivity|]. intros ->. contradiction.
Qed.

Lemma dirs_loop_assoc es ds ds1 :
  NoDup (map fst es) ->
  (forall x, assoc x ds1
             = if existsb (String.eqb x) (dir_names es) then or_empty_dir (assoc x ds)
               else assoc x ds) ->
  (forall x r d, In (x, File r d) es -> assoc x ds1 = assoc x ds)
  /\ (forall x cs, In (x, Dir cs) es -> assoc x ds1 = or_empty_dir (assoc x ds)).
Proof.
  intros Hnd H1. split.
  - intros x r d Hin. rewrite H1.
    destruct (existsb (String.eqb x) (dir_names es)) eqn:Ex; [|reflexivity].
    apply existsb_exists in Ex as (y & Hy & Exy). apply String.eqb_eq in Exy. subst y.
    apply in_dir_names in Hy as (cs & Hy).
    pose proof (entry_kind_unique _ _ _ _ Hnd Hin Hy) as Hk. discriminate Hk.
  - intros x cs Hin. rewrite H1.
    destruct (existsb (String.eqb x) (dir_names es)) eqn:Ex; [reflexivity|].
    assert (Hex : existsb (String.eqb x) (dir_names es) = true); [|congruence].
    apply existsb_exists. exists x. split; [|apply String.eqb_refl].
    apply in_dir_names. now exists cs.
Qed.

Lemma file_event_ext root dr t t' f :
  child t' (fst (fst f)) = child t (fst (fst f)) ->
  file_event root dr t' f = file_event root dr t f.
Proof. unfold file_event. intros ->. reflexivity. Qed.

Lemma copy_or_replace_at_event root dr f ds t' e :
  fst (fst f) <> curdir ->
  copy_or_replace_at root dr f (Some (Dir ds)) = (Ok tt, t', e) ->
  e = file_event root dr (Some (Dir ds)) f.
Proof.
  destruct f as [[file b] data]. cbn [fst]. intros Hf.
  unfold copy_or_replace_at, file_event. cbn [fst snd].
  rewrite (child_name ds file Hf).
  destruct b; cbn [negb]; [|intros H; discriminate H].
  destruct (assoc file ds) as [[[|] old|ds1]|].
  - destruct (String.eqb (md5_of data) (md5_of old));
      intros H; injection H as _ <-; reflexivity.
  - intros H; discriminate H.
  - intros H; discriminate H.
  - intros H; injection H as _ <-; reflexivity.
Qed.

Lemma files_loop_events root dr l :
  NoDup (map (fun f : string * bool * list byte => fst (fst f)) l) ->
  (forall f, In f l -> fst (fst f) <> curdir) ->
  forall ds t' e,
    each_at l (copy_or_replace_at root dr) (Some (Dir ds)) = (Ok tt, t', e) ->
    e = flat_map (file_event root dr (Some (Dir ds))) l.
Proof.
  induction l as [|f l IH]; intros Hnd Hok ds t' e H.
  - injection H as _ <-. reflexivity.
  - inversion Hnd as [|? ? Hni Hnd']; subst. cbn [each_at] in H.
    apply and_then_ok in H as ([] & t1 & e1 & e2 & H1 & H2 & ->).
    cbn [flat_map]. f_equal.
    + exact (copy_or_replace_at_event _ _ _ _ _ _ (Hok f (or_introl eq_refl)) H1).
    + destruct (copy_or_replace_at_frame_assoc _ _ _ _ _ _ _ H1) as (ds1 & -> & Hfr).
      rewrite (IH Hnd' (fun g Hg => Hok g (or_intror Hg)) ds1 _ _ H2).
      apply flat_map_ext_in. intros g Hg. apply file_event_ext.
      pose proof (Hok g (or_intror Hg)) as Hgc.
      rewrite !child_name by exact Hgc. apply Hfr.
      intros Heq. apply Hni. rewrite <- Heq. apply in_map_iff. now exists g.
Qed.

Lemma below_events R l :
  NoDup (map fst l) -> Forall wf_entry l ->
  Forall (fun en => forall R t t' ev, wf_node (snd en) = true ->
            mirror_node R (snd en) t = (Ok tt, t', ev) ->
            ev = mirror_events R (snd en) t) l ->
  forall ds t' e,
    mirror_below R l (Some (Dir ds)) = (Ok tt, t', e) ->
    e = flat_map (fun en => mirror_events (R ++ [fst en]) (snd en) (assoc (fst en) ds)) l.
Proof.
  induction l as [|[y c] l IH]; intros Hnd Hwf Hs ds t' e H.
  - injection H as _ <-. reflexivity.
  - inversion Hnd as [|? ? Hni Hnd']; subst.
    inversion Hwf as [|? ? [Hy Hwc] Hwf']; subst.
    inversion Hs as [|? ? Hsc Hs']; subst. cbn [fst snd] in *.
    cbn [mirror_below] in H.
    apply and_then_ok in H as ([] & t1 & e1 & e2 & H1 & H2 & ->).
    cbn [flat_map fst snd]. destruct c as [b d|cs].
    + injection H1 as <- <-. cbn [mirror_events app].
      exact (IH Hnd' Hwf' Hs' ds _ _ H2).
    + rewrite (child_name ds y Hy) in H1.
      destruct (mirror_node (R ++ [y]) (Dir cs) (assoc y ds)) as [[r1 c'] ev1] eqn:E.
      injection H1 as -> <- <-.
      rewrite (Hsc _ _ _ _ Hwc E). f_equal. cbn [store] in H2.
      rewrite (IH Hnd' Hwf' Hs' _ _ _ H2).
      apply flat_map_ext_in. intros [z cz] Hz. cbn [fst snd]. f_equal.
      apply assoc_bind_entry_other. intros ->. apply Hni.
      apply in_map_iff. now exists (z, cz).
Qed.

Lemma mirror_events_dir es R ds t' e :
  Forall (fun en => forall R t t' ev, wf_node (snd en) = true ->
            mirror_node R (snd en) t = (Ok tt, t', ev) ->
            ev = mirror_events R (snd en) t) es ->
  NoDup (map fst es) -> Forall wf_entry es ->
  and_then (each_at (dir_names es) (create_directory_at (TopDest, rel R))
              (Some (Dir ds))) (fun t =>
  and_then (each_at (file_entries es)
              (copy_or_replace_at (TopSource, R) (TopDest, rel R)) t)
           (mirror_below R es)) = (Ok tt, t', e) ->
  e = map (fun d => CreatedDirectory (join (TopDest, rel R) d))
          (filter (fun d => negb (present (Some (Dir ds)) d)) (dir_names es))
      ++ flat_map (file_event (TopSource, R) (TopDest, rel R) (Some (Dir ds)))
           (file_entries es)
      ++ flat_map (fun en => mirror_events (R ++ [fst en]) (snd en)
                               (or_empty_dir (child (Some (Dir ds)) (fst en)))) es.
Proof.
  intros IH Hnd Hwf H.
  apply and_then_ok in H as ([] & tb & e1 & e23 & Hb & H & ->).
  apply and_then_ok in H as ([] & tc & e2 & e3 & Hc & Hbelow & ->).
  assert (Hndd : NoDup (dir_names es)).
  { unfold dir_names. now apply NoDup_map_fst_filter. }
  assert (Hndf : NoDup (map (fun f : string * bool * list byte => fst (fst f))
                          (file_entries es))).
  { rewrite <- file_names_entries. unfold file_names. now apply NoDup_map_fst_filter. }
  assert (Hfok : forall f, In f (file_entries es) -> fst (fst f) <> curdir).
  { intros [[x r] d] Hin. apply in_file_entries in Hin.
    exact (proj1 (wf_entry_in _ _ Hwf Hin)). }
  destruct (dirs_loop_closed (TopDest, rel R) (dir_names es) ds)
    as (ds1 & e1' & E1 & H1).
  rewrite E1 in Hb. injection Hb as <- <-.
  destruct (dirs_loop_assoc es ds ds1 Hnd H1) as [F1 F2].
  destruct (files_loop_frame _ _ _ _ _ _ _ Hc) as (ds2 & -> & H2).
  f_equal; [|f_equal].
  - rewrite (dirs_loop_events _ _ Hndd _ _ _ E1). f_equal.
    apply filter_ext_in. intros d Hin. apply in_dir_names in Hin as (cs & Hin).
    unfold present. rewrite (child_name ds d (proj1 (wf_entry_in _ _ Hwf Hin))).
    now destruct (assoc d ds).
  - rewrite (files_loop_events _ _ _ Hndf Hfok _ _ _ Hc).
    apply flat_map_ext_in. intros [[x r] d] Hin. apply file_event_ext. cbn [fst].
    pose proof (Hfok _ Hin) as Hx. cbn [fst] in Hx. rewrite !child_name by exact Hx.
    apply in_file_entries in Hin. exact (F1 x r d Hin).
  - rewrite (below_events R es Hnd Hwf IH _ _ _ Hbelow).
    apply flat_map_ext_in. intros [x c] Hin. cbn [fst snd].
    destruct c as [r d|cs]; [reflexivity|]. f_equal.
    rewrite (child_name ds x (proj1 (wf_entry_in _ _ Hwf Hin))).
    rewrite H2; [exact (F2 x cs Hin)|].
    rewrite <- file_names_entries. intros Hfn.
    apply in_file_names in Hfn as (r & d & Hfn).
    pose proof (entry_kind_unique _ _ _ _ Hnd Hin Hfn) as Hk. discriminate Hk.
Qed.

(** The lines of a first loop that returns. *)
Lemma mirror_events_closed s : forall R t t' e,
  wf_node s = true -> mirror_node R s t = (Ok tt, t', e) -> e = mirror_events R s t.
Proof.
  induction s as [rb data|es IH] using node_ind'; intros R t t' e Hwf H.
  - injection H as _ <-. reflexivity.
  - pose proof (mirror_returns (Dir es) R t Hwf) as Hret.
    rewrite H in Hret. cbn [returns] in Hret. symmetry in Hret.
    apply wf_dir in Hwf as [Hnd Hwf]. rewrite mirror_node_Dir in H.
    destruct t as [[b d|ds]|].
    + rewrite compatible_Dir in Hret. destruct es as [|en l]; [|discriminate Hret].
      cbn in H. injection H as _ <-. reflexivity.
    + rewrite and_then_unit in H.
      destruct (and_then _ _) as [[r1 t1] e1] eqn:E in H. injection H as -> <- <-.
      cbn [mirror_events app]. exact (mirror_events_dir es R ds _ _ IH Hnd Hwf E).
    + rewrite and_then_unit in H.
      destruct (and_then _ _) as [[r1 t1] e1] eqn:E in H. injection H as -> <- <-.
      cbn [mirror_events app]. f_equal.
      rewrite (mirror_events_dir es R [] _ _ IH Hnd Hwf E).
      f_equal; [|f_equal].
      * f_equal. apply filter_ext_in. intros d Hin.
        apply in_dir_names in Hin as (cs & Hin). unfold present.
        now rewrite (child_name [] d (proj1 (wf_entry_in _ _ Hwf Hin))).
      * apply flat_map_ext_in. intros [[x r] d] Hin. apply file_event_ext. cbn [fst].
        apply in_file_entries in Hin.
        now rewrite (child_name [] x (proj1 (wf_entry_in _ _ Hwf Hin))).
      * apply flat_map_ext_in. intros [x c] Hin. cbn [fst snd].
        now rewrite (child_name [] x (proj1 (wf_entry_in _ _ Hwf Hin))).
Qed.

Lemma lookup_or_empty_dir c q :
  names_ok q -> q <> [] -> lookup (or_empty_dir c) q = lookup c q.
Proof.
  intros Hq Hne. destruct c as [n|]; [reflexivity|]. cbn [or_empty_dir].
  rewrite lookup_None. now apply lookup_empty_dir.
Qed.

Section FileLines.

(** A kind of line of the step of a file, and when the step logs it. *)
Variable K : top * list string -> top * list string -> event.
Variable due : list byte -> option node -> bool.

Hypothesis K_not_created : forall a b d, K a b <> CreatedDirectory d.
Hypothesis K_paths : forall root dr t f src dst,
  In (K src dst) (file_event root dr t f) ->
  src = join root (fst (fst f)) /\ dst = join dr (fst (fst f)).
Hypothesis K_due : forall root dr t f,
  In (K (join root (fst (fst f))) (join dr (fst (fst f)))) (file_event root dr t f)
  <-> due (snd f) (child t (fst (fst f))) = true.

Lemma file_line_paths s : forall R t src dst,
  In (K src dst) (mirror_events R s t) ->
  exists q, q <> [] /\ src = (TopSource, R ++ q).
Proof.
  induction s as [rb data|es IH] using node_ind'; intros R t src dst H; [destruct H|].
  cbn [mirror_events] in H.
  apply in_app_or in H as [H|H]; [|apply in_app_or in H as [H|H];
                                   [|apply in_app_or in H as [H|H]]].
  - destruct t as [n|]; [destruct H|]. destruct H as [H|[]].
    symmetry in H. now apply K_not_created in H.
  - apply in_map_iff in H as (d & H & _). symmetry in H. now apply K_not_created in H.
  - apply in_flat_map in H as (f & _ & H). apply K_paths in H as [-> _].
    exists [fst (fst f)]. split; [discriminate|reflexivity].
  - apply in_flat_map in H as ([x c] & Hin & H). cbn [fst snd] in H.
    destruct (proj1 (Forall_forall _ _) IH _ Hin _ _ _ _ H) as (q & Hq & ->).
    exists (x :: q). split; [discriminate|]. now rewrite <- app_assoc.
Qed.

(** A line of the kind is logged for the source file at [q] exactly when
    it is due for what the destination has at [q]. *)
Lemma file_line_iff q : forall s R t,
  wf_node s = true -> names_ok q -> q <> [] ->
  ((exists dst, In (K (TopSource, R ++ q) dst) (mirror_events R s t))
   <-> exists r d, lookup (Some s) q = Some (File r d) /\ due d (lookup t q) = true).
Proof.
  induction q as [|x q IH]; intros s R t Hwf Hq Hne; [now destruct Hne|].
  inversion Hq as [|? ? Hx Hq']; subst.
  destruct s as [rb data|es].
  { split; [intros (dst & [])|].
    intros (r & d & H & _). rewrite lookup_File in H by exact Hne. discriminate H. }
  apply wf_dir in Hwf as [Hnd Hwf]. cbn [mirror_events]. split.
  - intros (dst & H).
    apply in_app_or in H as [H|H]; [|apply in_app_or in H as [H|H];
                                     [|apply in_app_or in H as [H|H]]].
    + destruct t as [n|]; [destruct H|]. destruct H as [H|[]].
      symmetry in H. now apply K_not_created in H.
    + apply in_map_iff in H as (d & H & _). symmetry in H.
      now apply K_not_created in H.
    + apply in_flat_map in H as ([[f b] data] & Hf & H).
      pose proof (K_paths _ _ _ _ _ _ H) as [Hsrc ->]. cbn [fst] in Hsrc.
      injection Hsrc as Hsrc. apply app_inv_head in Hsrc. injection Hsrc as -> ->.
      apply in_file_entries in Hf. exists b, data. cbn [lookup].
      rewrite (child_name es f Hx), (assoc_In _ _ _ Hnd Hf). split; [reflexivity|].
      exact (proj1 (K_due _ _ _ (f, b, data)) H).
    + apply in_flat_map in H as ([y c] & Hin & H). cbn [fst snd] in H.
      destruct (file_line_paths _ _ _ _ _ H) as (q' & Hq'ne & Hsrc).
      injection Hsrc as Hsrc. rewrite <- app_assoc in Hsrc.
      apply app_inv_head in Hsrc. injection Hsrc as <- <-.
      assert (Hin' : exists dst, In (K (TopSource, (R ++ [x]) ++ q) dst)
                       (mirror_events (R ++ [x]) c (or_empty_dir (child t x)))).
      { exists dst. rewrite <- app_assoc. exact H. }
      apply (IH c (R ++ [x]) _ (proj2 (wf_entry_in _ _ Hwf Hin)) Hq' Hq'ne) in Hin'
        as (r & d & Hl & Hd).
      exists r, d. cbn [lookup]. rewrite (child_name es x Hx), (assoc_In _ _ _ Hnd Hin).
      split; [exact Hl|]. now rewrite <- (lookup_or_empty_dir _ q Hq' Hq'ne).
  - intros (r & d & Hl & Hd).
    destruct (lookup_dir_cons es x q _ Hx Hl) as (c & Ha & Hc).
    apply assoc_Some_In in Ha. destruct q as [|y q].
    + cbn [lookup] in Hc, Hd. injection Hc as ->.
      exists (join (TopDest, rel R) x).
      apply in_or_app; right. apply in_or_app; right. apply in_or_app; left.
      apply in_flat_map. exists (x, r, d). split; [now apply in_file_entries|].
      exact (proj2 (K_due (TopSource, R) (TopDest, rel R) t (x, r, d)) Hd).
    + assert (Hq2 : y :: q <> []) by discriminate.
      change (lookup t (x :: y :: q)) with (lookup (child t x) (y :: q)) in Hd.
      rewrite <- (lookup_or_empty_dir _ (y :: q) Hq' Hq2) in Hd.
      destruct (proj2 (IH c (R ++ [x]) (or_empty_dir (child t x))
                         (proj2 (wf_entry_in _ _ Hwf Ha)) Hq' Hq2))
        as (dst & H); [now exists r, d|].
      exists dst.
      apply in_or_app; right. apply in_or_app; right. apply in_or_app; right.
      apply in_flat_map. exists (x, c). split; [exact Ha|]. cbn [fst snd].
      now rewrite <- app_assoc in H.
Qed.

End FileLines.

Lemma copied_new_iff q s R t :
  wf_node s = true -> names_ok q -> q <> [] ->
  ((exists dst, In (CopiedNewFile (TopSource, R ++ q) dst) (mirror_events R s t))
   <-> (exists r d, lookup (Some s) q = Some (File r d)) /\ lookup t q = None).
Proof.
  intros Hwf Hq Hne.
  rewrite (file_line_iff CopiedNewFile
             (fun _ c => match c with None => true | Some _ => false end)).
  - split.
    + intros (r & d & Hl & Hd). split; [now exists r, d|].
      destruct (lookup t q); [discriminate Hd|reflexivity].
    + intros ((r & d & Hl) & Ht). exists r, d. split; [exact Hl|]. now rewrite Ht.
  - intros a b d H. discriminate H.
  - intros root dr t0 f src dst. unfold file_event.
    destruct (child t0 (fst (fst f))) as [[[|] old|cs]|].
    + destruct (String.eqb (md5_of (snd f)) (md5_of old)); [intros []|].
      intros [H|[]]. discriminate H.
    + intros [].
    + intros [].
    + intros [H|[]]. injection H as <- <-. now split.
  - intros root dr t0 f. unfold file_event.
    destruct (child t0 (fst (fst f))) as [[[|] old|cs]|].
    + destruct (String.eqb (md5_of (snd f)) (md5_of old)).
      * split; [intros []|intros H; discriminate H].
      * split; [intros [H|[]]; discriminate H|intros H; discriminate H].
    + split; [intros []|intros H; discriminate H].
    + split; [intros []|intros H; discriminate H].
    + split; [reflexivity|]. intros _. now left.
  - exact Hwf.
  - exact Hq.
  - exact Hne.
Qed.

Lemma updated_iff q s R t :
  wf_node s = true -> names_ok q -> q <> [] ->
  ((exists dst, In (UpdatedFile (TopSource, R ++ q) dst) (mirror_events R s t))
   <-> exists r d old, lookup (Some s) q = Some (File r d)
         /\ lookup t q = Some (File true old)
         /\ md5_of d <> md5_of old).
Proof.
  intros Hwf Hq Hne.
  rewrite (file_line_iff UpdatedFile
             (fun d c => match c with
                         | Some (File true old) =>
                             negb (String.eqb (md5_of d) (md5_of old))
                         | _ => false
                         end)).
  - split.
    + intros (r & d & Hl & Hd).
      destruct (lookup t q) as [[[|] old|cs]|]; try discriminate Hd.
      exists r, d, old. split; [exact Hl|]. split; [reflexivity|].
      apply String.eqb_neq. apply negb_true_iff. exact Hd.
    + intros (r & d & old & Hl & Ht & Hm). exists r, d. split; [exact Hl|].
      rewrite Ht. apply negb_true_iff. apply String.eqb_neq. exact Hm.
  - intros a b d H. discriminate H.
  - intros root dr t0 f src dst. unfold file_event.
    destruct (child t0 (fst (fst f))) as [[[|] old|cs]|].
    + destruct (String.eqb (md5_of (snd f)) (md5_of old)); [intros []|].
      intros [H|[]]. injection H as <- <-. now split.
    + intros [].
    + intros [].
    + intros [H|[]]. discriminate H.
  - intros root dr t0 f. unfold file_event.
    destruct (child t0 (fst (fst f))) as [[[|] old|cs]|].
    + destruct (String.eqb (md5_of (snd f)) (md5_of old)); cbn [negb].
      * split; [intros []|intros H; discriminate H].
      * split; [reflexivity|]. intros _. now left.
    + split; [intros []|intros H; discriminate H].
    + split; [intros []|intros H; discriminate H].
    + split; [intros [H|[]]; discriminate H|intros H; discriminate H].
  - exact Hwf.
  - exact Hq.
  - exact Hne.
Qed.

Lemma no_addition_among_deletions dels ev :
  Forall (fun e => is_deletion e = true) dels -> is_addition ev = true -> ~ In ev dels.
Proof.
  intros Hd Ha Hin. apply (proj1 (Forall_forall _ _) Hd) in Hin.
  destruct ev; discriminate.
Qed.

(* ================================================================= *)
(** * The lines of the directories that the first loop creates *)

Lemma app_eq_self {A} (R l : list A) : R = R ++ l -> l = [].
Proof.
  intros H. rewrite <- (app_nil_r R) in H at 1. apply app_inv_head in H. now symmetry.
Qed.

Lemma no_creation_in_file_event root dr t f d :
  ~ In (CreatedDirectory d) (file_event root dr t f).
Proof.
  unfold file_event. destruct (child t (fst (fst f))) as [[[|] old|cs]|].
  - destruct (String.eqb (md5_of (snd f)) (md5_of old)); [intros []|].
    intros [H|[]]. discriminate H.
  - intros [].
  - intros [].
  - intros [H|[]]. discriminate H.
Qed.

Lemma norm_created R d :
  names_ok R -> d <> curdir -> norm (rel R ++ [d]) = R ++ [d].
Proof. intros HR Hd. now rewrite norm_snoc, norm_rel. Qed.

(** A creation line names a path below the directory, or the directory
    itself when the destination had nothing at its place. *)
Lemma created_line_paths s : forall R t pth,
  wf_node s = true -> names_ok R ->
  In (CreatedDirectory (TopDest, pth)) (mirror_events R s t) ->
  exists q, norm pth = R ++ q /\ (q = [] -> t = None).
Proof.
  induction s as [rb data|es IH] using node_ind'; intros R t pth Hwf HR H;
    [destruct H|].
  apply wf_dir in Hwf as [Hnd Hwf]. cbn [mirror_events] in H.
  apply in_app_or in H as [H|H]; [|apply in_app_or in H as [H|H];
                                   [|apply in_app_or in H as [H|H]]].
  - destruct t as [n|]; [destruct H|]. destruct H as [H|[]]. injection H as <-.
    exists []. rewrite app_nil_r. split; [now apply norm_rel|reflexivity].
  - apply in_map_iff in H as (d & H & Hd). apply filter_In in Hd as [Hd _].
    apply in_dir_names in Hd as (cs & Hd).
    pose proof (norm_created R d HR (proj1 (wf_entry_in _ _ Hwf Hd))) as Hn.
    injection H as H. rewrite H in Hn.
    exists [d]. split; [exact Hn|discriminate].
  - apply in_flat_map in H as (f & _ & H).
    now apply no_creation_in_file_event in H.
  - apply in_flat_map in H as ([x c] & Hin & H). cbn [fst snd] in H.
    destruct (wf_entry_in _ _ Hwf Hin) as [Hx Hwc]. cbn [fst snd] in Hx, Hwc.
    assert (HR' : names_ok (R ++ [x])).
    { apply names_ok_app; [exact HR|]. now repeat constructor. }
    destruct (proj1 (Forall_forall _ _) IH _ Hin _ _ _ Hwc HR' H) as (q & Hq & Hnone).
    exists (x :: q). rewrite Hq, <- app_assoc. split; [reflexivity|discriminate].
Qed.

(** A creation line is logged for the directory at [q] of the source
    exactly when the destination had nothing at [q]. *)
Lemma created_iff q : forall s R t,
  wf_node s = true -> names_ok R -> names_ok q -> q <> [] ->
  ((exists pth, norm pth = R ++ q
                /\ In (CreatedDirectory (TopDest, pth)) (mirror_events R s t))
   <-> (exists cs, lookup (Some s) q = Some (Dir cs)) /\ lookup t q = None).
Proof.
  induction q as [|x q IH]; intros s R t Hwf HR Hq Hne; [now destruct Hne|].
  inversion Hq as [|? ? Hx Hq']; subst.
  assert (HR' : names_ok (R ++ [x])).
  { apply names_ok_app; [exact HR|]. now repeat constructor. }
  destruct s as [rb data|es].
  { split; [intros (pth & _ & [])|].
    intros ((cs & H) & _). rewrite lookup_File in H by exact Hne. discriminate H. }
  pose proof Hwf as Hwf0. apply wf_dir in Hwf as [Hnd Hwf]. split.
  - intros (pth & Hn & H). cbn [mirror_events] in H.
    apply in_app_or in H as [H|H]; [|apply in_app_or in H as [H|H];
                                     [|apply in_app_or in H as [H|H]]].
    + destruct t as [n|]; [destruct H|]. destruct H as [H|[]]. injection H as <-.
      rewrite (norm_rel R HR) in Hn. apply app_eq_self in Hn. discriminate Hn.
    + apply in_map_iff in H as (d & H & Hd). apply filter_In in Hd as [Hd Hpr].
      apply in_dir_names in Hd as (cs & Hd).
      pose proof (norm_created R d HR (proj1 (wf_entry_in _ _ Hwf Hd))) as Hn'.
      injection H as H. rewrite H in Hn'. rewrite Hn in Hn'.
      apply app_inv_head in Hn'. injection Hn' as -> ->.
      cbn [lookup]. rewrite (child_name es d Hx), (assoc_In _ _ _ Hnd Hd).
      split; [now exists cs|]. unfold present in Hpr.
      destruct (child t d); [discriminate Hpr|reflexivity].
    + apply in_flat_map in H as (f & _ & H).
      now apply no_creation_in_file_event in H.
    + apply in_flat_map in H as ([y c] & Hin & H). cbn [fst snd] in H.
      destruct (wf_entry_in _ _ Hwf Hin) as [Hy Hwc]. cbn [fst snd] in Hy, Hwc.
      assert (HRy : names_ok (R ++ [y])).
      { apply names_ok_app; [exact HR|]. now repeat constructor. }
      destruct (created_line_paths c _ _ _ Hwc HRy H) as (q' & Hq'n & Hnone).
      rewrite Hn, <- app_assoc in Hq'n. apply app_inv_head in Hq'n.
      injection Hq'n as <- <-.
      assert (Hqne : q <> []).
      { intros ->. specialize (Hnone eq_refl). destruct (child t x); discriminate Hnone. }
      assert (Hin' : exists pth, norm pth = (R ++ [x]) ++ q
                       /\ In (CreatedDirectory (TopDest, pth))
                            (mirror_events (R ++ [x]) c (or_empty_dir (child t x)))).
      { exists pth. split; [now rewrite <- app_assoc|exact H]. }
      apply (IH c (R ++ [x]) _ Hwc HR' Hq' Hqne) in Hin' as ((cs & Hl) & Ht).
      cbn [lookup]. rewrite (child_name es x Hx), (assoc_In _ _ _ Hnd Hin).
      split; [now exists cs|]. now rewrite <- (lookup_or_empty_dir _ q Hq' Hqne).
  - intros ((cs & Hl) & Ht).
    destruct (lookup_dir_cons es x q _ Hx Hl) as (c & Ha & Hc).
    apply assoc_Some_In in Ha. destruct q as [|y q].
    + cbn [lookup] in Hc, Ht. injection Hc as ->.
      exists (rel R ++ [x]). split; [now apply norm_created|].
      cbn [mirror_events].
      apply in_or_app; right. apply in_or_app; left.
      apply in_map_iff. exists x. split; [reflexivity|].
      apply filter_In. split; [apply in_dir_names; now exists cs|].
      unfold present. now rewrite Ht.
    + assert (Hq2 : y :: q <> []) by discriminate.
      change (lookup t (x :: y :: q)) with (lookup (child t x) (y :: q)) in Ht.
      rewrite <- (lookup_or_empty_dir _ (y :: q) Hq' Hq2) in Ht.
      destruct (proj2 (IH c (R ++ [x]) (or_empty_dir (child t x))
                         (proj2 (wf_entry_in _ _ Hwf Ha)) HR' Hq' Hq2))
        as (pth & Hn & H); [split; [now exists cs|exact Ht]|].
      exists pth. split; [now rewrite <- app_assoc in Hn|].
      cbn [mirror_events].
      apply in_or_app; right. apply in_or_app; right. apply in_or_app; right.
      apply in_flat_map. exists (x, c). split; [exact Ha|exact H].
Qed.

(* ================================================================= *)
(** * The source in a file system shared with the destination *)

Lemma prefix_nil p : prefix [] p.
Proof. now exists p. Qed.

Lemma prefix_cons x p q : prefix (x :: p) (x :: q) <-> prefix p q.
Proof.
  split; intros [r H]; exists r; [now injection H|now rewrite H].
Qed.

Lemma prefix_head x y p q : prefix (x :: p) (y :: q) -> x = y.
Proof. intros [r H]. now injection H. Qed.

Lemma prefix_app p q r : prefix p q -> prefix p (q ++ r).
Proof. intros [s ->]. exists (s ++ r). now rewrite app_assoc. Qed.

Lemma prefix_app_l p q r : prefix (p ++ r) q -> prefix p q.
Proof. intros [s ->]. exists (r ++ s). now rewrite app_assoc. Qed.

(** Two ancestors of one path: one is an ancestor of the other. *)
Lemma prefix_comparable a : forall b c,
  prefix a c -> prefix b c -> prefix a b \/ prefix b a.
Proof.
  induction a as [|x a IH]; intros b c Ha Hb; [left; apply prefix_nil|].
  destruct b as [|y b]; [right; apply prefix_nil|].
  destruct c as [|z c]; [destruct Ha as [r Hr]; discriminate Hr|].
  pose proof (prefix_head _ _ _ _ Ha) as ->.
  pose proof (prefix_head _ _ _ _ Hb) as ->.
  apply prefix_cons in Ha, Hb.
  destruct (IH b c Ha Hb) as [H|H]; [left|right]; now apply prefix_cons.
Qed.

Lemma norm_prefix p d : prefix p d -> prefix (norm p) (norm d).
Proof. intros [r ->]. exists (norm r). apply norm_app. Qed.

Lemma names_ok_norm_any p : names_ok (norm p).
Proof.
  apply Forall_forall. intros x Hx. apply filter_In in Hx as [_ Hx].
  destruct (String.eqb_spec x curdir); [discriminate Hx|assumption].
Qed.

(** A path that resolves does so without its ["."] components. *)
Lemma lookup_norm p : forall t n, lookup t p = Some n -> lookup t (norm p) = Some n.
Proof.
  induction p as [|x q IH]; intros t n H; [exact H|].
  cbn [lookup] in H. unfold norm. cbn [filter]. fold (norm q).
  destruct (String.eqb_spec x curdir) as [->|Hx]; cbn [negb].
  - apply IH. destruct t as [[b d|es]|].
    + cbn [child] in H. now rewrite lookup_None in H.
    + exact H.
    + cbn [child] in H. now rewrite lookup_None in H.
  - cbn [lookup]. now apply IH.
Qed.

(** Writing at [P] is not seen at a path that is neither above nor
    below [P]. *)
Lemma store_frame P v : forall t S,
  names_ok S -> ~ prefix P S -> ~ prefix S P ->
  lookup (store P v t) S = lookup t S.
Proof.
  induction P as [|x P IH]; intros t S HS H1 H2.
  { destruct H1. apply prefix_nil. }
  destruct S as [|y S]; [destruct H2; apply prefix_nil|].
  inversion HS as [|? ? Hy HS']; subst.
  destruct t as [[b d|es]|]; try reflexivity.
  cbn [store lookup]. rewrite !child_name by exact Hy.
  destruct (String.eqb_spec x y) as [->|Hxy].
  - rewrite assoc_bind_entry_same. apply IH; [exact HS'| |].
    + intros H; apply H1; now apply prefix_cons.
    + intros H; apply H2; now apply prefix_cons.
  - now rewrite assoc_bind_entry_other.
Qed.

(** A new empty directory at [P] is not seen at a path that is not
    above [P]. *)
Lemma store_new_frame P : forall t S,
  names_ok P -> names_ok S -> ~ prefix S P -> lookup t P = None ->
  lookup (store P (Some (Dir [])) t) S = lookup t S.
Proof.
  induction P as [|x P IH]; intros t S HP HS H2 Hn.
  - cbn [lookup] in Hn. subst t. cbn [store]. rewrite lookup_None.
    destruct S as [|y S]; [destruct H2; apply prefix_nil|].
    inversion HS as [|? ? Hy HS']; subst.
    cbn [lookup]. rewrite child_name by exact Hy. apply lookup_None.
  - destruct S as [|y S]; [destruct H2; apply prefix_nil|].
    inversion HS as [|? ? Hy HS']; subst.
    inversion HP as [|? ? Hx HP']; subst.
    destruct t as [[b d|es]|]; try reflexivity.
    cbn [lookup] in Hn. rewrite child_name in Hn by exact Hx.
    cbn [store lookup]. rewrite !child_name by exact Hy.
    destruct (String.eqb_spec x y) as [->|Hxy].
    + rewrite assoc_bind_entry_same. apply IH; [exact HP'|exact HS'| |exact Hn].
      intros H; apply H2; now apply prefix_cons.
    + now rewrite assoc_bind_entry_other.
Qed.

Module SharedFacts.
Import Shared.

Section Keeps.

(** The path whose content is followed. *)
Variable S : list string.
Hypothesis S_names : names_ok S.

Lemma keeps_ret {A} (a : A) : keeps S (ret a).
Proof. intros w; reflexivity. Qed.

Lemma keeps_bind {A B} (c : M A) (k : A -> M B) :
  keeps S c -> (forall a, keeps S (k a)) -> keeps S (bind c k).
Proof.
  intros Hc Hk w. unfold bind. specialize (Hc w).
  destruct (c w) as [[a|e|] w1]; cbn [snd] in *; [|exact Hc|exact Hc].
  now rewrite Hk.
Qed.

Lemma keeps_for_each {X} (l : list X) body :
  (forall x, In x l -> keeps S (body x)) -> keeps S (for_each l body).
Proof.
  induction l as [|x r IH]; intros Hb; cbn [for_each]; [apply keeps_ret|].
  apply keeps_bind; [apply Hb; now left|].
  intros _. apply IH. intros; apply Hb; now right.
Qed.

Lemma keeps_except_file_exists c : keeps S c -> keeps S (except_file_exists c).
Proof.
  intros Hc w. unfold except_file_exists. specialize (Hc w).
  destruct (c w) as [[a|[]|] w1]; exact Hc.
Qed.

Lemma keeps_except_file_not_found {A} (c h : M A) :
  keeps S c -> keeps S h -> keeps S (except_file_not_found c h).
Proof.
  intros Hc Hh w. unfold except_file_not_found. specialize (Hc w).
  destruct (c w) as [[a|[]|] w1]; try exact Hc. cbn [snd] in Hc. now rewrite Hh.
Qed.

Lemma keeps_exists p : keeps S (os_path_exists p).
Proof. intros w; reflexivity. Qed.

Lemma keeps_isdir p : keeps S (os_path_isdir p).
Proof. intros w; reflexivity. Qed.

Lemma keeps_log e : keeps S (log e).
Proof. intros w; reflexivity. Qed.

Lemma keeps_open_rb p : keeps S (open_rb p).
Proof.
  intros w. unfold open_rb. destruct (lookup_path p w) as [[[|] d|ds]|]; reflexivity.
Qed.

Lemma keeps_calc_md5 p : keeps S (calc_md5 p).
Proof.
  apply keeps_except_file_not_found; [|apply keeps_ret].
  apply keeps_bind; [apply keeps_open_rb|intros; apply keeps_ret].
Qed.

(** [os.mkdir] creates where nothing is: it is not seen at [S] unless it
    creates [S] itself or something inside it. *)
Lemma keeps_mkdir p : ~ prefix S (norm p) -> keeps S (os_mkdir p).
Proof.
  intros Hp w. unfold os_mkdir. destruct (lookup_path p w) eqn:El; [reflexivity|].
  unfold create_entry. destruct (rev p) as [|x rhead] eqn:Er; [reflexivity|].
  destruct (lookup (fs w) (rev rhead)) as [[b d|es]|] eqn:Eh; try reflexivity.
  cbn [snd]. unfold write_path. cbn [fs].
  assert (Ep : p = rev rhead ++ [x]).
  { rewrite <- (rev_involutive p), Er. reflexivity. }
  assert (El' : lookup (fs w) p = None).
  { destruct p; [destruct (rev rhead); discriminate Ep|exact El]. }
  clear El. rename El' into El.
  apply store_new_frame; [apply names_ok_norm_any|exact S_names|exact Hp|].
  rewrite Ep, lookup_app, Eh in El. cbn [lookup] in El.
  destruct (String.eqb_spec x curdir) as [->|Hx].
  { cbn [child] in El. rewrite String.eqb_refl in El. discriminate El. }
  rewrite child_name in El by exact Hx.
  rewrite Ep, norm_app, lookup_app, (lookup_norm _ _ _ Eh).
  unfold norm at 1. cbn [filter].
  destruct (String.eqb_spec x curdir); [contradiction|].
  cbn [negb lookup]. now rewrite child_name.
Qed.

Lemma keeps_makedirs_rev rp :
  ~ prefix S (norm (rev rp)) -> keeps S (makedirs_rev rp).
Proof.
  induction rp as [|tail rhead IH]; intros Hp; cbn [makedirs_rev];
    [now apply keeps_mkdir|].
  destruct rhead as [|y rhead']; [now apply keeps_mkdir|].
  apply keeps_bind; [apply keeps_exists|]. intros e.
  destruct (negb e); [|now apply keeps_mkdir].
  apply keeps_bind.
  - apply keeps_except_file_exists, IH. intros H. apply Hp.
    cbn [rev] in *. rewrite (norm_app (_ ++ _) [tail]). now apply prefix_app.
  - intros _. destruct (String.eqb tail curdir); [apply keeps_ret|now apply keeps_mkdir].
Qed.

Lemma apart_join p x : apart S p -> apart S (join p x).
Proof.
  intros [H1 H2]. unfold apart, join, join_rel. rewrite norm_app. split.
  - intros H. apply H1. exact (prefix_app_l _ _ _ H).
  - intros H. destruct (prefix_comparable _ _ _ H (prefix_app _ _ (norm [x]) (ex_intro _ [] (eq_sym (app_nil_r _)))))
      as [H'|H']; [exact (H2 H')|exact (H1 H')].
Qed.

Lemma keeps_write p v w : apart S p -> lookup (fs (write_path p v w)) S = lookup (fs w) S.
Proof. intros [H1 H2]. unfold write_path. cbn [fs]. now apply store_frame. Qed.

Lemma keeps_create_entry p v : apart S p -> keeps S (create_entry p v).
Proof.
  intros Hp w. unfold create_entry. destruct (rev p); [reflexivity|].
  destruct (lookup (fs w) _) as [[r d|ds]|]; try reflexivity.
  now apply keeps_write.
Qed.

Lemma keeps_open_wb p v : apart S p -> keeps S (open_wb p v).
Proof.
  intros Hp w. unfold open_wb. destruct (lookup_path _ w) as [[r d|ds]|]; try reflexivity.
  - now apply keeps_write.
  - now apply keeps_create_entry.
Qed.

Lemma keeps_copy2 src p : apart S p -> keeps S (shutil_copy2 src p).
Proof.
  intros Hp. unfold shutil_copy2. apply keeps_bind; [apply keeps_isdir|]. intros d.
  apply keeps_bind; [apply keeps_open_rb|]. intros f.
  destruct d; apply keeps_open_wb; [now apply apart_join|exact Hp].
Qed.

Lemma keeps_remove p : apart S p -> keeps S (os_remove p).
Proof.
  intros Hp w. unfold os_remove. destruct (lookup_path _ w) as [[r d|ds]|]; try reflexivity.
  now apply keeps_write.
Qed.

Lemma keeps_rmtree p : apart S p -> keeps S (shutil_rmtree p).
Proof.
  intros Hp w. unfold shutil_rmtree. destruct (lookup_path _ w) as [[r d|ds]|]; try reflexivity.
  now apply keeps_write.
Qed.

Lemma keeps_create_directory p : apart S p -> keeps S (create_directory p).
Proof.
  intros [_ Hp]. unfold create_directory. apply keeps_bind; [apply keeps_exists|].
  intros e. destruct (negb e); [|apply keeps_ret].
  apply keeps_bind; [|intros _; apply keeps_log].
  unfold os_makedirs. apply keeps_makedirs_rev. now rewrite rev_involutive.
Qed.

Lemma keeps_copy_or_replace src p : apart S p -> keeps S (copy_or_replace src p).
Proof.
  intros Hp. unfold copy_or_replace.
  apply keeps_bind; [apply keeps_calc_md5|]. intros m.
  apply keeps_bind; [apply keeps_exists|]. intros e.
  apply keeps_bind.
  { destruct e; [apply keeps_calc_md5|apply keeps_ret]. }
  intros m'. destruct (negb _); [|apply keeps_ret].
  apply keeps_bind; [now apply keeps_copy2|].
  intros _. destruct m'; apply keeps_log.
Qed.

Lemma keeps_delete_file source_root root file :
  apart S root -> keeps S (delete_file source_root root file).
Proof.
  intros Hp. unfold delete_file.
  apply keeps_bind; [apply keeps_exists|]. intros e.
  destruct (negb e); [|apply keeps_ret].
  apply keeps_bind; [now apply keeps_remove, apart_join|intros; apply keeps_log].
Qed.

Lemma keeps_delete_directory source_root root d :
  apart S root -> keeps S (delete_directory source_root root d).
Proof.
  intros Hp. unfold delete_directory.
  apply keeps_bind; [apply keeps_exists|]. intros e.
  destruct (negb e); [|apply keeps_ret].
  apply keeps_bind; [now apply keeps_rmtree, apart_join|intros; apply keeps_log].
Qed.

(** A walk whose body keeps [S] at every item below [top]. *)
Lemma keeps_walk topdown body fuel : forall top,
  (forall root dirs files, prefix top root -> keeps S (body (root, dirs, files))) ->
  keeps S (walk fuel topdown top body).
Proof.
  induction fuel as [|k IH]; intros top Hb w; [reflexivity|].
  cbn [walk]. destruct (lookup_path top w) as [[b d|es]|]; try reflexivity.
  assert (Hbelow : keeps S (for_each (dir_names es)
                     (fun d => walk k topdown (join top d) body))).
  { apply keeps_for_each. intros d _. apply IH. intros root dirs files H.
    apply Hb. exact (prefix_app_l _ _ _ H). }
  assert (Hhere : keeps S (body (top, dir_names es, file_names es))).
  { apply Hb. exists []. now rewrite app_nil_r. }
  destruct topdown; apply keeps_bind; auto.
Qed.

(** The destination: neither [S], nor above it, nor inside it. *)
Variable D : list string.
Hypothesis D_names : names_ok D.
Hypothesis D_separate : separate S D.

Lemma apart_under p : prefix D p -> apart S p.
Proof.
  intros [q ->]. unfold apart. rewrite norm_app, (names_ok_norm D D_names).
  destruct D_separate as [H1 H2]. split.
  - intros H. apply H2. exact (prefix_app_l _ _ _ H).
  - intros H. destruct (prefix_comparable _ _ _ H (ex_intro _ (norm q) eq_refl))
      as [H'|H']; [exact (H1 H')|exact (H2 H')].
Qed.

Lemma keeps_add_or_update source item : keeps S (add_or_update source D item).
Proof.
  destruct item as [[root dirs] files]. cbn [add_or_update].
  assert (Hr : apart S (join_rel D (os_path_relpath root source))).
  { apply apart_under. now exists (os_path_relpath root source). }
  apply keeps_bind; [now apply keeps_create_directory|]. intros _.
  apply keeps_bind.
  - apply keeps_for_each. intros d _. now apply keeps_create_directory, apart_join.
  - intros _. apply keeps_for_each. intros f _.
    now apply keeps_copy_or_replace, apart_join.
Qed.

Lemma keeps_delete_extra source root dirs files :
  prefix D root -> keeps S (delete_extra source D (root, dirs, files)).
Proof.
  intros Hr. apply apart_under in Hr. cbn [delete_extra]. apply keeps_bind.
  - apply keeps_for_each. intros f _. now apply keeps_delete_file.
  - intros _. apply keeps_for_each. intros f _. now apply keeps_delete_directory.
Qed.

Lemma keeps_first_loop fuel source : keeps S (first_loop fuel source D).
Proof.
  unfold first_loop. apply keeps_walk. intros root dirs files _.
  apply keeps_add_or_update.
Qed.

Lemma keeps_second_loop fuel source : keeps S (second_loop fuel source D).
Proof.
  unfold second_loop. apply keeps_walk. intros root dirs files H.
  now apply keeps_delete_extra.
Qed.

Lemma keeps_sync fuel source : keeps S (sync fuel source D).
Proof.
  unfold sync. apply keeps_bind; [apply keeps_first_loop|].
  intros _. apply keeps_second_loop.
Qed.

End Keeps.

End SharedFacts.

(* ================================================================= *)
(** * The properties of a pass *)

(** With the source and the destination as two trees ([world]): whatever
    the two trees and the log are, the tree under the source root after a
    pass of [sync] is the tree before it, whether the pass returns or
    raises. *)
Lemma sync_keeps_source (w : world) :
  source_tree (snd (sync TopSource TopDest w)) = source_tree w.
Proof.
  revert w. change (keeps_source (sync TopSource TopDest)). unfold sync.
  apply keeps_source_bind; [apply keeps_source_first_loop|].
  intros _. apply keeps_source_second_loop.
Qed.


(** The same pass with any bound on the depth of the walks: the source
    root has no subdirectory when the first walk lists it. *)
Lemma destination_inside_source_any_depth (k : nat) :
  Shared.sync (S k) ["src"] ["src"; "bk"]
    (Shared.World (Some (Dir [("src", Dir [("a", txt "1")])])) [])
  = (Shared.Ok tt,
     Shared.World
       (Some (Dir [("src", Dir [("a", txt "1"); ("bk", Dir [("a", txt "1")])])]))
       [Shared.CreatedDirectory ["src"; "bk"; "."];
        Shared.CopiedNewFile ["src"; "a"] ["src"; "bk"; "."; "a"]]).
Proof. vm_compute. reflexivity. Qed.

(** The other way round, [sync("bk/src", "bk")]: the first loop copies
    [a] next to the source root, the second loop, which finds nothing of
    the destination under the source, deletes the file of the source
    root and then the source root itself. *)
Lemma source_inside_destination_is_deleted :
  Shared.sync 3 ["bk"; "src"] ["bk"]
    (Shared.World (Some (Dir [("bk", Dir [("src", Dir [("a", txt "1")])])])) [])
  = (Shared.Ok tt,
     Shared.World (Some (Dir [("bk", Dir [])]))
       [Shared.CopiedNewFile ["bk"; "src"; "a"] ["bk"; "."; "a"];
        Shared.DeletedFile ["bk"; "src"; "a"];
        Shared.DeletedFile ["bk"; "a"];
        Shared.DeletedDirectory ["bk"; "src"]]).
Proof. vm_compute. reflexivity. Qed.



(** The pass of the example above returns, with the destination made a
    copy of the source. *)
Lemma sync_of_separate_roots_returns :
  Shared.sync 3 ["src"] ["bk"]
    (Shared.World
       (Some (Dir [("src", Dir [("a", txt "1"); ("d", Dir [("c", txt "3")])]);
                   ("bk", Dir [("a", txt "0"); ("b", txt "2")])])) [])
  = (Shared.Ok tt,
     Shared.World
       (Some (Dir [("src", Dir [("a", txt "1"); ("d", Dir [("c", txt "3")])]);
                   ("bk", Dir [("a", txt "1"); ("d", Dir [("c", txt "3")])])]))
       [Shared.CreatedDirectory ["bk"; "."; "d"];
        Shared.UpdatedFile ["src"; "a"] ["bk"; "."; "a"];
        Shared.CopiedNewFile ["src"; "d"; "c"] ["bk"; "d"; "c"];
        Shared.DeletedFile ["bk"; "b"]]).
Proof. vm_compute. reflexivity. Qed.

(** C9. If the source root does not exist, the first loop does nothing
    and the pass returns without an exception; it leaves the destination
    root empty when it is a directory (and as it is otherwise), and every
    line it logs is the deletion of a file or of a directory. *)
Theorem sync_with_missing_source (T : option node) (L : list event) :
  wf_tree T = true ->
  first_loop TopSource TopDest (World None T L) = (Ok tt, World None T L)
  /\ exists evs,
       sync TopSource TopDest (World None T L)
       = (Ok tt, World None (emptied T) (L ++ evs))
       /\ Forall (fun e => is_deletion e = true) evs.
Proof.
  intros HT. now apply sync_without_source_directory.
Qed.

Lemma sync_with_missing_source_witness :
  wf_tree (Some (Dir [("a", Dir [("f", txt "x")]); ("g", txt "y")])) = true
  /\ (first_loop TopSource TopDest
        (World None (Some (Dir [("a", Dir [("f", txt "x")]); ("g", txt "y")])) [])
      = (Ok tt, World None (Some (Dir [("a", Dir [("f", txt "x")]); ("g", txt "y")])) [])
      /\ exists evs,
           sync TopSource TopDest
             (World None (Some (Dir [("a", Dir [("f", txt "x")]); ("g", txt "y")])) [])
           = (Ok tt, World None (Some (Dir [])) ([] ++ evs))
           /\ Forall (fun e => is_deletion e = true) evs).
Proof.
  split; [reflexivity|].
  apply (sync_with_missing_source
           (Some (Dir [("a", Dir [("f", txt "x")]); ("g", txt "y")])) []).
  reflexivity.
Defined.

(** C3, as the code has it: a source root that is a regular file is not
    reported as a pass that could not start.  The pass returns without an
    exception; its first loop does nothing, its second loop empties the
    destination directory, every line it logs is a deletion, and the loop
    of [main] logs no error. *)
Theorem sync_with_file_as_source (r : bool) (data : list byte)
    (T : option node) (L : list event) :
  wf_tree T = true ->
  first_loop TopSource TopDest (World (Some (File r data)) T L)
  = (Ok tt, World (Some (File r data)) T L)
  /\ exists evs,
       sync TopSource TopDest (World (Some (File r data)) T L)
       = (Ok tt, World (Some (File r data)) (emptied T) (L ++ evs))
       /\ Forall (fun e => is_deletion e = true) evs
       /\ main_loop_body TopSource TopDest (World (Some (File r data)) T L)
          = (Ok tt, World (Some (File r data)) (emptied T)
                      ((L ++ evs) ++ [SynchronizationCompleted])).
Proof.
  intros HT.
  destruct (sync_without_source_directory (Some (File r data)) T L eq_refl HT)
    as (H1 & evs & H2 & H3).
  split; [exact H1|]. exists evs. repeat split; auto.
  now rewrite (main_loop_body_ok _ _ H2).
Qed.

Lemma sync_with_file_as_source_witness :
  wf_tree (Some (Dir [("x", Dir [])])) = true
  /\ exists evs,
       sync TopSource TopDest (World (Some (txt "1")) (Some (Dir [("x", Dir [])])) [])
       = (Ok tt, World (Some (txt "1")) (Some (Dir [])) ([] ++ evs)).
Proof.
  split; [reflexivity|].
  destruct (sync_with_file_as_source true (bytes_of_string "1")
              (Some (Dir [("x", Dir [])])) [] eq_refl) as (_ & evs & H & _).
  exists evs. exact H.
Defined.

(** C3 fails as stated: with a regular file as source root and a
    directory [x] under the destination, the pass returns normally after
    deleting [x]. *)
Lemma file_as_source_is_not_a_failed_pass :
  sync TopSource TopDest (World (Some (txt "1")) (Some (Dir [("x", Dir [])])) [])
  = (Ok tt, World (Some (txt "1")) (Some (Dir []))
              [DeletedDirectory (TopDest, ["x"])]).
Proof. reflexivity. Qed.










(** C10. When a relative path is a regular file under the source and a
    directory under the destination, the pass raises an exception: the
    step of a readable file whose destination is a directory raises
    [IsADirectoryError] out of [calc_md5] and leaves the world as it is,
    and the first loop, hence [sync], ends with an exception that the loop
    of [main] logs as an error. *)
Theorem file_over_directory_aborts_pass (s T : option node) (L : list event)
    (p : list string) (r : bool) (data : list byte) (cs : list (string * node)) :
  wf_tree s = true -> wf_tree T = true ->
  names_ok p -> p <> [] ->
  lookup s p = Some (File r data) ->
  lookup T p = Some (Dir cs) ->
  (forall w source_file dest_file data' cs',
     lookup_path source_file w = Some (File true data') ->
     lookup_path dest_file w = Some (Dir cs') ->
     copy_or_replace source_file dest_file w
     = (Raise (IsADirectoryError dest_file), w))
  /\ exists e w',
       first_loop TopSource TopDest (World s T L) = (Raise e, w')
       /\ sync TopSource TopDest (World s T L) = (Raise e, w')
       /\ main_loop_body TopSource TopDest (World s T L)
          = (Ok tt, World (source_tree w') (dest_tree w')
                      (logfile w' ++ [Error e; SynchronizationCompleted])).
Proof.
  intros Hs HT Hp Hne Hl Ht. split.
  - intros w source_file dest_file data' cs' Hsf Hdf.
    unfold copy_or_replace. unfold bind at 1.
    rewrite (calc_md5_file _ _ _ _ Hsf).
    unfold bind at 1. unfold os_path_exists. rewrite Hdf.
    unfold bind. now rewrite (calc_md5_dir _ _ _ Hdf).
  - destruct (sync_stops_in_first_loop s T L Hs
                (mirror_top_conflict_raises s T p r data cs Hs Hp Hne Hl Ht))
      as (e & T1 & evs & _ & H1 & H2 & H3).
    exists e, (World s T1 (L ++ evs)). repeat split; assumption.
Qed.

Lemma file_over_directory_aborts_pass_witness :
  (wf_tree (Some (Dir [("x", txt "1")])) = true
   /\ wf_tree (Some (Dir [("x", Dir [])])) = true
   /\ names_ok ["x"] /\ ["x"] <> []
   /\ lookup (Some (Dir [("x", txt "1")])) ["x"] = Some (txt "1")
   /\ lookup (Some (Dir [("x", Dir [])])) ["x"] = Some (Dir []))
  /\ exists e w',
       sync TopSource TopDest
         (World (Some (Dir [("x", txt "1")])) (Some (Dir [("x", Dir [])])) [])
       = (Raise e, w').
Proof.
  assert (H3 : names_ok ["x"]) by (repeat constructor; discriminate).
  assert (H4 : ["x"] <> []) by discriminate.
  split; [repeat split; solve [reflexivity|assumption]|].
  destruct (file_over_directory_aborts_pass
              (Some (Dir [("x", txt "1")])) (Some (Dir [("x", Dir [])])) []
              ["x"] true (bytes_of_string "1") [] eq_refl eq_refl H3 H4 eq_refl eq_refl)
    as (_ & e & w' & _ & H & _).
  now exists e, w'.
Defined.

Lemma app_one_neq {A} (l : list A) a : l ++ [a] <> l.
Proof.
  intros H. apply (f_equal (@List.length A)) in H.
  rewrite length_app in H. simpl in H. lia.
Qed.



(** C7. Idempotence: when a pass over well-formed trees has completed, a
    second pass over the unchanged source completes as well and performs
    no action: it leaves the source, the destination and the log exactly
    as the first pass left them, so no directory is created, no file is
    copied or overwritten, nothing is deleted and no line is logged. *)
Theorem second_pass_does_nothing (s T : option node) (L : list event) (w' : world) :
  wf_tree s = true -> wf_tree T = true ->
  sync TopSource TopDest (World s T L) = (Ok tt, w') ->
  sync TopSource TopDest w' = (Ok tt, w').
Proof.
  intros Hs HT H.
  destruct (sync_outcome s T L (Ok tt) w' Hs HT H) as (t1 & evs & E & ->).
  destruct (sync_tree_again s T t1 evs Hs HT E) as [Hwf Hagain].
  rewrite (sync_refines s t1 (L ++ evs) Hs Hwf), Hagain.
  unfold lifted. cbn [store source_tree logfile]. now rewrite app_nil_r.
Qed.

Lemma second_pass_does_nothing_witness :
  (wf_tree (Some (Dir [("a", txt "1"); ("d", Dir [])])) = true
   /\ wf_tree (Some (Dir [("a", txt "0"); ("old", txt "2")])) = true
   /\ sync TopSource TopDest
        (World (Some (Dir [("a", txt "1"); ("d", Dir [])]))
               (Some (Dir [("a", txt "0"); ("old", txt "2")])) [])
      = (Ok tt,
         World (Some (Dir [("a", txt "1"); ("d", Dir [])]))
               (Some (Dir [("a", txt "1"); ("d", Dir [])]))
               [CreatedDirectory (TopDest, ["."; "d"]);
                UpdatedFile (TopSource, ["a"]) (TopDest, ["."; "a"]);
                DeletedFile (TopDest, ["old"])]))
  /\ sync TopSource TopDest
       (World (Some (Dir [("a", txt "1"); ("d", Dir [])]))
              (Some (Dir [("a", txt "1"); ("d", Dir [])]))
              [CreatedDirectory (TopDest, ["."; "d"]);
               UpdatedFile (TopSource, ["a"]) (TopDest, ["."; "a"]);
               DeletedFile (TopDest, ["old"])])
     = (Ok tt,
        World (Some (Dir [("a", txt "1"); ("d", Dir [])]))
              (Some (Dir [("a", txt "1"); ("d", Dir [])]))
              [CreatedDirectory (TopDest, ["."; "d"]);
               UpdatedFile (TopSource, ["a"]) (TopDest, ["."; "a"]);
               DeletedFile (TopDest, ["old"])]).
Proof.
  assert (H : sync TopSource TopDest
        (World (Some (Dir [("a", txt "1"); ("d", Dir [])]))
               (Some (Dir [("a", txt "0"); ("old", txt "2")])) [])
      = (Ok tt,
         World (Some (Dir [("a", txt "1"); ("d", Dir [])]))
               (Some (Dir [("a", txt "1"); ("d", Dir [])]))
               [CreatedDirectory (TopDest, ["."; "d"]);
                UpdatedFile (TopSource, ["a"]) (TopDest, ["."; "a"]);
                DeletedFile (TopDest, ["old"])])) by (vm_compute; reflexivity).
  split; [repeat split; solve [reflexivity|exact H]|].
  apply (second_pass_does_nothing
           (Some (Dir [("a", txt "1"); ("d", Dir [])]))
           (Some (Dir [("a", txt "0"); ("old", txt "2")])) []);
    [reflexivity|reflexivity|exact H].
Defined.

(** C1 fails as stated: the destination has a regular file [x] where the
    source has an empty directory [x]; the pass completes without an
    exception and without an action, and the file stays in the
    destination although the source has no file at [x]. *)
Lemma file_stays_where_source_has_directory :
  sync TopSource TopDest
    (World (Some (Dir [("x", Dir [])])) (Some (Dir [("x", txt "1")])) [])
  = (Ok tt, World (Some (Dir [("x", Dir [])])) (Some (Dir [("x", txt "1")])) [])
  /\ lookup (Some (Dir [("x", txt "1")])) ["x"] = Some (txt "1")
  /\ forall r data, lookup (Some (Dir [("x", Dir [])])) ["x"] <> Some (File r data).
Proof. repeat split. discriminate. Qed.

(** Nor is the file of the destination byte-identical in general: a
    destination file whose content differs from the source file's but has
    the same MD5 digest is left as it is. *)
Lemma same_digest_is_not_copied :
  block_a <> block_b
  /\ sync TopSource TopDest
       (World (Some (Dir [("f", File true block_a)]))
              (Some (Dir [("f", File true block_b)])) [])
     = (Ok tt, World (Some (Dir [("f", File true block_a)]))
                     (Some (Dir [("f", File true block_b)])) []).
Proof. split; [discriminate|vm_compute; reflexivity]. Qed.

(** C1, as the code has it: after a pass over well-formed trees that
    completes without an exception, every file under the source has at the
    same relative path under the destination a readable file with the same
    MD5 digest, which is byte-identical unless it is a file of the same
    digest that the destination had before; and every file under the
    destination is at a relative path where the source has a file, or where
    the source has a directory and the destination had that file before. *)
Theorem sync_converges (s T : option node) (L : list event) (w' : world) :
  wf_tree s = true -> wf_tree T = true ->
  sync TopSource TopDest (World s T L) = (Ok tt, w') ->
  (forall p r data, names_ok p -> p <> [] ->
     lookup s p = Some (File r data) ->
     exists old, lookup (dest_tree w') p = Some (File true old)
                 /\ md5_of old = md5_of data
                 /\ (old = data \/ lookup T p = Some (File true old)))
  /\ (forall p b old, names_ok p -> p <> [] ->
        lookup (dest_tree w') p = Some (File b old) ->
        (exists r data, lookup s p = Some (File r data))
        \/ (exists cs, lookup s p = Some (Dir cs)
                       /\ lookup T p = Some (File b old))).
Proof.
  intros Hs HT H.
  destruct (sync_outcome s T L (Ok tt) w' Hs HT H) as (t1 & evs & E & ->).
  cbn [dest_tree]. clear H.
  destruct s as [[rs ds|es]|].
  1, 3: match type of E with
        | sync_tree ?s0 ?T0 = _ =>
            destruct (sync_tree_without_source_directory s0 T0 eq_refl HT)
              as (evs' & E' & _)
        end; rewrite E' in E; injection E as <- _;
        (split; [intros p r data Hp Hne Hl;
                 rewrite ?lookup_File, ?lookup_None in Hl by exact Hne;
                 discriminate|]);
        intros p b old Hp Hne Hl; exfalso;
        destruct T as [[b0 d0|ds0]|]; cbn [emptied] in Hl;
          rewrite ?lookup_File, ?lookup_None, ?lookup_empty_dir in Hl
            by assumption; discriminate.
  unfold sync_tree in E.
  apply and_then_ok in E as ([] & t2 & e1 & e2 & Hm & Hp2 & _).
  pose proof (mirror_top_wf _ T Hs HT) as Hwf2.
  rewrite Hm in Hwf2. unfold keeps_wf in Hwf2. cbn [fst snd] in Hwf2.
  destruct (mirror_top_settles es T t2 e1 Hs Hm) as (ds2 & -> & Hset).
  rewrite (prune_top_dir _ (Dir ds2) Hwf2 eq_refl) in Hp2.
  change (lookup (Some (Dir es)) [curdir]) with (Some (Dir es)) in Hp2.
  assert (E : t1 = Some (pruned (Some (Dir es)) (Dir ds2))) by congruence.
  clear Hp2. subst t1.
  assert (Horigin : forall p b old, names_ok p ->
            lookup (Some (pruned (Some (Dir es)) (Dir ds2))) p = Some (File b old) ->
            lookup T p = Some (File b old)
            \/ exists rb, lookup (Some (Dir es)) p = Some (File rb old)).
  { intros p b old Hp Hl. apply pruned_file_origin in Hl; [|exact Hp].
    assert (Hm' : mirror_node [] (Dir es) T = (Ok tt, Some (Dir ds2), e1)).
    { destruct T as [[b0 d0|ds0]|]; [discriminate|exact Hm|exact Hm]. }
    exact (mirror_file_origin (Dir es) [] T _ _ _ p b old Hs Hp Hm' Hl). }
  split.
  - intros p r data Hp Hne Hl.
    pose proof (settled_pruned _ _ Hs Hset) as Hset'.
    destruct (settled_lookup p _ _ r data Hset' Hp Hne Hl) as (-> & old & Hd & Hmd).
    exists old. split; [exact Hd|]. split; [now symmetry|].
    destruct (Horigin p true old Hp Hd) as [Ho|[rb Ho]]; [now right|].
    left. congruence.
  - intros p b old Hp Hne Hl.
    destruct (Horigin p b old Hp Hl) as [Ho|[rb Ho]];
      [|left; now exists rb, old].
    destruct (lookup (Some (Dir es)) p) as [[r data|cs]|] eqn:Ep.
    + left. now exists r, data.
    + right. now exists cs.
    + rewrite lookup_pruned_absent in Hl; [discriminate|exact Hp|exact Hne|exact Ep].
Qed.

Lemma sync_converges_witness :
  (wf_tree (Some (Dir [("a", txt "1"); ("d", Dir [("b", txt "2")])])) = true
   /\ wf_tree (Some (Dir [("a", txt "0"); ("c", txt "3")])) = true
   /\ sync TopSource TopDest
        (World (Some (Dir [("a", txt "1"); ("d", Dir [("b", txt "2")])]))
               (Some (Dir [("a", txt "0"); ("c", txt "3")])) [])
      = (Ok tt,
         World (Some (Dir [("a", txt "1"); ("d", Dir [("b", txt "2")])]))
               (Some (Dir [("a", txt "1"); ("d", Dir [("b", txt "2")])]))
               [CreatedDirectory (TopDest, ["."; "d"]);
                UpdatedFile (TopSource, ["a"]) (TopDest, ["."; "a"]);
                CopiedNewFile (TopSource, ["d"; "b"]) (TopDest, ["d"; "b"]);
                DeletedFile (TopDest, ["c"])]))
  /\ (exists old,
        lookup (Some (Dir [("a", txt "1"); ("d", Dir [("b", txt "2")])])) ["d"; "b"]
        = Some (File true old)
        /\ md5_of old = md5_of (bytes_of_string "2"))
  /\ (forall p b old, names_ok p -> p <> [] ->
        lookup (Some (Dir [("a", txt "1"); ("d", Dir [("b", txt "2")])])) p
        = Some (File b old) ->
        (exists r data,
           lookup (Some (Dir [("a", txt "1"); ("d", Dir [("b", txt "2")])])) p
           = Some (File r data))
        \/ (exists cs,
              lookup (Some (Dir [("a", txt "1"); ("d", Dir [("b", txt "2")])])) p
              = Some (Dir cs)
              /\ lookup (Some (Dir [("a", txt "0"); ("c", txt "3")])) p
                 = Some (File b old))).
Proof.
  assert (H : sync TopSource TopDest
        (World (Some (Dir [("a", txt "1"); ("d", Dir [("b", txt "2")])]))
               (Some (Dir [("a", txt "0"); ("c", txt "3")])) [])
      = (Ok tt,
         World (Some (Dir [("a", txt "1"); ("d", Dir [("b", txt "2")])]))
               (Some (Dir [("a", txt "1"); ("d", Dir [("b", txt "2")])]))
               [CreatedDirectory (TopDest, ["."; "d"]);
                UpdatedFile (TopSource, ["a"]) (TopDest, ["."; "a"]);
                CopiedNewFile (TopSource, ["d"; "b"]) (TopDest, ["d"; "b"]);
                DeletedFile (TopDest, ["c"])])) by (vm_compute; reflexivity).
  split; [repeat split; solve [reflexivity|exact H]|].
  destruct (sync_converges
              (Some (Dir [("a", txt "1"); ("d", Dir [("b", txt "2")])]))
              (Some (Dir [("a", txt "0"); ("c", txt "3")])) [] _
              eq_refl eq_refl H) as [H1 H2].
  split; [|exact H2].
  assert (Hp : names_ok ["d"; "b"]) by (repeat constructor; discriminate).
  assert (Hne : ["d"; "b"] <> []) by discriminate.
  destruct (H1 ["d"; "b"] true (bytes_of_string "2") Hp Hne eq_refl)
    as (old & Hd & Hm & _).
  exists old. split; [exact Hd|exact Hm].
Defined.

(* ================================================================= *)
(** * Further properties of [backup.py] *)

(** X1. [calc_md5] of a readable file returns the MD5 digest of its whole
    content, whatever its length is against the 8192 bytes of a chunk, and
    leaves the world as it is. *)
Theorem calc_md5_digests_whole_file (p : top * list string) (w : world)
    (data : list byte) :
  lookup_path p w = Some (File true data) ->
  calc_md5 p w = (Ok (Some (MD5.hexdigest data)), w).
Proof.
  intros H. rewrite (calc_md5_file p w true data H). now rewrite md5_of_hexdigest.
Qed.

Lemma calc_md5_digests_whole_file_witness :
  lookup_path (TopSource, ["a"]) (World (Some (Dir [("a", txt "abc")])) None [])
  = Some (File true (bytes_of_string "abc"))
  /\ calc_md5 (TopSource, ["a"]) (World (Some (Dir [("a", txt "abc")])) None [])
     = (Ok (Some (MD5.hexdigest (bytes_of_string "abc"))),
        World (Some (Dir [("a", txt "abc")])) None []).
Proof.
  split; [reflexivity|].
  apply (calc_md5_digests_whole_file (TopSource, ["a"])
           (World (Some (Dir [("a", txt "abc")])) None [])
           (bytes_of_string "abc")).
  reflexivity.
Defined.

(** X2. [calc_md5] returns [None] exactly when nothing exists at the path
    and no component of the path is a regular file: only
    [FileNotFoundError] is caught. *)
Theorem calc_md5_none_iff (p : top * list string) (w w' : world) :
  calc_md5 p w = (Ok None, w')
  <-> lookup_path p w = None
      /\ stops_at_file (tree_of (fst p) w) (snd p) = false
      /\ w' = w.
Proof.
  unfold calc_md5, except_file_not_found, bind, open_rb, unresolved, ret.
  destruct (lookup_path p w) as [[[|] data|ds]|] eqn:E.
  - split; [intros [= _]|intros (H & _)]; discriminate.
  - split; [intros [= _]|intros (H & _)]; discriminate.
  - split; [intros [= _]|intros (H & _)]; discriminate.
  - destruct (stops_at_file _ _).
    + split; [discriminate|intros (_ & H & _); discriminate].
    + split; [intros [= <-]; auto|intros (_ & _ & ->); reflexivity].
Qed.

(** X3. [calc_md5] raises in three cases only, and then leaves the world
    as it is: the file is unreadable, the path is a directory, or a
    component of the path is a regular file. *)
Theorem calc_md5_raises_iff (p : top * list string) (w w' : world) (e : exn) :
  calc_md5 p w = (Raise e, w')
  <-> w' = w
      /\ ((exists data, lookup_path p w = Some (File false data)
                        /\ e = PermissionError p)
          \/ (exists ds, lookup_path p w = Some (Dir ds)
                         /\ e = IsADirectoryError p)
          \/ (lookup_path p w = None
              /\ stops_at_file (tree_of (fst p) w) (snd p) = true
              /\ e = NotADirectoryError p)).
Proof.
  unfold calc_md5, except_file_not_found, bind, open_rb, unresolved, ret.
  destruct (lookup_path p w) as [[[|] data|ds]|] eqn:E.
  - split; [discriminate|].
    intros (_ & [(d & [= ] & _)|[(d & [= ] & _)|([= ] & _)]]).
  - split.
    + intros [= <- <-]. split; [reflexivity|]. left. now exists data.
    + intros (-> & [(d & _ & ->)|[(d & [= ] & _)|([= ] & _)]]). reflexivity.
  - split.
    + intros [= <- <-]. split; [reflexivity|]. right; left. now exists ds.
    + intros (-> & [(d & [= ] & _)|[(d & _ & ->)|([= ] & _)]]). reflexivity.
  - destruct (stops_at_file _ _) eqn:Es.
    + split.
      * intros [= <- <-]. split; [reflexivity|]. right; right. auto.
      * intros (-> & [(d & [= ] & _)|[(d & [= ] & _)|(_ & _ & ->)]]). reflexivity.
    + split; [discriminate|].
      intros (_ & [(d & [= ] & _)|[(d & [= ] & _)|(_ & [= ] & _)]]).
Qed.

(** X4. The second loop never raises on a well-formed destination.  It
    leaves under the destination exactly the entries whose path exists
    under the source, and the files it leaves have the bytes they had. *)
Theorem second_loop_keeps_what_source_has (s T : option node) (L : list event) :
  wf_tree T = true ->
  exists T' evs,
    second_loop TopSource TopDest (World s T L) = (Ok tt, World s T' (L ++ evs))
    /\ (forall p, names_ok p -> p <> [] ->
          (lookup T' p <> None <-> lookup T p <> None /\ lookup s p <> None))
    /\ (forall p b data, names_ok p -> p <> [] ->
          (lookup T' p = Some (File b data)
           <-> lookup T p = Some (File b data) /\ lookup s p <> None)).
Proof.
  intros HT. rewrite (second_loop_refines s T L HT), (prune_top_closed s T HT).
  destruct T as [[b0 d0|ds]|].
  - exists (Some (File b0 d0)), []. split; [reflexivity|].
    split; intros; rewrite lookup_File by assumption;
      (split; [congruence|intros [Hx _]; congruence]).
  - exists (Some (pruned (lookup s [curdir]) (Dir ds))),
           (prune_events [] (lookup s [curdir]) (Dir ds)).
    split; [reflexivity|].
    assert (Hl : forall p, names_ok p -> p <> [] ->
              lookup (Some (pruned (lookup s [curdir]) (Dir ds))) p
              = match lookup s p with
                | Some n => option_map (pruned (Some n)) (lookup (Some (Dir ds)) p)
                | None => None
                end).
    { intros p Hp Hne. destruct (lookup s p) as [n|] eqn:E.
      - rewrite lookup_pruned; [|exact Hp|rewrite lookup_top, E; congruence].
        now rewrite lookup_top, E.
      - apply lookup_pruned_absent; [exact Hp|exact Hne|now rewrite lookup_top]. }
    split.
    + intros p Hp Hne. rewrite (Hl p Hp Hne).
      destruct (lookup s p) as [n|];
        [|split; [congruence|intros [_ Hx]; congruence]].
      destruct (lookup (Some (Dir ds)) p); cbn [option_map];
        (split; [intros Hx; try (split; congruence); congruence
                |intros [Hx Hy]; congruence]).
    + intros p b data Hp Hne. rewrite (Hl p Hp Hne).
      destruct (lookup s p) as [n|];
        [|split; [congruence|intros [_ Hx]; congruence]].
      destruct (lookup (Some (Dir ds)) p) as [[b1 d1|cs]|]; cbn [option_map pruned];
        (split; [intros Hx; try (split; congruence); congruence
                |intros [Hx Hy]; congruence]).
  - exists None, []. split; [reflexivity|].
    split; intros; rewrite lookup_None;
      (split; [congruence|intros [Hx _]; congruence]).
Qed.

Lemma second_loop_keeps_what_source_has_witness :
  wf_tree (Some (Dir [("a", txt "1"); ("b", txt "2")])) = true
  /\ exists T' evs,
       second_loop TopSource TopDest
         (World (Some (Dir [("a", txt "0")]))
                (Some (Dir [("a", txt "1"); ("b", txt "2")])) [])
       = (Ok tt, World (Some (Dir [("a", txt "0")])) T' ([] ++ evs)).
Proof.
  split; [reflexivity|].
  destruct (second_loop_keeps_what_source_has
              (Some (Dir [("a", txt "0")]))
              (Some (Dir [("a", txt "1"); ("b", txt "2")])) [] eq_refl)
    as (T' & evs & H & _).
  now exists T', evs.
Defined.

(** X5. The lines that the second loop logs are deletions only, and they
    name what was deleted: a file deletion is logged for a path exactly
    when the destination had a regular file there and the source has
    nothing there, and a directory deletion exactly when the destination
    had a directory there and the source has nothing there. *)
Theorem second_loop_logs_what_it_deletes (s T : option node) (L : list event) :
  wf_tree T = true ->
  exists T' evs,
    second_loop TopSource TopDest (World s T L) = (Ok tt, World s T' (L ++ evs))
    /\ Forall (fun e => is_deletion e = true) evs
    /\ (forall p, names_ok p ->
          (In (DeletedFile (TopDest, p)) evs
           <-> p <> [] /\ (exists b data, lookup T p = Some (File b data))
               /\ lookup s p = None))
    /\ (forall p, names_ok p ->
          (In (DeletedDirectory (TopDest, p)) evs
           <-> p <> [] /\ (exists cs, lookup T p = Some (Dir cs))
               /\ lookup s p = None)).
Proof.
  intros HT. rewrite (second_loop_refines s T L HT), (prune_top_closed s T HT).
  destruct T as [[b0 d0|ds]|].
  - exists (Some (File b0 d0)), []. split; [reflexivity|]. split; [constructor|].
    split; intros p Hp; (split; [intros []|]).
    + intros (Hne & (x & y & H) & _).
      rewrite lookup_File in H by exact Hne. discriminate.
    + intros (Hne & (x & H) & _).
      rewrite lookup_File in H by exact Hne. discriminate.
  - exists (Some (pruned (lookup s [curdir]) (Dir ds))),
           (prune_events [] (lookup s [curdir]) (Dir ds)).
    split; [reflexivity|]. split; [apply prune_events_deletions|].
    split; intros p Hp.
    + split.
      * intros H.
        destruct (prune_events_sound (Dir ds) [] (lookup s [curdir]) p HT Hp) as [Hf _].
        destruct (Hf H) as (Hne & Hl & Hs). rewrite lookup_top in Hs by exact Hne.
        auto.
      * intros (Hne & (b & data & Hl) & Hs).
        apply (deleted_file_logged p (Dir ds) [] _ b data HT Hp Hl); [|exact Hne].
        now rewrite lookup_top.
    + split.
      * intros H.
        destruct (prune_events_sound (Dir ds) [] (lookup s [curdir]) p HT Hp) as [_ Hf].
        destruct (Hf H) as (Hne & Hl & Hs). rewrite lookup_top in Hs by exact Hne.
        auto.
      * intros (Hne & (cs & Hl) & Hs).
        apply (count_occ_In event_eq_dec).
        rewrite (deleted_directory_logged_once p (Dir ds) [] _ cs HT Hp Hne Hl);
          [lia|now rewrite lookup_top].
  - exists None, []. split; [reflexivity|]. split; [constructor|].
    split; intros p Hp; (split; [intros []|]).
    + intros (Hne & (x & y & H) & _). rewrite lookup_None in H. discriminate.
    + intros (Hne & (x & H) & _). rewrite lookup_None in H. discriminate.
Qed.

Lemma second_loop_logs_what_it_deletes_witness :
  wf_tree (Some (Dir [("a", txt "1"); ("b", txt "2")])) = true
  /\ exists T' evs,
       second_loop TopSource TopDest
         (World (Some (Dir [("a", txt "0")]))
                (Some (Dir [("a", txt "1"); ("b", txt "2")])) [])
       = (Ok tt, World (Some (Dir [("a", txt "0")])) T' ([] ++ evs))
       /\ In (DeletedFile (TopDest, ["b"])) evs.
Proof.
  split; [reflexivity|].
  destruct (second_loop_logs_what_it_deletes
              (Some (Dir [("a", txt "0")]))
              (Some (Dir [("a", txt "1"); ("b", txt "2")])) [] eq_refl)
    as (T' & evs & H & _ & Hf & _).
  exists T', evs. split; [exact H|].
  apply (Hf ["b"]); [repeat constructor; discriminate|].
  split; [discriminate|]. split; [|reflexivity].
  now exists true, (bytes_of_string "2").
Defined.

(** X6. After a pass that completes, the destination has an entry at
    exactly the relative paths where the source has one.  Where the source
    has a directory the destination has a directory, except that a regular
    file which the destination had at the path of an empty source
    directory is still there. *)
Theorem sync_mirrors_paths (s T : option node) (L : list event) (w' : world) :
  wf_tree s = true -> wf_tree T = true ->
  sync TopSource TopDest (World s T L) = (Ok tt, w') ->
  forall p, names_ok p -> p <> [] ->
    (lookup (dest_tree w') p <> None <-> lookup s p <> None)
    /\ (forall cs, lookup s p = Some (Dir cs) ->
          (exists cs', lookup (dest_tree w') p = Some (Dir cs'))
          \/ (cs = []
              /\ exists b d, lookup T p = Some (File b d)
                             /\ lookup (dest_tree w') p = Some (File b d))).
Proof.
  intros Hs HT H p Hp Hne.
  destruct s as [[rs ds|es]|].
  1, 3: match type of H with
        | sync _ _ (World ?s0 _ _) = _ =>
            destruct (sync_completed_without_source_directory s0 T L w' p
                        eq_refl HT H Hne Hp) as [E1 E2]
        end; rewrite E1, E2; (split; [tauto|discriminate]).
  destruct (sync_completed es T L w' Hs HT H) as (ds2 & e1 & Hm & Hwf2 & Hset & ->).
  cbn [dest_tree].
  pose proof (settled_pruned _ _ Hs Hset) as Hset'.
  split; [split|].
  - intros Hd Hn. apply Hd. now apply lookup_pruned_absent.
  - intros Hl. destruct (lookup (Some (Dir es)) p) as [n|] eqn:E; [|congruence].
    destruct (settled_lookup_some p _ _ n Hset' Hp Hne E) as (n' & -> & _).
    discriminate.
  - intros cs E.
    destruct (settled_lookup_some p _ _ _ Hset' Hp Hne E) as (n' & Hl & Hn).
    destruct n' as [b d|cs']; [right|left; now exists cs'].
    split; [exact (settled_on_file _ _ _ Hn)|]. exists b, d. split; [|exact Hl].
    pose proof Hl as Hl'. apply pruned_file_origin in Hl'; [|exact Hp].
    destruct (mirror_file_origin (Dir es) [] T _ _ _ p b d Hs Hp Hm Hl')
      as [Ho|[rb Ho]]; [exact Ho|congruence].
Qed.

Lemma sync_mirrors_paths_witness :
  (wf_tree (Some (Dir [("a", txt "1"); ("d", Dir [])])) = true
   /\ wf_tree (Some (Dir [("a", txt "0"); ("old", txt "2")])) = true
   /\ sync TopSource TopDest
        (World (Some (Dir [("a", txt "1"); ("d", Dir [])]))
               (Some (Dir [("a", txt "0"); ("old", txt "2")])) [])
      = (Ok tt,
         World (Some (Dir [("a", txt "1"); ("d", Dir [])]))
               (Some (Dir [("a", txt "1"); ("d", Dir [])]))
               [CreatedDirectory (TopDest, ["."; "d"]);
                UpdatedFile (TopSource, ["a"]) (TopDest, ["."; "a"]);
                DeletedFile (TopDest, ["old"])])
   /\ names_ok ["d"] /\ ["d"] <> [])
  /\ (lookup (Some (Dir [("a", txt "1"); ("d", Dir [])])) ["d"] <> None
      <-> lookup (Some (Dir [("a", txt "1"); ("d", Dir [])])) ["d"] <> None).
Proof.
  assert (H : sync TopSource TopDest
        (World (Some (Dir [("a", txt "1"); ("d", Dir [])]))
               (Some (Dir [("a", txt "0"); ("old", txt "2")])) [])
      = (Ok tt,
         World (Some (Dir [("a", txt "1"); ("d", Dir [])]))
               (Some (Dir [("a", txt "1"); ("d", Dir [])]))
               [CreatedDirectory (TopDest, ["."; "d"]);
                UpdatedFile (TopSource, ["a"]) (TopDest, ["."; "a"]);
                DeletedFile (TopDest, ["old"])])) by (vm_compute; reflexivity).
  assert (Hp : names_ok ["d"]) by (repeat constructor; discriminate).
  assert (Hne : ["d"] <> []) by discriminate.
  split; [repeat split; solve [reflexivity|assumption]|].
  exact (proj1 (sync_mirrors_paths
                  (Some (Dir [("a", txt "1"); ("d", Dir [])]))
                  (Some (Dir [("a", txt "0"); ("old", txt "2")])) [] _
                  eq_refl eq_refl H ["d"] Hp Hne)).
Defined.

(** X7. When the destination has the very tree of the source and every
    file of it can be read, a pass does nothing: it returns without an
    exception and leaves the destination and the log as they are. *)
Theorem sync_of_identical_trees (s : option node) (L : list event) :
  wf_tree s = true -> readable_tree s = true ->
  sync TopSource TopDest (World s s L) = (Ok tt, World s s L).
Proof.
  intros Hwf Hr. rewrite (sync_refines s s L Hwf Hwf).
  rewrite (sync_tree_of_identical_trees s Hwf Hr).
  unfold lifted. cbn [store source_tree logfile]. now rewrite app_nil_r.
Qed.

Lemma sync_of_identical_trees_witness :
  (wf_tree (Some (Dir [("a", txt "1"); ("d", Dir [("b", txt "2")])])) = true
   /\ readable_tree (Some (Dir [("a", txt "1"); ("d", Dir [("b", txt "2")])])) = true)
  /\ sync TopSource TopDest
       (World (Some (Dir [("a", txt "1"); ("d", Dir [("b", txt "2")])]))
              (Some (Dir [("a", txt "1"); ("d", Dir [("b", txt "2")])])) [])
     = (Ok tt,
        World (Some (Dir [("a", txt "1"); ("d", Dir [("b", txt "2")])]))
              (Some (Dir [("a", txt "1"); ("d", Dir [("b", txt "2")])])) []).
Proof.
  split; [split; reflexivity|].
  apply (sync_of_identical_trees
           (Some (Dir [("a", txt "1"); ("d", Dir [("b", txt "2")])])) []);
    reflexivity.
Defined.

(** X8. The first loop never removes anything: whether it returns or
    raises, every entry that the destination had is still there, a
    directory as a directory and a file as a file, and no line it logs is
    a deletion. *)
Theorem first_loop_never_removes (s T : option node) (L : list event)
    (r : result unit) (w' : world) :
  wf_tree s = true ->
  first_loop TopSource TopDest (World s T L) = (r, w') ->
  (forall p n, names_ok p -> lookup T p = Some n ->
     exists n', lookup (dest_tree w') p = Some n' /\ is_dir n' = is_dir n)
  /\ exists evs, logfile w' = L ++ evs
                 /\ Forall (fun ev => is_deletion ev = false) evs.
Proof.
  intros Hs. rewrite (first_loop_refines s T L Hs).
  destruct (mirror_top s T) as [[r1 T1] evs] eqn:E.
  unfold lifted. cbn [store source_tree logfile]. intros [= _ <-].
  cbn [dest_tree logfile].
  split; [exact (mirror_top_keeps_entries s T _ _ _ Hs E)|].
  exists evs. split; [reflexivity|].
  exact (addition_is_no_deletion _ (mirror_top_events_additions s T _ _ _ E)).
Qed.

Lemma first_loop_never_removes_witness :
  wf_tree (Some (Dir [("a", txt "1")])) = true
  /\ exists n',
       lookup (dest_tree (snd (first_loop TopSource TopDest
                 (World (Some (Dir [("a", txt "1")]))
                        (Some (Dir [("old", txt "2")])) [])))) ["old"] = Some n'
       /\ is_dir n' = is_dir (txt "2").
Proof.
  split; [reflexivity|].
  destruct (first_loop TopSource TopDest
              (World (Some (Dir [("a", txt "1")])) (Some (Dir [("old", txt "2")])) []))
    as [r w'] eqn:E.
  destruct (first_loop_never_removes
              (Some (Dir [("a", txt "1")])) (Some (Dir [("old", txt "2")])) [] r w'
              eq_refl E) as [H _].
  apply (H ["old"] (txt "2")); [repeat constructor; discriminate|reflexivity].
Defined.

(** X9. Whether a pass completes or raises, what it adds to the log is a
    run of creation and copy lines followed by a run of deletion lines: no
    directory is created and no file copied after the first deletion, and
    a pass that raises has deleted nothing. *)
Theorem sync_logs_additions_then_deletions (s T : option node) (L : list event)
    (r : result unit) (w' : world) :
  wf_tree s = true -> wf_tree T = true ->
  sync TopSource TopDest (World s T L) = (r, w') ->
  exists adds dels,
    logfile w' = L ++ adds ++ dels
    /\ Forall (fun ev => is_addition ev = true) adds
    /\ Forall (fun ev => is_deletion ev = true) dels
    /\ (forall e, r = Raise e -> dels = []).
Proof.
  intros Hs HT H.
  destruct (sync_outcome s T L r w' Hs HT H) as (t1 & evs & E & ->).
  destruct (sync_tree_events s T r t1 evs Hs HT E) as (adds & dels & -> & Hrest).
  exists adds, dels. split; [reflexivity|exact Hrest].
Qed.

Lemma sync_logs_additions_then_deletions_witness :
  (wf_tree (Some (Dir [("a", txt "1")])) = true
   /\ wf_tree (Some (Dir [("old", txt "2")])) = true
   /\ sync TopSource TopDest
        (World (Some (Dir [("a", txt "1")])) (Some (Dir [("old", txt "2")])) [])
      = (Ok tt,
         World (Some (Dir [("a", txt "1")])) (Some (Dir [("a", txt "1")]))
           [CopiedNewFile (TopSource, ["a"]) (TopDest, ["."; "a"]);
            DeletedFile (TopDest, ["old"])]))
  /\ exists adds dels,
       [CopiedNewFile (TopSource, ["a"]) (TopDest, ["."; "a"]);
        DeletedFile (TopDest, ["old"])] = [] ++ adds ++ dels
       /\ Forall (fun ev => is_addition ev = true) adds
       /\ Forall (fun ev => is_deletion ev = true) dels.
Proof.
  assert (H : sync TopSource TopDest
        (World (Some (Dir [("a", txt "1")])) (Some (Dir [("old", txt "2")])) [])
      = (Ok tt,
         World (Some (Dir [("a", txt "1")])) (Some (Dir [("a", txt "1")]))
           [CopiedNewFile (TopSource, ["a"]) (TopDest, ["."; "a"]);
            DeletedFile (TopDest, ["old"])])) by (vm_compute; reflexivity).
  split; [repeat split; solve [reflexivity|exact H]|].
  destruct (sync_logs_additions_then_deletions
              (Some (Dir [("a", txt "1")])) (Some (Dir [("old", txt "2")])) [] _ _
              eq_refl eq_refl H) as (adds & dels & E & Ha & Hd & _).
  now exists adds, dels.
Defined.

(** X10. A pass over well-formed trees completes without an exception
    exactly when the destination is compatible with the source: every
    file under the source can be read and has nothing or a readable
    regular file at its path under the destination, every directory under
    the source has at its path nothing, a directory, or (if the source
    directory is empty) a regular file, and the destination root is not a
    regular file when the source root is a directory. *)
Theorem sync_completes_iff (s T : option node) (L : list event) :
  wf_tree s = true -> wf_tree T = true ->
  ((exists w', sync TopSource TopDest (World s T L) = (Ok tt, w'))
   <-> compatible_top s T = true).
Proof.
  intros Hs HT. rewrite (sync_refines s T L Hs HT).
  rewrite <- (sync_tree_returns s T Hs HT), returns_true.
  destruct (sync_tree s T) as [[r t1] evs]. unfold lifted.
  cbn [store source_tree logfile]. split.
  - intros (w' & [= -> _]). now exists t1, evs.
  - intros (t' & evs' & [= -> _ _]). now eexists.
Qed.

Lemma sync_completes_iff_witness :
  (wf_tree (Some (Dir [("a", txt "1"); ("d", Dir [("b", txt "2")])])) = true
   /\ wf_tree (Some (Dir [("d", txt "3")])) = true)
  /\ ~ exists w',
         sync TopSource TopDest
           (World (Some (Dir [("a", txt "1"); ("d", Dir [("b", txt "2")])]))
                  (Some (Dir [("d", txt "3")])) [])
         = (Ok tt, w').
Proof.
  split; [split; reflexivity|].
  intros H.
  apply (sync_completes_iff
           (Some (Dir [("a", txt "1"); ("d", Dir [("b", txt "2")])]))
           (Some (Dir [("d", txt "3")])) [] eq_refl eq_refl) in H.
  discriminate H.
Defined.

(** X11. A first backup, into a destination that is missing or an empty
    directory, completes exactly when every file under the source
    directory can be read; the destination then has, at the very paths of
    the source files, readable files with the same bytes, and no other
    file. *)
Theorem backup_into_empty_destination (es : list (string * node))
    (T : option node) (L : list event) :
  wf_node (Dir es) = true -> T = None \/ T = Some (Dir []) ->
  ((exists w', sync TopSource TopDest (World (Some (Dir es)) T L) = (Ok tt, w'))
   <-> readable (Dir es) = true)
  /\ forall w', sync TopSource TopDest (World (Some (Dir es)) T L) = (Ok tt, w') ->
       forall p data, names_ok p -> p <> [] ->
         (lookup (Some (Dir es)) p = Some (File true data)
          <-> lookup (dest_tree w') p = Some (File true data))
         /\ (forall d', lookup (dest_tree w') p <> Some (File false d')).
Proof.
  intros Hs HT.
  assert (HwT : wf_tree T = true) by (destruct HT as [-> | ->]; reflexivity).
  split.
  - rewrite (sync_refines (Some (Dir es)) T L Hs HwT).
    rewrite <- (compatible_top_fresh es T Hs HT).
    rewrite <- (sync_tree_returns (Some (Dir es)) T Hs HwT), returns_true.
    destruct (sync_tree (Some (Dir es)) T) as [[r t1] evs]. unfold lifted.
    cbn [store source_tree logfile]. split.
    + intros (w' & [= -> _]). now exists t1, evs.
    + intros (t' & evs' & [= -> _ _]). now eexists.
  - intros w' H p data Hp Hne.
    destruct (sync_completed es T L w' Hs HwT H) as (ds2 & e1 & Hm & Hwf2 & Hset & ->).
    cbn [dest_tree].
    pose proof (settled_pruned _ _ Hs Hset) as Hset'.
    assert (Horigin : forall b old,
              lookup (Some (pruned (Some (Dir es)) (Dir ds2))) p = Some (File b old) ->
              exists rb, lookup (Some (Dir es)) p = Some (File rb old)).
    { intros b old Hl. apply pruned_file_origin in Hl; [|exact Hp].
      destruct (mirror_file_origin (Dir es) [] T _ _ _ p b old Hs Hp Hm Hl)
        as [Ho|Ho]; [|exact Ho].
      rewrite (lookup_fresh T p HT Hp Hne) in Ho. discriminate. }
    assert (Hfwd : forall r d, lookup (Some (Dir es)) p = Some (File r d) ->
              r = true
              /\ lookup (Some (pruned (Some (Dir es)) (Dir ds2))) p = Some (File true d)).
    { intros r d Hl.
      destruct (settled_lookup p _ _ r d Hset' Hp Hne Hl) as (-> & old & Hd & _).
      split; [reflexivity|]. destruct (Horigin true old Hd) as (rb & Ho).
      congruence. }
    split; [split|].
    + intros Hl. exact (proj2 (Hfwd _ _ Hl)).
    + intros Hl. destruct (Horigin _ _ Hl) as (rb & Ho).
      destruct (Hfwd _ _ Ho) as [-> _]. exact Ho.
    + intros d' Hl. destruct (Horigin _ _ Hl) as (rb & Ho).
      destruct (Hfwd _ _ Ho) as [_ Hd]. congruence.
Qed.

Lemma backup_into_empty_destination_witness :
  (wf_node (Dir [("a", txt "1"); ("d", Dir [("b", txt "2")])]) = true
   /\ (@None node = None \/ @None node = Some (Dir [])))
  /\ ((exists w',
         sync TopSource TopDest
           (World (Some (Dir [("a", txt "1"); ("d", Dir [("b", txt "2")])])) None [])
         = (Ok tt, w'))
      <-> readable (Dir [("a", txt "1"); ("d", Dir [("b", txt "2")])]) = true).
Proof.
  assert (HT : @None node = None \/ @None node = Some (Dir [])) by (now left).
  split; [split; [reflexivity|exact HT]|].
  exact (proj1 (backup_into_empty_destination
                  [("a", txt "1"); ("d", Dir [("b", txt "2")])] None []
                  eq_refl HT)).
Defined.

(** X12. A pass never rewrites and never deletes a destination file that
    has the MD5 digest of the source file of the same path: whether the
    pass completes or raises, that file is in the destination afterwards
    as it was. *)
Theorem sync_keeps_file_of_same_digest (s T : option node) (L : list event)
    (r : result unit) (w' : world) (p : list string) (rb : bool)
    (data old : list byte) :
  wf_tree s = true -> wf_tree T = true ->
  names_ok p -> p <> [] ->
  lookup s p = Some (File rb data) ->
  lookup T p = Some (File true old) ->
  md5_of data = md5_of old ->
  sync TopSource TopDest (World s T L) = (r, w') ->
  lookup (dest_tree w') p = Some (File true old).
Proof.
  intros Hs HT Hp Hne Hls HlT Hm H.
  destruct (sync_outcome s T L r w' Hs HT H) as (t1 & evs & E & ->).
  cbn [dest_tree]. unfold sync_tree in E.
  destruct s as [[b0 d0|es]|];
    [rewrite lookup_File in Hls by exact Hne; discriminate Hls|
    |rewrite lookup_None in Hls; discriminate Hls].
  destruct T as [[b1 d1|ds]|];
    [rewrite lookup_File in HlT by exact Hne; discriminate HlT|
    |rewrite lookup_None in HlT; discriminate HlT].
  cbn [mirror_top] in E.
  pose proof (mirror_node_wf (Dir es) [] (Some (Dir ds)) Hs HT) as Hwf1.
  destruct (mirror_node [] (Dir es) (Some (Dir ds))) as [[r1 T1] e1] eqn:Em.
  unfold keeps_wf in Hwf1. cbn [fst snd] in Hwf1.
  pose proof (mirror_same_digest_frame p (Dir es) [] _ rb data old _ _ _
                Hs Hp Hne Hls HlT Hm Em) as H1.
  clear Hm.
  destruct r1 as [[]|e]; [|injection E as _ <- _; exact H1].
  rewrite and_then_unit in E.
  destruct T1 as [[b2 d2|ds1]|];
    [rewrite lookup_File in H1 by exact Hne; discriminate H1|
    |rewrite lookup_None in H1; discriminate H1].
  rewrite (prune_top_dir (Some (Dir es)) (Dir ds1) Hwf1 eq_refl) in E.
  change (lookup (Some (Dir es)) [curdir]) with (Some (Dir es)) in E.
  assert (Et : t1 = Some (pruned (Some (Dir es)) (Dir ds1))) by congruence.
  clear E. subst t1.
  rewrite lookup_pruned; [|exact Hp|intros _; congruence].
  now rewrite H1.
Qed.

Lemma sync_keeps_file_of_same_digest_witness :
  (wf_tree (Some (Dir [("f", File true block_a)])) = true
   /\ wf_tree (Some (Dir [("f", File true block_b)])) = true
   /\ names_ok ["f"] /\ ["f"] <> []
   /\ lookup (Some (Dir [("f", File true block_a)])) ["f"] = Some (File true block_a)
   /\ lookup (Some (Dir [("f", File true block_b)])) ["f"] = Some (File true block_b)
   /\ md5_of block_a = md5_of block_b)
  /\ lookup (dest_tree (snd (sync TopSource TopDest
               (World (Some (Dir [("f", File true block_a)]))
                      (Some (Dir [("f", File true block_b)])) [])))) ["f"]
     = Some (File true block_b).
Proof.
  assert (Hp : names_ok ["f"]) by (repeat constructor; discriminate).
  assert (Hne : ["f"] <> []) by discriminate.
  assert (Hm : md5_of block_a = md5_of block_b) by (vm_compute; reflexivity).
  split.
  { split; [reflexivity|]. split; [reflexivity|]. split; [exact Hp|].
    split; [exact Hne|]. split; [reflexivity|]. split; [reflexivity|exact Hm]. }
  destruct (sync TopSource TopDest
              (World (Some (Dir [("f", File true block_a)]))
                     (Some (Dir [("f", File true block_b)])) [])) as [r w'] eqn:E.
  exact (sync_keeps_file_of_same_digest
           (Some (Dir [("f", File true block_a)]))
           (Some (Dir [("f", File true block_b)])) [] r w' ["f"] true
           block_a block_b eq_refl eq_refl Hp Hne eq_refl eq_refl Hm E).
Defined.

(** X13. The loop of [main] never ends with an exception: over
    well-formed trees, [n] turns return, leave the source as it is, and
    log exactly [n] lines "Synchronization completed" and at most [n]
    error lines. *)
Theorem main_loop_never_raises (n : nat) (s T : option node) (L : list event) :
  wf_tree s = true -> wf_tree T = true ->
  exists T' lines,
    main_loop n TopSource TopDest (World s T L) = (Ok tt, World s T' (L ++ lines))
    /\ wf_tree T' = true
    /\ count_occ event_eq_dec lines SynchronizationCompleted = n
    /\ List.length (filter is_error lines) <= n.
Proof.
  intros Hs. revert T L. induction n as [|n IH]; intros T L HT.
  - exists T, []. cbn [main_loop]. unfold ret. rewrite app_nil_r.
    split; [reflexivity|]. split; [exact HT|]. split; [reflexivity|]. cbn. lia.
  - cbn [main_loop]. unfold bind.
    destruct (main_loop_body_turn s T L Hs HT) as (r & T1 & evs & E & Hwf1 & ->).
    destruct (sync_tree_events s T r T1 evs Hs HT E) as (adds & dels & -> & Ha & Hd & _).
    destruct (no_completion_in_pass adds dels Ha Hd) as [Hc He].
    destruct (IH T1 (L ++ (adds ++ dels)
                       ++ match r with
                          | Ok _ => [SynchronizationCompleted]
                          | Raise e => [Error e; SynchronizationCompleted]
                          end) Hwf1) as (T' & lines & -> & Hwf' & Hn & Hle).
    exists T', ((adds ++ dels)
                ++ match r with
                   | Ok _ => [SynchronizationCompleted]
                   | Raise e => [Error e; SynchronizationCompleted]
                   end ++ lines).
    split; [now rewrite <- !app_assoc|].
    split; [exact Hwf'|].
    rewrite (count_occ_app event_eq_dec (adds ++ dels)), Hc.
    rewrite (filter_app is_error (adds ++ dels)), length_app, He.
    rewrite count_occ_app, filter_app, length_app, Hn.
    destruct r as [[]|e]; cbn; split; lia.
Qed.

Lemma main_loop_never_raises_witness :
  (wf_tree (Some (Dir [("a", File false [])])) = true
   /\ wf_tree (Some (Dir [])) = true)
  /\ exists T' lines,
       main_loop 2 TopSource TopDest
         (World (Some (Dir [("a", File false [])])) (Some (Dir [])) [])
       = (Ok tt, World (Some (Dir [("a", File false [])])) T' ([] ++ lines))
       /\ count_occ event_eq_dec lines SynchronizationCompleted = 2.
Proof.
  split; [split; reflexivity|].
  destruct (main_loop_never_raises 2 (Some (Dir [("a", File false [])]))
              (Some (Dir [])) [] eq_refl eq_refl) as (T' & lines & H & _ & Hn & _).
  now exists T', lines.
Defined.

(** X14. Once a pass has completed, the loop of [main] is in a steady
    state: as long as the source does not change, every further turn
    leaves the destination as it is and logs the one line
    "Synchronization completed" and nothing else. *)
Theorem main_loop_steady_state (n : nat) (s T : option node) (L : list event)
    (w1 : world) :
  wf_tree s = true -> wf_tree T = true ->
  sync TopSource TopDest (World s T L) = (Ok tt, w1) ->
  main_loop (S n) TopSource TopDest (World s T L)
  = (Ok tt, World (source_tree w1) (dest_tree w1)
              (logfile w1 ++ repeat SynchronizationCompleted (S n))).
Proof.
  intros Hs HT H.
  destruct (sync_outcome s T L (Ok tt) w1 Hs HT H) as (t1 & evs & E & ->).
  destruct (sync_tree_again s T t1 evs Hs HT E) as [Hwf1 Hagain].
  cbn [main_loop]. unfold bind. rewrite (main_loop_body_ok _ _ H).
  cbn [source_tree dest_tree logfile].
  rewrite (main_loop_steady_turns s t1 Hs Hwf1 Hagain n).
  cbn [repeat]. now rewrite <- app_assoc.
Qed.

Lemma main_loop_steady_state_witness :
  (wf_tree (Some (Dir [("a", txt "1")])) = true
   /\ wf_tree (Some (Dir [("old", txt "2")])) = true
   /\ sync TopSource TopDest
        (World (Some (Dir [("a", txt "1")])) (Some (Dir [("old", txt "2")])) [])
      = (Ok tt,
         World (Some (Dir [("a", txt "1")])) (Some (Dir [("a", txt "1")]))
           [CopiedNewFile (TopSource, ["a"]) (TopDest, ["."; "a"]);
            DeletedFile (TopDest, ["old"])]))
  /\ main_loop 3 TopSource TopDest
       (World (Some (Dir [("a", txt "1")])) (Some (Dir [("old", txt "2")])) [])
     = (Ok tt,
        World (Some (Dir [("a", txt "1")])) (Some (Dir [("a", txt "1")]))
          ([CopiedNewFile (TopSource, ["a"]) (TopDest, ["."; "a"]);
            DeletedFile (TopDest, ["old"])]
           ++ repeat SynchronizationCompleted 3)).
Proof.
  assert (H : sync TopSource TopDest
        (World (Some (Dir [("a", txt "1")])) (Some (Dir [("old", txt "2")])) [])
      = (Ok tt,
         World (Some (Dir [("a", txt "1")])) (Some (Dir [("a", txt "1")]))
           [CopiedNewFile (TopSource, ["a"]) (TopDest, ["."; "a"]);
            DeletedFile (TopDest, ["old"])])) by (vm_compute; reflexivity).
  split; [split; [reflexivity|split; [reflexivity|exact H]]|].
  exact (main_loop_steady_state 2 (Some (Dir [("a", txt "1")]))
           (Some (Dir [("old", txt "2")])) [] _ eq_refl eq_refl H).
Defined.

(** X15. When the destination path is a regular file and the source is a
    directory, [main] does not repair it: the start leaves the file as it
    is, and every turn of the loop fails at once with the same
    [NotADirectoryError], changes nothing and logs that error and the end
    of the pass. *)
Theorem main_with_file_as_destination (n : nat) (es : list (string * node))
    (b : bool) (d : list byte) (L : list event) :
  wf_node (Dir es) = true ->
  (ensure_dest TopDest ;; main_loop n TopSource TopDest)
    (World (Some (Dir es)) (Some (File b d)) L)
  = (Ok tt,
     World (Some (Dir es)) (Some (File b d))
       (L ++ List.concat (repeat [Error (NotADirectoryError (TopDest, [curdir]));
                             SynchronizationCompleted] n))).
Proof.
  intros Hs. unfold ensure_dest, bind at 1 2. cbn.
  revert L. induction n as [|n IH]; intros L.
  - cbn [main_loop repeat List.concat]. unfold ret. now rewrite app_nil_r.
  - cbn [main_loop]. unfold bind.
    destruct (main_loop_body_turn (Some (Dir es)) (Some (File b d)) L Hs eq_refl)
      as (r & T' & evs & E & _ & ->).
    cbn in E. injection E as <- <- <-.
    rewrite IH. cbn [repeat List.concat app]. now rewrite <- app_assoc.
Qed.

Lemma main_with_file_as_destination_witness :
  wf_node (Dir [("a", txt "1")]) = true
  /\ (ensure_dest TopDest ;; main_loop 2 TopSource TopDest)
       (World (Some (Dir [("a", txt "1")])) (Some (txt "x")) [])
     = (Ok tt,
        World (Some (Dir [("a", txt "1")])) (Some (txt "x"))
          ([] ++ List.concat (repeat [Error (NotADirectoryError (TopDest, [curdir]));
                                 SynchronizationCompleted] 2))).
Proof.
  split; [reflexivity|].
  apply (main_with_file_as_destination 2 [("a", txt "1")] true
           (bytes_of_string "x") []).
  reflexivity.
Defined.

(** X16. The log of a pass that completes tells exactly which files were
    copied: a line "Copied new file" names the source file of a path
    exactly when the destination had nothing at that path, and a line
    "Updated file" names it exactly when the destination had there a
    regular file with another MD5 digest. *)
Theorem sync_logs_what_it_copies (s T : option node) (L : list event) (w' : world) :
  wf_tree s = true -> wf_tree T = true ->
  sync TopSource TopDest (World s T L) = (Ok tt, w') ->
  exists lines,
    logfile w' = L ++ lines
    /\ forall p, names_ok p -> p <> [] ->
         ((exists dst, In (CopiedNewFile (TopSource, p) dst) lines)
          <-> (exists r d, lookup s p = Some (File r d)) /\ lookup T p = None)
         /\ ((exists dst, In (UpdatedFile (TopSource, p) dst) lines)
             <-> exists r d old, lookup s p = Some (File r d)
                   /\ lookup T p = Some (File true old)
                   /\ md5_of d <> md5_of old).
Proof.
  intros Hs HT H. destruct s as [[rs ds|es]|].
  1, 3: match type of H with
        | sync _ _ (World ?s0 _ _) = _ =>
            destruct (sync_without_source_directory s0 T L eq_refl HT)
              as (_ & evs & E & Hdel);
            assert (Hnone : forall p, p <> [] -> lookup s0 p = None)
              by (intros p Hp; first [now apply lookup_File|apply lookup_None])
        end; rewrite E in H; injection H as <-; exists evs;
        (split; [reflexivity|]); intros p Hp Hne; rewrite (Hnone p Hne);
        (split; split;
         [intros (dst & Hin);
          now apply (no_addition_among_deletions _ _ Hdel) in Hin
         |intros ((r & d & Hl) & _); discriminate Hl
         |intros (dst & Hin);
          now apply (no_addition_among_deletions _ _ Hdel) in Hin
         |intros (r & d & old & Hl & _); discriminate Hl]).
  destruct (sync_completed es T L w' Hs HT H) as (ds2 & e1 & Hm & Hwf2 & Hset & ->).
  cbn [logfile]. eexists. split; [reflexivity|]. intros p Hp Hne.
  rewrite (mirror_events_closed (Dir es) [] T _ _ Hs Hm).
  pose proof (prune_events_deletions (Dir ds2) [] (Some (Dir es))) as Hdel.
  split.
  - rewrite <- (copied_new_iff p (Dir es) [] T Hs Hp Hne). cbn [app].
    split; intros (dst & Hin); exists dst.
    + apply in_app_or in Hin as [Hin|Hin]; [exact Hin|].
      now apply (no_addition_among_deletions _ _ Hdel) in Hin.
    + apply in_or_app. now left.
  - rewrite <- (updated_iff p (Dir es) [] T Hs Hp Hne). cbn [app].
    split; intros (dst & Hin); exists dst.
    + apply in_app_or in Hin as [Hin|Hin]; [exact Hin|].
      now apply (no_addition_among_deletions _ _ Hdel) in Hin.
    + apply in_or_app. now left.
Qed.

Lemma sync_logs_what_it_copies_witness :
  (wf_tree (Some (Dir [("a", txt "1"); ("b", txt "2")])) = true
   /\ wf_tree (Some (Dir [("a", txt "0")])) = true
   /\ sync TopSource TopDest
        (World (Some (Dir [("a", txt "1"); ("b", txt "2")]))
               (Some (Dir [("a", txt "0")])) [])
      = (Ok tt,
         World (Some (Dir [("a", txt "1"); ("b", txt "2")]))
               (Some (Dir [("a", txt "1"); ("b", txt "2")]))
               [UpdatedFile (TopSource, ["a"]) (TopDest, ["."; "a"]);
                CopiedNewFile (TopSource, ["b"]) (TopDest, ["."; "b"])]))
  /\ exists lines,
       [UpdatedFile (TopSource, ["a"]) (TopDest, ["."; "a"]);
        CopiedNewFile (TopSource, ["b"]) (TopDest, ["."; "b"])] = [] ++ lines
       /\ exists dst, In (CopiedNewFile (TopSource, ["b"]) dst) lines.
Proof.
  assert (H : sync TopSource TopDest
        (World (Some (Dir [("a", txt "1"); ("b", txt "2")]))
               (Some (Dir [("a", txt "0")])) [])
      = (Ok tt,
         World (Some (Dir [("a", txt "1"); ("b", txt "2")]))
               (Some (Dir [("a", txt "1"); ("b", txt "2")]))
               [UpdatedFile (TopSource, ["a"]) (TopDest, ["."; "a"]);
                CopiedNewFile (TopSource, ["b"]) (TopDest, ["."; "b"])]))
    by (vm_compute; reflexivity).
  split; [split; [reflexivity|split; [reflexivity|exact H]]|].
  destruct (sync_logs_what_it_copies
              (Some (Dir [("a", txt "1"); ("b", txt "2")]))
              (Some (Dir [("a", txt "0")])) [] _ eq_refl eq_refl H)
    as (lines & E & Hl).
  exists lines. split; [exact E|].
  assert (Hp : names_ok ["b"]) by (repeat constructor; discriminate).
  assert (Hne : ["b"] <> []) by discriminate.
  apply (proj1 (Hl ["b"] Hp Hne)). split; [|reflexivity].
  exists true, (bytes_of_string "2"). reflexivity.
Defined.

(** X17. The log of a pass that completes tells exactly which
    directories were created: a line "Created directory" names (with or
    without a "." component) the destination path of a source directory
    exactly when the destination had nothing at that path. *)
Theorem sync_logs_what_it_creates (s T : option node) (L : list event) (w' : world) :
  wf_tree s = true -> wf_tree T = true ->
  sync TopSource TopDest (World s T L) = (Ok tt, w') ->
  exists lines,
    logfile w' = L ++ lines
    /\ forall p, names_ok p -> p <> [] ->
         ((exists pth, norm pth = p /\ In (CreatedDirectory (TopDest, pth)) lines)
          <-> (exists cs, lookup s p = Some (Dir cs)) /\ lookup T p = None).
Proof.
  intros Hs HT H. destruct s as [[rs ds|es]|].
  1, 3: match type of H with
        | sync _ _ (World ?s0 _ _) = _ =>
            destruct (sync_without_source_directory s0 T L eq_refl HT)
              as (_ & evs & E & Hdel);
            assert (Hnone : forall p, p <> [] -> lookup s0 p = None)
              by (intros p Hp; first [now apply lookup_File|apply lookup_None])
        end; rewrite E in H; injection H as <-; exists evs;
        (split; [reflexivity|]); intros p Hp Hne; rewrite (Hnone p Hne);
        (split;
         [intros (pth & _ & Hin);
          now apply (no_addition_among_deletions _ _ Hdel) in Hin
         |intros ((cs & Hl) & _); discriminate Hl]).
  destruct (sync_completed es T L w' Hs HT H) as (ds2 & e1 & Hm & Hwf2 & Hset & ->).
  cbn [logfile]. eexists. split; [reflexivity|]. intros p Hp Hne.
  rewrite (mirror_events_closed (Dir es) [] T _ _ Hs Hm).
  pose proof (prune_events_deletions (Dir ds2) [] (Some (Dir es))) as Hdel.
  rewrite <- (created_iff p (Dir es) [] T Hs (Forall_nil _) Hp Hne). cbn [app].
  split; intros (pth & Hn & Hin); exists pth; (split; [exact Hn|]).
  - apply in_app_or in Hin as [Hin|Hin]; [exact Hin|].
    now apply (no_addition_among_deletions _ _ Hdel) in Hin.
  - apply in_or_app. now left.
Qed.

Lemma sync_logs_what_it_creates_witness :
  (wf_tree (Some (Dir [("d", Dir [("e", Dir [])])])) = true
   /\ wf_tree (Some (Dir [])) = true
   /\ sync TopSource TopDest
        (World (Some (Dir [("d", Dir [("e", Dir [])])])) (Some (Dir [])) [])
      = (Ok tt,
         World (Some (Dir [("d", Dir [("e", Dir [])])]))
               (Some (Dir [("d", Dir [("e", Dir [])])]))
               [CreatedDirectory (TopDest, ["."; "d"]);
                CreatedDirectory (TopDest, ["d"; "e"])]))
  /\ exists lines,
       [CreatedDirectory (TopDest, ["."; "d"]);
        CreatedDirectory (TopDest, ["d"; "e"])] = [] ++ lines
       /\ exists pth, norm pth = ["d"]
                      /\ In (CreatedDirectory (TopDest, pth)) lines.
Proof.
  assert (H : sync TopSource TopDest
        (World (Some (Dir [("d", Dir [("e", Dir [])])])) (Some (Dir [])) [])
      = (Ok tt,
         World (Some (Dir [("d", Dir [("e", Dir [])])]))
               (Some (Dir [("d", Dir [("e", Dir [])])]))
               [CreatedDirectory (TopDest, ["."; "d"]);
                CreatedDirectory (TopDest, ["d"; "e"])])) by reflexivity.
  split; [split; [reflexivity|split; [reflexivity|exact H]]|].
  destruct (sync_logs_what_it_creates
              (Some (Dir [("d", Dir [("e", Dir [])])])) (Some (Dir [])) [] _
              eq_refl eq_refl H) as (lines & E & Hl).
  exists lines. split; [exact E|].
  assert (Hp : names_ok ["d"]) by (repeat constructor; discriminate).
  assert (Hne : ["d"] <> []) by discriminate.
  apply (proj2 (Hl ["d"] Hp Hne)). split; [|reflexivity].
  now exists [("e", Dir [])].
Defined.

(** X18. After a pass that completes, the destination holds at the path
    of every source file a readable file whose content is known exactly:
    the bytes that the destination had there if that was a readable file
    with the MD5 digest of the source file, and the bytes of the source
    file otherwise. *)
Theorem sync_file_content (s T : option node) (L : list event) (w' : world)
    (p : list string) (r : bool) (data : list byte) :
  wf_tree s = true -> wf_tree T = true ->
  names_ok p -> p <> [] ->
  lookup s p = Some (File r data) ->
  sync TopSource TopDest (World s T L) = (Ok tt, w') ->
  lookup (dest_tree w') p
  = Some (File true
            match lookup T p with
            | Some (File true old) =>
                if String.eqb (md5_of data) (md5_of old) then old else data
            | _ => data
            end).
Proof.
  intros Hs HT Hp Hne Hl H.
  destruct s as [[b0 d0|es]|];
    [rewrite lookup_File in Hl by exact Hne; discriminate Hl|
    |rewrite lookup_None in Hl; discriminate Hl].
  destruct (sync_completed es T L w' Hs HT H) as (ds2 & e1 & Hm & Hwf2 & Hset & ->).
  cbn [dest_tree].
  pose proof (settled_pruned _ _ Hs Hset) as Hset'.
  destruct (settled_lookup p _ _ r data Hset' Hp Hne Hl) as (-> & old' & Hd & Hmd).
  assert (Horigin : lookup T p = Some (File true old') \/ old' = data).
  { pose proof Hd as Hd'. apply pruned_file_origin in Hd'; [|exact Hp].
    destruct (mirror_file_origin (Dir es) [] T _ _ _ p true old' Hs Hp Hm Hd')
      as [Ho|[rb Ho]]; [now left|right].
    rewrite Hl in Ho. injection Ho as _ <-. reflexivity. }
  rewrite Hd. f_equal. f_equal.
  destruct (lookup T p) as [[[|] old|cs]|] eqn:ET.
  - destruct (String.eqb_spec (md5_of data) (md5_of old)) as [Heq|Hneq].
    + pose proof (mirror_same_digest_frame p (Dir es) [] T true data old _ _ _
                    Hs Hp Hne Hl ET Heq Hm) as Hfr.
      clear Heq Hmd.
      assert (Hkeep : lookup (Some (pruned (Some (Dir es)) (Dir ds2))) p
                      = Some (File true old)).
      { rewrite lookup_pruned; [|exact Hp|intros _; congruence].
        rewrite Hfr. reflexivity. }
      rewrite Hkeep in Hd. injection Hd as <-. reflexivity.
    + destruct Horigin as [Ho|Ho]; [|exact Ho].
      injection Ho as <-. exfalso. apply Hneq. exact Hmd.
  - clear Hmd. destruct Horigin as [Ho|Ho]; [discriminate Ho|exact Ho].
  - clear Hmd. destruct Horigin as [Ho|Ho]; [discriminate Ho|exact Ho].
  - clear Hmd. destruct Horigin as [Ho|Ho]; [discriminate Ho|exact Ho].
Qed.

Lemma sync_file_content_witness :
  (wf_tree (Some (Dir [("a", txt "1")])) = true
   /\ wf_tree (Some (Dir [("a", txt "0")])) = true
   /\ names_ok ["a"] /\ ["a"] <> []
   /\ lookup (Some (Dir [("a", txt "1")])) ["a"] = Some (File true (bytes_of_string "1"))
   /\ sync TopSource TopDest
        (World (Some (Dir [("a", txt "1")])) (Some (Dir [("a", txt "0")])) [])
      = (Ok tt,
         World (Some (Dir [("a", txt "1")])) (Some (Dir [("a", txt "1")]))
           [UpdatedFile (TopSource, ["a"]) (TopDest, ["."; "a"])]))
  /\ lookup (Some (Dir [("a", txt "1")])) ["a"]
     = Some (File true
               match lookup (Some (Dir [("a", txt "0")])) ["a"] with
               | Some (File true old) =>
                   if String.eqb (md5_of (bytes_of_string "1")) (md5_of old)
                   then old else bytes_of_string "1"
               | _ => bytes_of_string "1"
               end).
Proof.
  assert (H : sync TopSource TopDest
        (World (Some (Dir [("a", txt "1")])) (Some (Dir [("a", txt "0")])) [])
      = (Ok tt,
         World (Some (Dir [("a", txt "1")])) (Some (Dir [("a", txt "1")]))
           [UpdatedFile (TopSource, ["a"]) (TopDest, ["."; "a"])]))
    by (vm_compute; reflexivity).
  assert (Hp : names_ok ["a"]) by (repeat constructor; discriminate).
  assert (Hne : ["a"] <> []) by discriminate.
  split.
  { split; [reflexivity|]. split; [reflexivity|]. split; [exact Hp|].
    split; [exact Hne|]. split; [reflexivity|exact H]. }
  exact (sync_file_content
           (Some (Dir [("a", txt "1")])) (Some (Dir [("a", txt "0")])) [] _
           ["a"] true (bytes_of_string "1") eq_refl eq_refl Hp Hne eq_refl H).
Defined.
